(** * csv-test: the retrieval pipeline of [index.js], embedded and verified

    The script fetches users, posts and comments from an HTTP API, keeps the
    users with an even id, validates every entity, and writes one flat record
    per (user, post, comment) triple to a CSV file.

    The embedding follows the source class by class ([Logger], [HttpClient],
    [DataValidator], [ApiService], [CsvWriter], [DataProcessor], [main]).
    Payloads are JSON values, so that the loose-truthiness validation and the
    [TypeError]s of malformed payloads are those of the script.  Effects are
    explicit: a computation returns the events it performs (log lines, HTTP
    attempts, timer waits, the CSV write, the concurrent tasks it starts) and
    either a value or the exception it throws; the local array [allRecords]
    of [DataProcessor.process] is threaded as state. *)

From stdpp Require Import gmap strings list sorting pretty.
From Equations Require Import Equations.

Set Default Proof Using "Type".
Open Scope Z_scope.

(** ** JSON values *)

(** What [response.data] can hold.  Numbers are the integer-valued ones (ids
    and millisecond timestamps); on them the sign of a difference, the
    remainder modulo 2 and the comparison with zero are exact. [VUndefined]
    is what reading an absent property yields. *)
#[warnings="-register-all"]
Inductive value :=
| VUndefined
| VNull
| VBool (b : bool)
| VNum (n : Z)
| VStr (s : string)
| VArr (items : list value)
| VObj (props : gmap string value).

(** The result of a numeric conversion. *)
Inductive number := NaN | Num (z : Z).

(** ToBoolean: [undefined], [null], [false], [0] and the empty string are falsy. *)
Definition truthy (v : value) : bool :=
  match v with
  | VUndefined | VNull => false
  | VBool b => b
  | VNum n => negb (n =? 0)
  | VStr s => negb (String.eqb s EmptyString)
  | VArr _ | VObj _ => true
  end.

(** Built-ins of the JavaScript runtime that work on the characters of a
    string.  They are not part of the script and are taken as parameters:
    [StringToNumber s] is [Number(s)], [NumberToString n] is [String(n)],
    [DateParse s] is the time value of [new Date(s)] ([NaN] when invalid). *)
Record Runtime := {
  StringToNumber : string -> number;
  NumberToString : Z -> string;
  DateParse : string -> number
}.

(** The configuration object of the script. *)
Record Config := {
  baseUrl : string;
  maxRetries : Z;
  retryDelay : Z;
  postsPerUser : Z;
  commentsPerPost : Z;
  outputFile : string
}.

(** The literal [CONFIG] of [index.js]. *)
Definition default_CONFIG : Config := {|
  baseUrl := "https://jsonplaceholder.typicode.com";
  maxRetries := 3;
  retryDelay := 1000;
  postsPerUser := 5;
  commentsPerPost := 3;
  outputFile := "output.csv"
|}.

(** One row of the CSV file; the fields hold the values read from the
    entities, unconverted. *)
Record FlatRecord := {
  userId : value;
  userName : value;
  postId : value;
  postTitle : value;
  commentId : value;
  commentBody : value;
  commentEmail : value
}.

(** ** Exceptions, events and the two monads *)

Inductive exn :=
| TypeError
| AxiosError (reason : string)
| CsvError (reason : string).

Inductive outcome (A : Type) :=
| Return (a : A)
| Throw (e : exn).
Arguments Return {A} a.
Arguments Throw {A} e.

Inductive level := Info | Warn | Error.

(** The lines the script prints, one constructor per line of the source; an
    argument is the text a template literal interpolates (the timestamp
    prefix and the fixed wording are left out).  [Details m] is the second
    line of [Logger.error], [[ERROR] Details: ${error.message}]: the message
    of the error it was given, or [undefined] ([None]) when it was given an
    object without a [message]. *)
Inductive message :=
| MakingRequest (url : string)
| RequestSuccessful (url : string)
| RequestRetry (delay : Z) (attempt : nat) (url : string)
| RequestFailed (url : string)
| InvalidUser (missing : list string)
| InvalidPost (missing : list string)
| InvalidComment (missing : list string)
| FetchingUsers
| FetchedUsers (len : string)
| FetchingPosts (userId : string)
| FetchingComments (postId : string)
| WroteRecords (n : nat)
| WriteFailed
| StartingProcessing
| FilteredUsers (n : nat)
| FailedComments (postId : string)
| FailedUser (userId : string)
| ProcessingCompleted (n : nat)
| NoValidRecords
| ProcessingFailed
| StartingApplication
| ApplicationCompleted
| ApplicationFailed
| Details (message_of : option exn).

(** [ETasks awaited tasks] stands for the tasks that [Promise.all] is given:
    the events of each task, in the order of the task.  The tasks are started
    one after the other and then run concurrently, so that the script fixes
    no order between the events of two tasks.  When [Promise.all] resolves
    ([awaited = true]) every task has ended before the next event of the
    run; when it rejects, the run goes on at once, and the tasks that have
    not ended go on beside it for as long as the process lives. *)
#[warnings="-register-all"]
Inductive event :=
| ELog (l : level) (m : message)
| EGet (url : string)
| ESleep (ms : Z)
| EWrite (records : list FlatRecord)
| ETasks (awaited : bool) (tasks : list (list event)).

(** [IO A]: the events performed, then a value or a thrown exception. *)
Definition IO (A : Type) : Type := list event * outcome A.

#[global] Instance IO_ret : MRet IO := fun A a => ([], Return a).
#[global] Instance IO_bind : MBind IO := fun A B f m =>
  match m with
  | (t, Return a) => let '(t', r) := f a in (t ++ t', r)
  | (t, Throw e) => (t, Throw e)
  end.

Definition emit (e : event) : IO unit := ([e], Return tt).
Definition throw {A : Type} (e : exn) : IO A := ([], Throw e).

(** [try { m } catch (error) { h error }] *)
Definition try_catch {A : Type} (m : IO A) (h : exn -> IO A) : IO A :=
  match m with
  | (t, Return a) => (t, Return a)
  | (t, Throw e) => let '(t', r) := h e in (t ++ t', r)
  end.

(** The environment of a run: the configuration, the runtime built-ins, the
    server and the CSV library.  [axios_get url k] is what the attempt with
    [retries = k] of a request to [url] yields: the decoded body, or the
    error axios rejects with (network error, timeout, status outside 2xx).
    [csv_writeRecords rs] is [None] when the file is written. *)
Record Env := {
  CONFIG : Config;
  runtime : Runtime;
  axios_get : string -> nat -> exn + value;
  csv_writeRecords : list FlatRecord -> option exn
}.

(** ** Property access and conversions *)

(** [o[k]].  Reading a property of [undefined] or [null] throws; a missing
    property is [undefined].  The script reads [id], [name], [title], [body],
    [email], [date] and [length]; a string is the sequence of its code
    units. *)
Definition get (o : value) (k : string) : IO value :=
  match o with
  | VUndefined | VNull => throw TypeError
  | VObj props => mret (default VUndefined (props !! k))
  | VArr items =>
      mret (if String.eqb k "length" then VNum (Z.of_nat (length items)) else VUndefined)
  | VStr s =>
      mret (if String.eqb k "length" then VNum (Z.of_nat (String.length s)) else VUndefined)
  | VBool _ | VNum _ => mret VUndefined
  end.

Definition join (sep : string) (l : list string) : string :=
  match l with
  | [] => EmptyString
  | s :: l => fold_left (fun acc x => acc +:+ sep +:+ x) l s
  end.

(** ToPrimitive on a payload.  A payload holds data and no function: in an
    object with a key [toString] that key shadows [Object.prototype.toString]
    with a value that cannot be called, and the conversion of the object
    throws a [TypeError] (a key [valueOf] is skipped for the same reason,
    and the inherited [valueOf] returns the object itself).  An array
    converts through [join], which converts each element but [undefined] and
    [null].  [converts v] tells that the conversion of [v] returns. *)
Fixpoint converts (v : value) : bool :=
  match v with
  | VObj props => bool_decide (props !! "toString" = None)
  | VArr items => forallb converts items
  | _ => true
  end.

(** The string a value converts to, when its conversion returns. *)
Fixpoint to_string (rt : Runtime) (v : value) : string :=
  match v with
  | VUndefined => "undefined"
  | VNull => "null"
  | VBool b => if b then "true" else "false"
  | VNum n => NumberToString rt n
  | VStr s => s
  | VArr items =>
      join "," (List.map (fun x => match x with
                                   | VUndefined | VNull => EmptyString
                                   | _ => to_string rt x
                                   end) items)
  | VObj _ => "[object Object]"
  end.

(** The number a value converts to, when its conversion returns. *)
Definition to_number (rt : Runtime) (v : value) : number :=
  match v with
  | VUndefined => NaN
  | VNull => Num 0
  | VBool b => Num (if b then 1 else 0)
  | VNum n => Num n
  | VStr s => StringToNumber rt s
  | VArr _ | VObj _ => StringToNumber rt (to_string rt v)
  end.

(** TimeClip: time values beyond 8.64e15 ms are invalid. *)
Definition TimeClip (t : number) : number :=
  match t with
  | NaN => NaN
  | Num z => if Z.abs z <=? 8640000000000000 then Num z else NaN
  end.

(** The time value of [new Date(v)], when the conversion of [v] returns. *)
Definition date_value (rt : Runtime) (v : value) : number :=
  match v with
  | VStr s => DateParse rt s
  | VArr _ | VObj _ => DateParse rt (to_string rt v)
  | _ => TimeClip (to_number rt v)
  end.

(** ToString, as a template literal applies it; ToNumber, as [%] and [-]
    apply it; the time value of [new Date(v)].  Each of them starts with
    ToPrimitive. *)
Definition ToString (rt : Runtime) (v : value) : IO string :=
  if converts v then mret (to_string rt v) else throw TypeError.

Definition ToNumber (rt : Runtime) (v : value) : IO number :=
  if converts v then mret (to_number rt v) else throw TypeError.

Definition DateValue (rt : Runtime) (v : value) : IO number :=
  if converts v then mret (date_value rt v) else throw TypeError.

Definition num_sub (a b : number) : number :=
  match a, b with
  | Num x, Num y => Num (x - y)
  | _, _ => NaN
  end.

(** [a % m]: the remainder has the sign of the dividend. *)
Definition num_rem (a : number) (m : Z) : number :=
  match a with
  | Num x => Num (Z.rem x m)
  | NaN => NaN
  end.

(** [a === 0] *)
Definition num_is_zero (a : number) : bool :=
  match a with
  | Num x => x =? 0
  | NaN => false
  end.

(** ** Logger *)

(** What [Logger.error] is given as its second argument: an error that was
    caught, or the object literal of a validator ([{ userId: user.id }] and
    the like), which has no [message].  Both are truthy. *)
Inductive thrown :=
| Caught (e : exn)
| Literal (key : string) (id : value).

Module Logger.
Definition info (m : message) : IO unit := emit (ELog Info m).

(** [error(message, error = null)]: the line of the message and, as
    [error] is truthy at every call of the script, the line of
    [error.message]. *)
Definition error (m : message) (error : thrown) : IO unit :=
  emit (ELog Error m);;
  emit (ELog Error (Details (match error with
                             | Caught e => Some e
                             | Literal _ _ => None
                             end))).

Definition warn (m : message) : IO unit := emit (ELog Warn m).
End Logger.

(** ** HttpClient *)

Module HttpClient.

(** [request(url, retries = 0)]: one attempt; on failure, while
    [retries < CONFIG.maxRetries], wait [retryDelay * 2^retries] and call
    itself with [retries + 1]; otherwise rethrow the error. *)
Equations? request (E : Env) (url : string) (retries : nat) : IO value
  by wf (Z.to_nat (maxRetries (CONFIG E) - Z.of_nat retries)) lt :=
request E url retries :=
  Logger.info (MakingRequest url);;
  emit (EGet url);;
  match axios_get E url retries with
  | inr data =>
      Logger.info (RequestSuccessful url);;
      mret data
  | inl error =>
      match decide (Z.of_nat retries < maxRetries (CONFIG E)) with
      | left Hlt =>
          let delay := retryDelay (CONFIG E) * 2 ^ Z.of_nat retries in
          Logger.warn (RequestRetry delay (retries + 1) url);;
          emit (ESleep delay);;
          request E url (S retries)
      | right _ =>
          Logger.error (RequestFailed url) (Caught error);;
          throw error
      end
  end.
Proof. lia. Qed.

End HttpClient.

(** ** Arrays *)

(** [arr.filter(callback)] on a list, with a callback that may throw. *)
Fixpoint filterM {A : Type} (p : A -> IO bool) (l : list A) : IO (list A) :=
  match l with
  | [] => mret []
  | x :: l =>
      keep ← p x;
      rest ← filterM p l;
      mret (if keep : bool then x :: rest else rest)
  end.

(** [arr.filter(callback)] on a payload: anything but an array has no
    [filter] method. *)
Definition Array_filter (p : value -> IO bool) (arr : value) : IO (list value) :=
  match arr with
  | VArr items => filterM p items
  | _ => throw TypeError
  end.

(** [arr.slice(0, end)]: a negative [end] counts from the end of the array. *)
Definition slice (l : list value) (stop : Z) : list value :=
  let len := Z.of_nat (length l) in
  let final := if stop <? 0 then Z.max (len + stop) 0 else Z.min stop len in
  take (Z.to_nat final) l.

(** SortCompare of [Array.prototype.sort]: [undefined] elements go last
    without a call of [comparefn]; a [NaN] result counts as [0]. *)
Definition SortCompare (comparefn : value -> value -> IO number)
    (x y : value) : IO comparison :=
  match x, y with
  | VUndefined, VUndefined => mret Eq
  | VUndefined, _ => mret Gt
  | _, VUndefined => mret Lt
  | _, _ =>
      v ← comparefn x y;
      mret (match v with NaN => Eq | Num z => z ?= 0 end)
  end.

(** [Array.prototype.sort] is stable, and its result is fixed by the
    language only when [comparefn] is a consistent comparison; the order an
    engine produces otherwise depends on its algorithm.  The model is the
    stable insertion sort: each element in turn goes into the sorted prefix,
    before the first element it is strictly less than. *)
Fixpoint sort_insert (comparefn : value -> value -> IO number)
    (x : value) (sorted : list value) : IO (list value) :=
  match sorted with
  | [] => mret [x]
  | y :: rest =>
      c ← SortCompare comparefn x y;
      match c with
      | Lt => mret (x :: y :: rest)
      | _ => rest' ← sort_insert comparefn x rest; mret (y :: rest')
      end
  end.

Fixpoint sort_from (comparefn : value -> value -> IO number)
    (sorted : list value) (l : list value) : IO (list value) :=
  match l with
  | [] => mret sorted
  | x :: l =>
      sorted' ← sort_insert comparefn x sorted;
      sort_from comparefn sorted' l
  end.

(** [arr.sort(comparefn)] on a payload. *)
Definition Array_sort (comparefn : value -> value -> IO number)
    (arr : value) : IO (list value) :=
  match arr with
  | VArr items => sort_from comparefn [] items
  | _ => throw TypeError
  end.

(** ** DataValidator *)

Module DataValidator.

(** [required.filter(field => !entity[field])] *)
Definition missingFields (required : list string) (entity : value)
  : IO (list string) :=
  filterM (fun field => v ← get entity field; mret (negb (truthy v))) required.

Definition validateUser (user : value) : IO bool :=
  let required := ["id"; "name"]%string in
  missing ← missingFields required user;
  if (0 <? length missing)%nat then
    id ← get user "id";
    Logger.error (InvalidUser missing) (Literal "userId" id);;
    mret false
  else mret true.

Definition validatePost (post : value) : IO bool :=
  let required := ["id"; "title"]%string in
  missing ← missingFields required post;
  if (0 <? length missing)%nat then
    id ← get post "id";
    Logger.error (InvalidPost missing) (Literal "postId" id);;
    mret false
  else mret true.

Definition validateComment (comment : value) : IO bool :=
  let required := ["id"; "body"; "email"]%string in
  missing ← missingFields required comment;
  if (0 <? length missing)%nat then
    id ← get comment "id";
    Logger.error (InvalidComment missing) (Literal "commentId" id);;
    mret false
  else mret true.

End DataValidator.

(** ** ApiService *)

Module ApiService.

(** The comparator of both sorts:
    [(a, b) => { if (a.date && b.date) return new Date(b.date) - new Date(a.date);
                 return b.id - a.id; }] *)
Definition byDateOrId (rt : Runtime) (a b : value) : IO number :=
  ad ← get a "date";
  both ← (if truthy ad then get b "date" else mret ad);
  if truthy both then
    bd ← get b "date";
    tb ← DateValue rt bd;
    ad ← get a "date";
    ta ← DateValue rt ad;
    mret (num_sub tb ta)
  else
    bi ← get b "id";
    ai ← get a "id";
    nb ← ToNumber rt bi;
    na ← ToNumber rt ai;
    mret (num_sub nb na).

(** The URLs of the three requests; [text] is what the template literal
    interpolates for the id. *)
Definition usersUrl (E : Env) : string :=
  baseUrl (CONFIG E) +:+ "/users".
Definition postsUrlOf (E : Env) (text : string) : string :=
  baseUrl (CONFIG E) +:+ "/posts?userId=" +:+ text.
Definition commentsUrlOf (E : Env) (text : string) : string :=
  baseUrl (CONFIG E) +:+ "/comments?postId=" +:+ text.

(** The URL of the posts of a user id and of the comments of a post id,
    when the id converts to a string. *)
Definition postsUrl (E : Env) (userId : value) : string :=
  postsUrlOf E (to_string (runtime E) userId).
Definition commentsUrl (E : Env) (postId : value) : string :=
  commentsUrlOf E (to_string (runtime E) postId).

Definition getUsers (E : Env) : IO value :=
  Logger.info FetchingUsers;;
  users ← HttpClient.request E (usersUrl E) 0;
  len ← get users "length";
  text ← ToString (runtime E) len;
  Logger.info (FetchedUsers text);;
  mret users.

Definition getPostsByUserId (E : Env) (userId : value) : IO (list value) :=
  text ← ToString (runtime E) userId;
  Logger.info (FetchingPosts text);;
  text ← ToString (runtime E) userId;
  posts ← HttpClient.request E (postsUrlOf E text) 0;
  sortedPosts ← Array_sort (byDateOrId (runtime E)) posts;
  mret (slice sortedPosts (postsPerUser (CONFIG E))).

Definition getCommentsByPostId (E : Env) (postId : value) : IO (list value) :=
  text ← ToString (runtime E) postId;
  Logger.info (FetchingComments text);;
  text ← ToString (runtime E) postId;
  comments ← HttpClient.request E (commentsUrlOf E text) 0;
  sortedComments ← Array_sort (byDateOrId (runtime E)) comments;
  mret (slice sortedComments (commentsPerPost (CONFIG E))).

End ApiService.

(** ** CsvWriter *)

Module CsvWriter.

Definition writeRecords (E : Env) (records : list FlatRecord) : IO unit :=
  try_catch
    (emit (EWrite records);;
     match csv_writeRecords E records with
     | None => mret tt
     | Some error => throw error
     end;;
     Logger.info (WroteRecords (length records)))
    (fun error =>
       Logger.error WriteFailed (Caught error);;
       throw error).

End CsvWriter.

(** ** DataProcessor *)

(** [P A]: an [IO] computation that also appends to the array [allRecords];
    what was pushed before an exception stays in the array. *)
Definition P (A : Type) : Type :=
  list FlatRecord -> list event * list FlatRecord * outcome A.

#[global] Instance P_ret : MRet P := fun A a s => ([], s, Return a).
#[global] Instance P_bind : MBind P := fun A B f m s =>
  match m s with
  | (t, s', Return a) => let '(t', s'', r) := f a s' in (t ++ t', s'', r)
  | (t, s', Throw e) => (t, s', Throw e)
  end.

Definition io {A : Type} (m : IO A) : P A := fun s => (m.1, s, m.2).

(** [allRecords.push(r)] *)
Definition push (r : FlatRecord) : P unit := fun s => ([], s ++ [r], Return tt).

Definition try_catchP {A : Type} (m : P A) (h : exn -> P A) : P A := fun s =>
  match m s with
  | (t, s', Return a) => (t, s', Return a)
  | (t, s', Throw e) => let '(t', s'', r) := h e s' in (t ++ t', s'', r)
  end.

(** [for (const x of l) body] and [l.forEach(body)] *)
Fixpoint forEach {A : Type} (body : A -> P unit) (l : list A) : P unit :=
  match l with
  | [] => mret tt
  | x :: l => body x;; forEach body l
  end.

(** [const allRecords = init; loop]: the array after the loop. *)
Definition with_allRecords (init : list FlatRecord) (loop : P unit)
  : IO (list FlatRecord) :=
  let '(t, allRecords, r) := loop init in
  (t, match r with Return _ => Return allRecords | Throw e => Throw e end).

(** What [Promise.all] settles with: the values of the tasks, in the order of
    the tasks, or the error of a task that rejects.  When several tasks
    reject, [Promise.all] rejects with the error of the one that rejects
    first in time, and the model with that of the first in the list; the
    tasks of the script reject with a [TypeError] only
    ([fetchComments_rejects_with_TypeError]), so that for them the two
    agree. *)
Fixpoint settle {A : Type} (tasks : list (IO A)) : outcome (list A) :=
  match tasks with
  | [] => Return []
  | task :: tasks =>
      match task.2, settle tasks with
      | Throw e, _ => Throw e
      | Return _, Throw e => Throw e
      | Return a, Return l => Return (a :: l)
      end
  end.

Definition returned {A : Type} (r : outcome A) : bool :=
  match r with
  | Return _ => true
  | Throw _ => false
  end.

(** [Promise.all(tasks)], on tasks that have been started. *)
Definition Promise_all {A : Type} (tasks : list (IO A)) : IO (list A) :=
  ([ETasks (returned (settle tasks)) (List.map fst tasks)], settle tasks).

Module DataProcessor.

(** The callback of [posts.map]: the post with its comments. *)
Definition fetchComments (E : Env) (post : value) : IO (value * list value) :=
  valid ← DataValidator.validatePost post;
  if negb valid then mret (post, [])
  else
    try_catch
      (id ← get post "id";
       comments ← ApiService.getCommentsByPostId E id;
       mret (post, comments))
      (fun error =>
         id ← get post "id";
         text ← ToString (runtime E) id;
         Logger.error (FailedComments text) (Caught error);;
         mret (post, [])).

(** The callback of [postsWithComments.forEach]. *)
Definition pushRecords (user : value) (pc : value * list value) : P unit :=
  let '(post, comments) := pc in
  forEach (fun comment =>
    valid ← io (DataValidator.validateComment comment);
    if valid : bool then
      uid ← io (get user "id");
      uname ← io (get user "name");
      pid ← io (get post "id");
      ptitle ← io (get post "title");
      cid ← io (get comment "id");
      cbody ← io (get comment "body");
      cemail ← io (get comment "email");
      push {| userId := uid; userName := uname;
              postId := pid; postTitle := ptitle;
              commentId := cid; commentBody := cbody;
              commentEmail := cemail |}
    else mret tt) comments.

(** [user.id % 2 === 0] *)
Definition hasEvenId (rt : Runtime) (user : value) : IO bool :=
  id ← get user "id";
  n ← ToNumber rt id;
  mret (num_is_zero (num_rem n 2)).

(** The body of the loop over [evenUsers]. *)
Definition processUser (E : Env) (user : value) : P unit :=
  valid ← io (DataValidator.validateUser user);
  if negb valid then mret tt
  else
    try_catchP
      (id ← io (get user "id");
       posts ← io (ApiService.getPostsByUserId E id);
       postsWithComments ← io (Promise_all (List.map (fetchComments E) posts));
       forEach (pushRecords user) postsWithComments)
      (fun error =>
         id ← io (get user "id");
         text ← io (ToString (runtime E) id);
         io (Logger.error (FailedUser text) (Caught error))).

Definition process (E : Env) : IO unit :=
  try_catch
    (Logger.info StartingProcessing;;
     users ← ApiService.getUsers E;
     evenUsers ← Array_filter (hasEvenId (runtime E)) users;
     Logger.info (FilteredUsers (length evenUsers));;
     allRecords ← with_allRecords [] (forEach (processUser E) evenUsers);
     if (0 <? length allRecords)%nat then
       CsvWriter.writeRecords E allRecords;;
       Logger.info (ProcessingCompleted (length allRecords))
     else
       Logger.warn NoValidRecords)
    (fun error =>
       Logger.error ProcessingFailed (Caught error);;
       throw error).

End DataProcessor.

(** [main]: the exit status of the run, [1] from [process.exit(1)] and [0]
    when the function returns. *)
Definition main (E : Env) : IO Z :=
  try_catch
    (Logger.info StartingApplication;;
     DataProcessor.process E;;
     Logger.info ApplicationCompleted;;
     mret 0)
    (fun error =>
       Logger.error ApplicationFailed (Caught error);;
       mret 1).

(** * Vocabulary of the specification *)

(** ** The retry schedule *)

(** All the events of a trace, those of its tasks included.  The events of
    a task are in the order of the task; the tasks come one after the other,
    which says nothing of the order between events of two tasks. *)
Fixpoint flat (ev : event) : list event :=
  match ev with
  | ETasks _ tasks => concat (List.map (fun t => concat (List.map flat t)) tasks)
  | _ => [ev]
  end.

Definition flatten (t : list event) : list event := concat (List.map flat t).

(** The network side of a trace: attempts and timer waits, in order. *)
Inductive step :=
| Attempt (url : string)
| Wait (ms : Z).

Definition timeline (t : list event) : list step :=
  omap (fun ev => match ev with
                  | EGet url => Some (Attempt url)
                  | ESleep ms => Some (Wait ms)
                  | _ => None
                  end) (flatten t).

Definition attempts (t : list event) : list string :=
  omap (fun ev => match ev with EGet url => Some url | _ => None end) (flatten t).

Definition waits (t : list event) : list Z :=
  omap (fun ev => match ev with ESleep ms => Some ms | _ => None end) (flatten t).

(** The two lines [Logger.error] prints for an error that was caught. *)
Definition error_lines (m : message) (e : exn) : list event :=
  [ELog Error m; ELog Error (Details (Some e))].

(** [lines] occur in [t], one after the other. *)
Definition logged (lines t : list event) : Prop :=
  exists before after, t = before ++ lines ++ after.

(** The schedule of [k] retries that follow the attempt with [retries = r]. *)
Definition backoff (E : Env) (url : string) (r k : nat) : list step :=
  Attempt url ::
  flat_map (fun i => [Wait (retryDelay (CONFIG E) * 2 ^ Z.of_nat i); Attempt url])
           (seq r k).


(** ** Entities *)

(** A value whose properties can be read: anything but [undefined] and
    [null]. *)
Definition coercible (v : value) : bool :=
  match v with
  | VUndefined | VNull => false
  | _ => true
  end.

(** The property [k] of [o] as a value ([undefined] where the read throws). *)
Definition prop (o : value) (k : string) : value :=
  match get o k with
  | (_, Return v) => v
  | (_, Throw _) => VUndefined
  end.

(** The falsy values: the absent field (read as [undefined]), [null],
    [false], numeric zero and the empty string. *)
Inductive falsy : value -> Prop :=
| falsy_undefined : falsy VUndefined
| falsy_null : falsy VNull
| falsy_false : falsy (VBool false)
| falsy_zero : falsy (VNum 0)
| falsy_empty : falsy (VStr EmptyString).

(** ** Sorting *)

(** [l'] is [l] sorted by descending [key], ties in the order of [l]. *)
Definition stable_sorted_desc (key : value -> Z) (l l' : list value) : Prop :=
  l' ≡ₚ l
  /\ StronglySorted (fun a b => key b <= key a) l'
  /\ forall k, filter (fun x => key x = k) l' = filter (fun x => key x = k) l.

(** On the elements of [l], [comparefn a b] is the difference of keys
    [key b - key a]. *)
Definition compares_by (comparefn : value -> value -> IO number)
    (key : value -> Z) (l : list value) : Prop :=
  forall a b, a ∈ l -> b ∈ l -> comparefn a b = mret (Num (key b - key a)).

(** Every item carries a date, and [key] is its time value. *)
Definition all_dated (rt : Runtime) (key : value -> Z) (l : list value) : Prop :=
  Forall (fun x => truthy (prop x "date") = true
                   /\ DateValue rt (prop x "date") = mret (Num (key x))) l.

(** No item carries a date, and [key] is the numeric id. *)
Definition none_dated (rt : Runtime) (key : value -> Z) (l : list value) : Prop :=
  Forall (fun x => truthy (prop x "date") = false
                   /\ ToNumber rt (prop x "id") = mret (Num (key x))) l.

(** The numeric id of an item ([0] when it has none). *)
Definition id_key (rt : Runtime) (x : value) : Z :=
  match (ToNumber rt (prop x "id")).2 with
  | Return (Num z) => z
  | _ => 0
  end.

(** The time value of the date of an item ([0] when it has none). *)
Definition date_key (rt : Runtime) (x : value) : Z :=
  match (DateValue rt (prop x "date")).2 with
  | Return (Num z) => z
  | _ => 0
  end.

(** ** The pipeline *)

(** The row of a (user, post, comment) triple. *)
Definition flatRecord (user post comment : value) : FlatRecord := {|
  userId := prop user "id";
  userName := prop user "name";
  postId := prop post "id";
  postTitle := prop post "title";
  commentId := prop comment "id";
  commentBody := prop comment "body";
  commentEmail := prop comment "email"
|}.

(** [user.id % 2 === 0], as a value ([false] where it throws). *)
Definition evenId (rt : Runtime) (user : value) : bool :=
  match DataProcessor.hasEvenId rt user with
  | (_, Return b) => b
  | (_, Throw _) => false
  end.

(** A user on which the test of the filter returns: its [id] can be read
    and converts to a number. *)
Definition testable (user : value) : bool :=
  coercible user && converts (prop user "id").

Definition validUser (user : value) : bool :=
  match DataValidator.validateUser user with
  | (_, Return b) => b
  | (_, Throw _) => false
  end.

Definition validPost (post : value) : bool :=
  match DataValidator.validatePost post with
  | (_, Return b) => b
  | (_, Throw _) => false
  end.

Definition validComment (comment : value) : bool :=
  match DataValidator.validateComment comment with
  | (_, Return b) => b
  | (_, Throw _) => false
  end.

(** The posts [getPostsByUserId] returns for a user (none when it throws). *)
Definition postsFor (E : Env) (user : value) : list value :=
  match ApiService.getPostsByUserId E (prop user "id") with
  | (_, Return posts) => posts
  | (_, Throw _) => []
  end.

(** The comments the task of a post resolves with (none when it rejects). *)
Definition commentsFor (E : Env) (post : value) : list value :=
  match DataProcessor.fetchComments E post with
  | (_, Return (_, comments)) => comments
  | (_, Throw _) => []
  end.

(** The task of a post resolves when the post can be read and, if it is
    valid, its id converts to a string; the task of any other post
    rejects. *)
Definition resolves (post : value) : bool :=
  coercible post && (negb (validPost post) || converts (prop post "id")).

(** The fetched user list is one whose [length] can be logged. *)
Definition countable (users : value) : bool :=
  coercible users && converts (prop users "length").

(** The row a comment yields: none when it is invalid. *)
Definition row_of (user post comment : value) : list FlatRecord :=
  if validComment comment then [flatRecord user post comment] else [].

(** The rows of a post with its comments. *)
Definition rows_of (user : value) (pc : value * list value) : list FlatRecord :=
  List.map (flatRecord user pc.1) (List.filter validComment pc.2).

(** The comments [getCommentsByPostId] returns for a post (none when it
    throws). *)
Definition fetched_comments (E : Env) (post : value) : list value :=
  match ApiService.getCommentsByPostId E (prop post "id") with
  | (_, Return comments) => comments
  | (_, Throw _) => []
  end.

(** The rows of a user, post by post and comment by comment. *)
Definition rows (E : Env) (user : value) (posts : list value) : list FlatRecord :=
  flat_map (fun post =>
              List.map (flatRecord user post)
                       (List.filter validComment (commentsFor E post)))
           posts.

(** What the loop body pushes for one user. *)
Definition contribution (E : Env) (user : value) : list FlatRecord :=
  (DataProcessor.processUser E user []).1.2.

(** The part of the loop body that follows the fetch of the posts. *)
Definition processPosts (E : Env) (user : value) (posts : list value) : P unit :=
  postsWithComments ← io (Promise_all (List.map (DataProcessor.fetchComments E) posts));
  forEach (DataProcessor.pushRecords user) postsWithComments.

(** What is pushed for a user from a given list of posts. *)
Definition records_of_posts (E : Env) (user : value) (posts : list value)
  : list FlatRecord :=
  (processPosts E user posts []).1.2.

(** [allRecords] after the loop, from a given list of fetched users. *)
Definition records_from (E : Env) (users : list value) : list FlatRecord :=
  match filterM (DataProcessor.hasEvenId (runtime E)) users with
  | (_, Return evenUsers) =>
      (forEach (DataProcessor.processUser E) evenUsers []).1.2
  | (_, Throw _) => []
  end.

(** The array [evenUsers] of a run (empty when the run does not get that
    far). *)
Definition evenUsers_of (E : Env) : list value :=
  match (users ← ApiService.getUsers E;
         Array_filter (DataProcessor.hasEvenId (runtime E)) users) with
  | (_, Return evenUsers) => evenUsers
  | (_, Throw _) => []
  end.

(** [DataProcessor.process] up to the end of the loop: the array
    [allRecords]. *)
Definition collect (E : Env) : IO (list FlatRecord) :=
  Logger.info StartingProcessing;;
  users ← ApiService.getUsers E;
  evenUsers ← Array_filter (DataProcessor.hasEvenId (runtime E)) users;
  Logger.info (FilteredUsers (length evenUsers));;
  with_allRecords [] (forEach (DataProcessor.processUser E) evenUsers).

(** The output of the pipeline: the records accumulated by a run (none when
    the run aborts before the end of the loop). *)
Definition output (E : Env) : list FlatRecord :=
  match collect E with
  | (_, Return allRecords) => allRecords
  | (_, Throw _) => []
  end.

(** The record lists handed to the CSV library. *)
Definition written (t : list event) : list (list FlatRecord) :=
  omap (fun ev => match ev with EWrite records => Some records | _ => None end)
       (flatten t).

(** The exit status of a run. *)
Definition exit_status (E : Env) : Z :=
  match (main E).2 with
  | Return status => status
  | Throw _ => 1
  end.

(** A computation on [allRecords] that only appends, and does the same
    whatever the array holds. *)
Definition appends {A : Type} (m : P A) : Prop :=
  forall s, m s = ((m []).1.1, s ++ (m []).1.2, (m []).2).

(** A computation that hands nothing to the CSV library. *)
Definition nowrite {A : Type} (m : IO A) : Prop := written m.1 = [].

Definition nowriteP {A : Type} (m : P A) : Prop :=
  forall s, written (m s).1.1 = [].

(** What [DataProcessor.process] does with [allRecords] after the loop. *)
Definition writeOut (E : Env) (allRecords : list FlatRecord) : IO unit :=
  if (0 <? length allRecords)%nat then
    CsvWriter.writeRecords E allRecords;;
    Logger.info (ProcessingCompleted (length allRecords))
  else
    Logger.warn NoValidRecords.

(** The fetched user list cannot be processed: it is not an array, or on one
    of its elements the test of the filter throws (the element is [null], or
    its [id] does not convert to a number). *)
Definition malformed_users (users : value) : Prop :=
  match users with
  | VArr items => forallb testable items = false
  | _ => True
  end.


(** ** Example environments *)

(** An object literal. *)
Definition obj (fields : list (string * value)) : value :=
  VObj (list_to_map fields).


(** A runtime for the examples.  It reads strings of decimal digits as
    numbers and no string as a date; the examples use numeric ids and
    timestamps only. *)
Fixpoint digits (s : string) (acc : Z) : number :=
  match s with
  | EmptyString => Num acc
  | String c s =>
      let n := Z.of_nat (Ascii.nat_of_ascii c) in
      if (48 <=? n) && (n <=? 57) then digits s (10 * acc + n - 48) else NaN
  end.

Definition example_runtime : Runtime := {|
  StringToNumber := fun s => digits s 0;
  NumberToString := pretty;
  DateParse := fun _ => NaN
|}.

Definition example_env (server : string -> nat -> exn + value)
    (csv : list FlatRecord -> option exn) : Env := {|
  CONFIG := default_CONFIG;
  runtime := example_runtime;
  axios_get := server;
  csv_writeRecords := csv
|}.

(** A server that refuses every connection. *)
Definition E_down : Env :=
  example_env (fun _ _ => inl (AxiosError "ECONNREFUSED")) (fun _ => None).

(** Routing of the example servers: the response of each URL, the same at
    every attempt; any other URL is not found. *)
Fixpoint route (table : list (string * value)) (url : string) : exn + value :=
  match table with
  | [] => inl (AxiosError "404")
  | (u, body) :: table => if String.eqb url u then inr body else route table url
  end.

Definition ann : value := obj [("id", VNum 2); ("name", VStr "Ann")].
Definition bob : value := obj [("id", VNum 3); ("name", VStr "Bob")].
Definition eve : value := obj [("id", VNum 4); ("name", VStr "Eve")].
Definition zed : value := obj [("id", VNum 0); ("name", VStr "Zed")].

Definition post (id : Z) (title : string) : value :=
  obj [("id", VNum id); ("title", VStr title)].
Definition dated_post (id : Z) (title : string) (date : Z) : value :=
  obj [("id", VNum id); ("title", VStr title); ("date", VNum date)].
Definition comment (id : Z) (body email : string) : value :=
  obj [("id", VNum id); ("body", VStr body); ("email", VStr email)].

(** Three posts, each with a date. *)
Definition dated_posts : list value :=
  [dated_post 1 "a" 30; dated_post 2 "b" 50; dated_post 3 "c" 30].

Definition E_dated : Env :=
  example_env
    (fun url _ => route
       [("https://jsonplaceholder.typicode.com/posts?userId=2", VArr dated_posts)] url)
    (fun _ => None).

(** Three posts, of which the third carries no date. *)
Definition mixed_posts : list value :=
  [dated_post 1 "a" 30; dated_post 2 "b" 20; post 3 "c"].

Definition E_mixed : Env :=
  example_env
    (fun url _ => route
       [("https://jsonplaceholder.typicode.com/posts?userId=2", VArr mixed_posts)] url)
    (fun _ => None).

(** A small site.  Ann (id 2) has a post with two comments, a post whose
    comments cannot be fetched, and a post without a title; Bob has an odd
    id; the posts of Eve (id 4) cannot be fetched. *)
Definition site : list (string * value) := [
  ("https://jsonplaceholder.typicode.com/users", VArr [ann; bob; eve]);
  ("https://jsonplaceholder.typicode.com/posts?userId=2",
   VArr [post 10 "hello"; post 11 "again"; obj [("id", VNum 12)]]);
  ("https://jsonplaceholder.typicode.com/posts?userId=3", VArr [post 30 "odd"]);
  ("https://jsonplaceholder.typicode.com/comments?postId=10",
   VArr [comment 100 "nice" "a@x.org"; comment 101 "thanks" "b@x.org"]);
  ("https://jsonplaceholder.typicode.com/comments?postId=12",
   VArr [comment 120 "lost" "c@x.org"]);
  ("https://jsonplaceholder.typicode.com/comments?postId=30",
   VArr [comment 300 "odd" "d@x.org"])
].

Definition E_site : Env :=
  example_env (fun url _ => route site url) (fun _ => None).

(** The same site, with a CSV file that cannot be written. *)
Definition E_site_readonly : Env :=
  example_env (fun url _ => route site url) (fun _ => Some (CsvError "EACCES")).

(** A server that answers the user listing with an object instead of an
    array. *)
Definition E_not_array : Env :=
  example_env
    (fun url _ => route
       [("https://jsonplaceholder.typicode.com/users",
         obj [("error", VStr "try again later")])] url)
    (fun _ => None).

(** ** Further vocabulary *)

(** The time spent waiting, in milliseconds. *)
Definition total_wait (t : list event) : Z := foldr Z.add 0 (waits t).

(** The required fields of an entity that are falsy, in the order of
    [required]. *)
Definition missing_fields (required : list string) (entity : value) : list string :=
  List.filter (fun f => negb (truthy (prop entity f))) required.

(** [Array.isArray(v)] *)
Definition is_array (v : value) : bool :=
  match v with
  | VArr _ => true
  | _ => false
  end.

(** A server on which the first two attempts of every request time out. *)
Definition E_flaky : Env :=
  example_env
    (fun url k => if (k <? 2)%nat then inl (AxiosError "ETIMEDOUT") else route site url)
    (fun _ => None).

(** The site of [E_site], with [postsPerUser] set to [0]. *)
Definition E_no_posts : Env := {|
  CONFIG := {| baseUrl := baseUrl default_CONFIG;
               maxRetries := maxRetries default_CONFIG;
               retryDelay := retryDelay default_CONFIG;
               postsPerUser := 0;
               commentsPerPost := commentsPerPost default_CONFIG;
               outputFile := outputFile default_CONFIG |};
  runtime := example_runtime;
  axios_get := fun url _ => route site url;
  csv_writeRecords := fun _ => None
|}.

(** A user whose id is [null], and a user without id. *)
Definition nil_id : value := obj [("id", VNull); ("name", VStr "Nil")].
Definition no_id : value := obj [("name", VStr "Nemo")].

(** An entity whose id is an object with a key [toString]: the id is truthy,
    and converts neither to a string nor to a number. *)
Definition unnamed_id : value :=
  obj [("id", obj [("toString", VNum 1)]); ("name", VStr "Will");
       ("title", VStr "untitled")].

(** A server whose posts and comments are not arrays. *)
Definition E_objects : Env :=
  example_env
    (fun url _ => route
       [("https://jsonplaceholder.typicode.com/users", VArr [ann; eve]);
        ("https://jsonplaceholder.typicode.com/posts?userId=2",
         obj [("error", VStr "try again later")]);
        ("https://jsonplaceholder.typicode.com/posts?userId=4", VArr [post 40 "x"]);
        ("https://jsonplaceholder.typicode.com/comments?postId=40", VStr "<html>")] url)
    (fun _ => None).

(** A computation that throws nothing but [TypeError]. *)
Definition only_TypeError {A : Type} (m : IO A) : Prop :=
  forall e, m.2 = Throw e -> e = TypeError.

(** A computation that makes no HTTP attempt. *)
Definition noget {A : Type} (m : IO A) : Prop := attempts m.1 = [].

Definition nogetP {A : Type} (m : P A) : Prop :=
  forall s, attempts (m s).1.1 = [].

(** Ann has three posts; the comments of the second one in sort order are
    the array [[null]]. *)
Definition E_null_comment : Env :=
  example_env
    (fun url _ => route
       [("https://jsonplaceholder.typicode.com/users", VArr [ann]);
        ("https://jsonplaceholder.typicode.com/posts?userId=2",
         VArr [post 10 "first"; post 11 "second"; post 12 "third"]);
        ("https://jsonplaceholder.typicode.com/comments?postId=12",
         VArr [comment 120 "kept" "a@x.org"]);
        ("https://jsonplaceholder.typicode.com/comments?postId=11", VArr [VNull]);
        ("https://jsonplaceholder.typicode.com/comments?postId=10",
         VArr [comment 100 "lost" "b@x.org"])] url)
    (fun _ => None).

(** Ann has two posts and a [null] in the array of her posts; Eve has a
    post whose comments hold a [null]. *)
Definition E_null_items : Env :=
  example_env
    (fun url _ => route
       [("https://jsonplaceholder.typicode.com/users", VArr [ann; eve]);
        ("https://jsonplaceholder.typicode.com/posts?userId=2",
         VArr [post 10 "first"; VNull; post 12 "third"]);
        ("https://jsonplaceholder.typicode.com/posts?userId=4", VArr [post 40 "x"]);
        ("https://jsonplaceholder.typicode.com/comments?postId=40",
         VArr [comment 400 "a" "a@x.org"; VNull])] url)
    (fun _ => None).

(** The URLs the loop body of a user may request: the posts of the user, if
    it is valid, and the comments of its valid posts. *)
Definition requested_for (E : Env) (user : value) (url : string) : Prop :=
  validUser user = true
  /\ (url = ApiService.postsUrl E (prop user "id")
      \/ exists post, post ∈ postsFor E user /\ validPost post = true
                      /\ url = ApiService.commentsUrl E (prop post "id")).

(** An item the comparator of the sorts can take: it can be read, and its
    id and its date convert. *)
Definition plain (x : value) : bool :=
  coercible x && converts (prop x "id") && converts (prop x "date").

(** A server whose user listing holds, between Ann and Eve, a user whose id
    is an object with a key [toString]. *)
Definition E_bad_user : Env :=
  example_env
    (fun url _ => route
       [("https://jsonplaceholder.typicode.com/users", VArr [ann; unnamed_id; eve]);
        ("https://jsonplaceholder.typicode.com/posts?userId=2", VArr [post 10 "hello"]);
        ("https://jsonplaceholder.typicode.com/comments?postId=10",
         VArr [comment 100 "nice" "a@x.org"])] url)
    (fun _ => None).

(** A dated post whose id is an object with a key [toString]. *)
Definition bad_post : value :=
  obj [("id", obj [("toString", VNum 1)]); ("title", VStr "untitled");
       ("date", VNum 5)].

(** Ann has two dated posts: one with a comment, and [bad_post]. *)
Definition E_bad_post : Env :=
  example_env
    (fun url _ => route
       [("https://jsonplaceholder.typicode.com/users", VArr [ann]);
        ("https://jsonplaceholder.typicode.com/posts?userId=2",
         VArr [bad_post; dated_post 7 "fine" 9]);
        ("https://jsonplaceholder.typicode.com/comments?postId=7",
         VArr [comment 70 "lost" "a@x.org"])] url)
    (fun _ => None).

(** * Verification *)

(** ** Laws of the [IO] monad *)

Lemma bind_unfold {A B : Type} (m : IO A) (f : A -> IO B) :
  m ≫= f =
  match m.2 with
  | Return a => (m.1 ++ (f a).1, (f a).2)
  | Throw e => (m.1, Throw e)
  end.
Proof.
  destruct m as [t [a|e]]; simpl; [|done].
  unfold mbind, IO_bind. by destruct (f a).
Qed.

Lemma bind_ret {A B : Type} (a : A) (f : A -> IO B) : mret a ≫= f = f a.
Proof. rewrite bind_unfold. simpl. by destruct (f a). Qed.

Lemma bind_pure {A B : Type} (a : A) (f : A -> IO B) :
  (([], Return a) : IO A) ≫= f = f a.
Proof. apply bind_ret. Qed.

Lemma bind_throw {A B : Type} (e : exn) (f : A -> IO B) : throw e ≫= f = throw e.
Proof. done. Qed.

Lemma bind_emit {B : Type} (ev : event) (f : unit -> IO B) :
  emit ev ≫= f = (ev :: (f tt).1, (f tt).2).
Proof. by rewrite bind_unfold. Qed.

Lemma bind_assoc {A B C : Type} (m : IO A) (f : A -> IO B) (g : B -> IO C) :
  (m ≫= f) ≫= g = m ≫= (fun a => f a ≫= g).
Proof.
  rewrite !bind_unfold. destruct m as [t [a|e]]; simpl; [|done].
  rewrite !bind_unfold. destruct (f a) as [t' [b|e]]; simpl; [|done].
  by rewrite app_assoc.
Qed.

Lemma bind_ext {A B : Type} (m : IO A) (f g : A -> IO B) :
  (forall a, f a = g a) -> m ≫= f = m ≫= g.
Proof.
  intros Hfg. rewrite !bind_unfold. destruct m as [t [a|e]]; simpl; [|done].
  by rewrite Hfg.
Qed.

Lemma bind_Return {A B : Type} (m : IO A) (f : A -> IO B) t a :
  m = (t, Return a) -> m ≫= f = (t ++ (f a).1, (f a).2).
Proof. intros ->. by rewrite bind_unfold. Qed.

Lemma bind_Throw {A B : Type} (m : IO A) (f : A -> IO B) t e :
  m = (t, Throw e) -> m ≫= f = (t, Throw e).
Proof. by intros ->. Qed.

(** What a bind that returns was made of. *)
Lemma bind_inv_Return {A B : Type} (m : IO A) (f : A -> IO B) t b :
  m ≫= f = (t, Return b) ->
  exists t1 a t2, m = (t1, Return a) /\ f a = (t2, Return b) /\ t = t1 ++ t2.
Proof.
  rewrite bind_unfold. destruct m as [t1 [a|e]]; simpl; [|done].
  destruct (f a) as [t2 r] eqn:Hf. simpl. intros [= <- ->]. eauto 6.
Qed.


(** ** Conversions *)

Lemma ToString_converts (rt : Runtime) (v : value) :
  converts v = true -> ToString rt v = mret (to_string rt v).
Proof. unfold ToString. by intros ->. Qed.

Lemma ToNumber_converts (rt : Runtime) (v : value) :
  converts v = true -> ToNumber rt v = mret (to_number rt v).
Proof. unfold ToNumber. by intros ->. Qed.

Lemma DateValue_converts (rt : Runtime) (v : value) :
  converts v = true -> DateValue rt v = mret (date_value rt v).
Proof. unfold DateValue. by intros ->. Qed.

Lemma ToString_throws (rt : Runtime) (v : value) :
  converts v = false -> ToString rt v = throw TypeError.
Proof. unfold ToString. by intros ->. Qed.

Lemma ToNumber_throws (rt : Runtime) (v : value) :
  converts v = false -> ToNumber rt v = throw TypeError.
Proof. unfold ToNumber. by intros ->. Qed.

Lemma DateValue_throws (rt : Runtime) (v : value) :
  converts v = false -> DateValue rt v = throw TypeError.
Proof. unfold DateValue. by intros ->. Qed.

(** A conversion that returns tells that the value converts. *)
Lemma ToNumber_inv (rt : Runtime) (v : value) (n : number) :
  ToNumber rt v = mret n -> converts v = true /\ n = to_number rt v.
Proof. unfold ToNumber. destruct (converts v); [by intros [= <-]|done]. Qed.

Lemma DateValue_inv (rt : Runtime) (v : value) (n : number) :
  DateValue rt v = mret n -> converts v = true /\ n = date_value rt v.
Proof. unfold DateValue. destruct (converts v); [by intros [= <-]|done]. Qed.

(** ** Traces *)

Lemma flatten_app (t1 t2 : list event) :
  flatten (t1 ++ t2) = flatten t1 ++ flatten t2.
Proof. unfold flatten. by rewrite List.map_app, concat_app. Qed.

Lemma flatten_cons (ev : event) (t : list event) :
  flatten (ev :: t) = flat ev ++ flatten t.
Proof. done. Qed.

Lemma flatten_tasks (awaited : bool) (tasks : list (list event)) :
  flatten [ETasks awaited tasks] = concat (List.map flatten tasks).
Proof. unfold flatten. simpl. by rewrite app_nil_r. Qed.

Lemma timeline_app (t1 t2 : list event) :
  timeline (t1 ++ t2) = timeline t1 ++ timeline t2.
Proof. unfold timeline. by rewrite flatten_app, omap_app. Qed.

Lemma attempts_app (t1 t2 : list event) :
  attempts (t1 ++ t2) = attempts t1 ++ attempts t2.
Proof. unfold attempts. by rewrite flatten_app, omap_app. Qed.

Lemma waits_app (t1 t2 : list event) :
  waits (t1 ++ t2) = waits t1 ++ waits t2.
Proof. unfold waits. by rewrite flatten_app, omap_app. Qed.

Lemma written_app (t1 t2 : list event) :
  written (t1 ++ t2) = written t1 ++ written t2.
Proof. unfold written. by rewrite flatten_app, omap_app. Qed.

Lemma timeline_log (l : level) (m : message) (t : list event) :
  timeline (ELog l m :: t) = timeline t.
Proof. done. Qed.

Lemma timeline_get (url : string) (t : list event) :
  timeline (EGet url :: t) = Attempt url :: timeline t.
Proof. done. Qed.

Lemma timeline_sleep (ms : Z) (t : list event) :
  timeline (ESleep ms :: t) = Wait ms :: timeline t.
Proof. done. Qed.

Lemma written_log (l : level) (m : message) (t : list event) :
  written (ELog l m :: t) = written t.
Proof. done. Qed.

Lemma attempts_log (l : level) (m : message) (t : list event) :
  attempts (ELog l m :: t) = attempts t.
Proof. done. Qed.

Lemma attempts_error_lines (m : message) (e : exn) :
  attempts (error_lines m e) = [].
Proof. done. Qed.

Lemma omap_concat {A B : Type} (f : A -> option B) (ls : list (list A)) :
  omap f (concat ls) = concat (List.map (omap f) ls).
Proof. induction ls as [|l ls IH]; [done|]. simpl. by rewrite omap_app, IH. Qed.

Lemma attempts_tasks (awaited : bool) (tasks : list (list event)) :
  attempts [ETasks awaited tasks] = concat (List.map attempts tasks).
Proof.
  unfold attempts. rewrite flatten_tasks, omap_concat, List.map_map. done.
Qed.

Lemma written_tasks (awaited : bool) (tasks : list (list event)) :
  written [ETasks awaited tasks] = concat (List.map written tasks).
Proof.
  unfold written. rewrite flatten_tasks, omap_concat, List.map_map. done.
Qed.

Lemma logged_app_l (lines t1 t2 : list event) :
  logged lines t1 -> logged lines (t1 ++ t2).
Proof.
  intros (a & b & ->). exists a, (b ++ t2). by rewrite <- !app_assoc.
Qed.

Lemma logged_app_r (lines t1 t2 : list event) :
  logged lines t2 -> logged lines (t1 ++ t2).
Proof.
  intros (a & b & ->). exists (t1 ++ a), b. by rewrite <- !app_assoc.
Qed.

Lemma logged_cons (lines : list event) (ev : event) (t : list event) :
  logged lines t -> logged lines (ev :: t).
Proof. apply (logged_app_r lines [ev]). Qed.

Lemma logged_here (lines t : list event) : logged lines (lines ++ t).
Proof. by exists [], t. Qed.

Lemma logged_elem_of (lines t : list event) (ev : event) :
  logged lines t -> ev ∈ lines -> ev ∈ t.
Proof. intros (a & b & ->) Hin. rewrite !elem_of_app. auto. Qed.

(** ** [Logger] *)

Lemma bind_error {B : Type} (m : message) (e : exn) (f : unit -> IO B) :
  Logger.error m (Caught e) ≫= f = (error_lines m e ++ (f tt).1, (f tt).2).
Proof. unfold Logger.error. by rewrite bind_assoc, !bind_emit. Qed.

Lemma error_Caught (m : message) (e : exn) :
  Logger.error m (Caught e) = (error_lines m e, Return tt).
Proof. done. Qed.

(** ** Lists *)

Lemma filter_none {A : Type} (P : A -> Prop) `{!forall x, Decision (P x)}
    (l : list A) :
  Forall (fun x => ~ P x) l -> filter P l = [].
Proof.
  induction 1 as [|x l Hx _ IH]; [done|]. by rewrite filter_cons_False.
Qed.
(** ** C1: the retry schedule of [HttpClient.request] *)

Lemma request_failing (E : Env) (url : string) (err : nat -> exn) (n : nat) :
  maxRetries (CONFIG E) = Z.of_nat n ->
  (forall k, axios_get E url k = inl (err k)) ->
  forall k r, (r + k = n)%nat ->
  exists t, HttpClient.request E url r = (t, Throw (err n))
            /\ timeline t = backoff E url r k.
Proof.
  intros Hn Hfail. induction k as [|k IH]; intros r Hr.
  - rewrite HttpClient.request_equation_1, Hfail.
    destruct (decide _) as [Hlt|_]; [lia|].
    replace r with n by lia. eexists. split; [reflexivity|done].
  - rewrite HttpClient.request_equation_1, Hfail.
    destruct (decide _) as [_|Hge]; [|lia].
    destruct (IH (S r)) as (t & Ht & Htl); [lia|].
    cbn zeta. unfold Logger.info, Logger.warn.
    rewrite !bind_emit, Ht. simpl.
    eexists. split; [reflexivity|].
    change (Attempt url :: Wait (retryDelay (CONFIG E) * 2 ^ Z.of_nat r) :: timeline t
            = backoff E url r (S k)).
    rewrite Htl. done.
Qed.

Lemma backoff_attempts (E : Env) (url : string) (t : list event) (r k : nat) :
  timeline t = backoff E url r k ->
  attempts t = replicate (S k) url
  /\ waits t = List.map (fun i => retryDelay (CONFIG E) * 2 ^ Z.of_nat i) (seq r k).
Proof.
  unfold backoff. revert r k.
  assert (Hgen : forall (t : list event) (s : list step),
    timeline t = s ->
    attempts t = omap (fun x => match x with Attempt u => Some u | _ => None end) s
    /\ waits t = omap (fun x => match x with Wait d => Some d | _ => None end) s).
  { intros t0 s <-. unfold attempts, waits, timeline.
    induction (flatten t0) as [|[] t1 [IHa IHw]]; [done|..]; cbn [omap list_omap].
    all: split; first [exact IHa | exact IHw | f_equal; assumption]. }
  intros r k Ht. destruct (Hgen _ _ Ht) as [-> ->]. clear.
  simpl. revert r. induction k as [|k IH]; intros r; [done|].
  simpl. destruct (IH (S r)) as [[= ->] ->]. done.
Qed.

(** C1. With [maxRetries = n], a request to a URL on which every attempt
    fails makes exactly [n + 1] attempts, waits [retryDelay * 2^i] before the
    retry number [i] (for [i = 0 .. n-1]), each wait between two successive
    attempts, and then throws the error of the last attempt. *)
Theorem request_retries_then_rethrows
    (E : Env) (url : string) (err : nat -> exn) (n : nat) :
  maxRetries (CONFIG E) = Z.of_nat n ->
  (forall k, axios_get E url k = inl (err k)) ->
  exists t,
    HttpClient.request E url 0 = (t, Throw (err n))
    /\ timeline t = backoff E url 0 n
    /\ attempts t = replicate (n + 1) url
    /\ waits t = List.map (fun i => retryDelay (CONFIG E) * 2 ^ Z.of_nat i) (seq 0 n).
Proof.
  intros Hn Hfail.
  destruct (request_failing E url err n Hn Hfail n 0%nat) as (t & Ht & Htl); [lia|].
  exists t. destruct (backoff_attempts _ _ _ _ _ Htl) as [Ha Hw].
  replace (n + 1)%nat with (S n) by lia. done.
Qed.

Lemma request_retries_then_rethrows_witness :
  maxRetries (CONFIG E_down) = Z.of_nat 3
  /\ (forall k, axios_get E_down "http://localhost/users" k = inl (AxiosError "ECONNREFUSED"))
  /\ exists t,
       HttpClient.request E_down "http://localhost/users" 0 =
         (t, Throw (AxiosError "ECONNREFUSED"))
       /\ timeline t = backoff E_down "http://localhost/users" 0 3
       /\ attempts t = replicate (3 + 1) "http://localhost/users"%string
       /\ waits t = [1000; 2000; 4000].
Proof.
  split; [reflexivity|]. split; [reflexivity|].
  apply (request_retries_then_rethrows E_down "http://localhost/users"
           (fun _ => AxiosError "ECONNREFUSED") 3); reflexivity.
Defined.

(** ** C6: the validators *)

Lemma get_coercible (o : value) (k : string) :
  coercible o = true -> get o k = mret (prop o k).
Proof. by destruct o. Qed.

Lemma get_nullish {o : value} (k : string) :
  coercible o = false -> get o k = throw TypeError.
Proof. by destruct o. Qed.

Lemma truthy_false_iff (v : value) : truthy v = false <-> falsy v.
Proof.
  split.
  - destruct v as [| |[]|n|s| |]; simpl; try done; try constructor.
    + intros H%negb_false_iff%Z.eqb_eq. subst. constructor.
    + intros H%negb_false_iff%String.eqb_eq. subst. constructor.
  - by destruct 1.
Qed.

Lemma prop_absent (m : gmap string value) (f : string) :
  m !! f = None -> prop (VObj m) f = VUndefined.
Proof. unfold prop. simpl. by intros ->. Qed.

Lemma missingFields_coercible (required : list string) (entity : value) :
  coercible entity = true ->
  DataValidator.missingFields required entity =
  ([], Return (List.filter (fun f => negb (truthy (prop entity f))) required)).
Proof.
  intros Hc. unfold DataValidator.missingFields.
  induction required as [|f required IH]; [done|].
  cbn [filterM List.filter]. rewrite get_coercible, !bind_ret, IH, bind_pure by done.
  done.
Qed.

Lemma filter_missing_nil (required : list string) (entity : value) :
  List.filter (fun f => negb (truthy (prop entity f))) required = []
  <-> ~ exists f, f ∈ required /\ falsy (prop entity f).
Proof.
  induction required as [|f required IH]; simpl.
  - split; [|done]. intros _ (f & Hf & _). by apply elem_of_nil in Hf.
  - destruct (truthy (prop entity f)) eqn:Ht; simpl.
    + rewrite IH. split; intros Hn (g & Hg & Hfalsy); apply Hn.
      * apply elem_of_cons in Hg as [->|Hg]; [|by eauto].
        apply truthy_false_iff in Hfalsy. congruence.
      * exists g. split; [by apply elem_of_cons; right|done].
    + split; [done|]. intros Hn. exfalso. apply Hn. exists f.
      split; [by apply elem_of_cons; left|by apply truthy_false_iff].
Qed.

(** The three validators share their shape; [mk] is the log line and [key]
    the key of the object literal given to [Logger.error]. *)
Lemma validate_shape (required : list string) (entity : value)
    (mk : list string -> message) (key : string) :
  coercible entity = true ->
  let missing := List.filter (fun f => negb (truthy (prop entity f))) required in
  (missing ← DataValidator.missingFields required entity;
   if (0 <? length missing)%nat then
     id ← get entity "id";
     Logger.error (mk missing) (Literal key id);;
     mret false
   else mret true) =
  (if (0 <? length missing)%nat
   then [ELog Error (mk missing); ELog Error (Details None)] else [],
   Return (negb (0 <? length missing)%nat)).
Proof.
  intros Hc missing. rewrite missingFields_coercible, bind_pure by done.
  fold missing. destruct (0 <? length missing)%nat; [|done].
  rewrite get_coercible, bind_ret by done.
  unfold Logger.error. by rewrite bind_assoc, !bind_emit.
Qed.

Lemma validate_false_iff (required : list string) (entity : value) :
  let missing := List.filter (fun f => negb (truthy (prop entity f))) required in
  negb (0 <? length missing)%nat = false
  <-> exists f, f ∈ required /\ falsy (prop entity f).
Proof.
  intros missing. pose proof (filter_missing_nil required entity) as Hnil.
  fold missing in Hnil. destruct missing as [|f l] eqn:Hm; simpl.
  - split; [done|]. intros Hex. by apply Hnil in Hex.
  - split; [|done]. intros _.
    assert (Hin : f ∈ missing) by (rewrite Hm; apply elem_of_cons; by left).
    unfold missing in Hin. apply list_elem_of_In, filter_In in Hin as [Hin Hf].
    exists f. split; [by apply list_elem_of_In|].
    apply truthy_false_iff. by apply negb_true_iff.
Qed.

(** C6. On every entity, each validator returns [false] exactly when one of
    its required fields is falsy, that is absent, [null], [false], numeric
    zero or the empty string; a user whose id is [0] is invalid. *)
Theorem validators_reject_exactly_falsy_fields (entity : value) :
  coercible entity = true ->
  (exists t b, DataValidator.validateUser entity = (t, Return b)
     /\ (b = false <-> exists f, f ∈ ["id"; "name"]%string /\ falsy (prop entity f)))
  /\ (exists t b, DataValidator.validatePost entity = (t, Return b)
     /\ (b = false <-> exists f, f ∈ ["id"; "title"]%string /\ falsy (prop entity f)))
  /\ (exists t b, DataValidator.validateComment entity = (t, Return b)
     /\ (b = false <->
         exists f, f ∈ ["id"; "body"; "email"]%string /\ falsy (prop entity f)))
  /\ (forall v, falsy v <->
        v = VUndefined \/ v = VNull \/ v = VBool false \/ v = VNum 0 \/ v = VStr EmptyString)
  /\ (forall m f, entity = VObj m -> m !! f = None -> falsy (prop entity f))
  /\ (prop entity "id" = VNum 0 ->
      exists t, DataValidator.validateUser entity = (t, Return false)).
Proof.
  intros Hc.
  unfold DataValidator.validateUser, DataValidator.validatePost,
    DataValidator.validateComment. cbn zeta.
  rewrite (validate_shape _ _ InvalidUser _ Hc), (validate_shape _ _ InvalidPost _ Hc),
    (validate_shape _ _ InvalidComment _ Hc).
  repeat split.
  1-3: eexists _, _; split; [reflexivity|apply validate_false_iff].
  - destruct 1; auto 10.
  - intros [->|[->|[->|[->| ->]]]]; constructor.
  - intros m f -> Hm. rewrite prop_absent by done. constructor.
  - intros Hid. eexists.
    assert (Hf : negb (0 <? length (List.filter
        (fun f => negb (truthy (prop entity f))) ["id"; "name"]%string))%nat = false).
    { apply validate_false_iff. exists "id"%string.
      split; [apply elem_of_cons; by left|]. rewrite Hid. constructor. }
    by rewrite Hf.
Qed.

Lemma validators_reject_exactly_falsy_fields_witness :
  coercible zed = true
  /\ exists t, DataValidator.validateUser zed = (t, Return false).
Proof.
  split; [reflexivity|].
  apply (validators_reject_exactly_falsy_fields zed); reflexivity.
Defined.

(** ** C4: sorting and truncation in [ApiService] *)

Section sorting.
Context (comparefn : value -> value -> IO number) (key : value -> Z).

Let R (a b : value) : Prop := key b <= key a.

Lemma SortCompare_by_key (l : list value) (x y : value) :
  compares_by comparefn key l -> x ∈ l -> y ∈ l ->
  coercible x = true -> coercible y = true ->
  SortCompare comparefn x y = mret (key y - key x ?= 0).
Proof.
  intros Hcmp Hx Hy Hcx Hcy. unfold SortCompare.
  destruct x; try done; destruct y; try done; by rewrite Hcmp, bind_ret.
Qed.

(** Insertion puts [x] after the elements whose key is at least its own. *)
Lemma sort_insert_by_key (l sorted : list value) (x : value) :
  compares_by comparefn key l ->
  Forall (fun y => coercible y = true) l ->
  x ∈ l -> sorted ⊆ l ->
  StronglySorted R sorted ->
  exists sorted',
    sort_insert comparefn x sorted = mret sorted'
    /\ StronglySorted R sorted'
    /\ sorted' ≡ₚ x :: sorted
    /\ forall k, filter (fun y => key y = k) sorted' =
                 filter (fun y => key y = k) sorted ++ filter (fun y => key y = k) [x].
Proof.
  intros Hcmp Hco Hx. rewrite Forall_forall in Hco.
  induction sorted as [|y rest IH]; intros Hsub Hsorted.
  - exists [x]. simpl. split_and!; [done|repeat constructor|done|done].
  - assert (Hy : y ∈ l) by (apply Hsub; by left).
    assert (Hrest : rest ⊆ l) by (intros z Hz; apply Hsub; by right).
    apply StronglySorted_inv in Hsorted as [Hsorted Hall].
    cbn [sort_insert].
    rewrite (SortCompare_by_key l) by auto. rewrite bind_ret.
    destruct (key y - key x ?= 0) eqn:Hc.
    + apply Z.compare_eq in Hc.
      destruct (IH Hrest Hsorted) as (s' & -> & Hs' & Hp & Hf).
      rewrite bind_ret. exists (y :: s'). split_and!; [done|..].
      * constructor; [done|]. rewrite Hp. constructor; [unfold R; lia|done].
      * rewrite Hp. apply perm_swap.
      * intros k. rewrite !filter_cons, Hf.
        destruct (decide (key y = k)); done.
    + exists (x :: y :: rest). rewrite Z.compare_lt_iff in Hc. split_and!; [done|..].
      * constructor; [by constructor|].
        constructor; [unfold R; lia|].
        eapply Forall_impl; [exact Hall|]. unfold R. simpl. lia.
      * done.
      * intros k. rewrite (filter_cons _ x), (filter_cons _ x []), filter_nil.
        destruct (decide (key x = k)) as [Hk|Hk]; [|by rewrite app_nil_r].
        assert (Hnone : filter (fun z => key z = k) (y :: rest) = []).
        { apply filter_none. constructor; [lia|].
          eapply Forall_impl; [exact Hall|]. unfold R. simpl. lia. }
        by rewrite Hnone.
    + rewrite Z.compare_gt_iff in Hc.
      destruct (IH Hrest Hsorted) as (s' & -> & Hs' & Hp & Hf).
      rewrite bind_ret. exists (y :: s'). split_and!; [done|..].
      * constructor; [done|]. rewrite Hp. constructor; [unfold R; lia|done].
      * rewrite Hp. apply perm_swap.
      * intros k. rewrite !filter_cons, Hf.
        destruct (decide (key y = k)); done.
Qed.

Lemma sort_from_by_key (l sorted rest : list value) :
  compares_by comparefn key l ->
  Forall (fun y => coercible y = true) l ->
  sorted ⊆ l -> rest ⊆ l ->
  StronglySorted R sorted ->
  exists sorted',
    sort_from comparefn sorted rest = mret sorted'
    /\ StronglySorted R sorted'
    /\ sorted' ≡ₚ sorted ++ rest
    /\ forall k, filter (fun y => key y = k) sorted' =
                 filter (fun y => key y = k) sorted ++ filter (fun y => key y = k) rest.
Proof.
  intros Hcmp Hco. revert sorted.
  induction rest as [|x rest IH]; intros sorted Hsub Hrest Hsorted.
  - exists sorted. simpl. rewrite app_nil_r. split_and!; [done..|].
    intros k. by rewrite app_nil_r.
  - assert (Hx : x ∈ l) by (apply Hrest; by left).
    destruct (sort_insert_by_key l sorted x) as (s1 & Hs1 & Hsorted1 & Hp1 & Hf1);
      [done..|].
    cbn [sort_from]. rewrite Hs1, bind_ret.
    destruct (IH s1) as (s2 & Hs2 & Hsorted2 & Hp2 & Hf2); [| |done|].
    + intros z Hz. rewrite Hp1 in Hz. apply elem_of_cons in Hz as [->|Hz]; auto.
    + intros z Hz. apply Hrest. by right.
    + exists s2. split_and!; [done|done| |].
      * rewrite Hp2, Hp1. by rewrite <- Permutation_middle.
      * intros k. rewrite Hf2, Hf1, <- app_assoc.
        rewrite (filter_cons _ x rest), (filter_cons _ x []).
        by destruct (decide (key x = k)).
Qed.

(** With a comparator that is a difference of keys, [sort] returns the
    stable descending sort by that key. *)
Lemma Array_sort_by_key (l : list value) :
  compares_by comparefn key l ->
  Forall (fun y => coercible y = true) l ->
  exists sorted,
    Array_sort comparefn (VArr l) = mret sorted /\ stable_sorted_desc key l sorted.
Proof.
  intros Hcmp Hco.
  destruct (sort_from_by_key l [] l) as (s & Hs & Hsorted & Hp & Hf);
    [done|done|set_solver|done|constructor|].
  exists s. split; [done|]. by split_and!.
Qed.
End sorting.

(** The stable descending sort of a list is unique: whatever algorithm sorts
    by a key and keeps ties in order gives the same list. *)
Lemma stable_sorted_desc_unique (key : value -> Z) (l l1 l2 : list value) :
  stable_sorted_desc key l l1 -> stable_sorted_desc key l l2 -> l1 = l2.
Proof.
  intros (_ & Hs1 & Hf1) (_ & Hs2 & Hf2).
  assert (Hf : forall k, filter (fun x => key x = k) l1 = filter (fun x => key x = k) l2)
    by (intros k; by rewrite Hf1, Hf2).
  clear Hf1 Hf2 l. revert l2 Hs2 Hf.
  induction Hs1 as [|x l1 Hs1 IH Hx]; intros l2 Hs2 Hf.
  - destruct l2 as [|y l2]; [done|].
    specialize (Hf (key y)). by rewrite filter_cons_True in Hf.
  - destruct Hs2 as [|y l2 Hs2 Hy].
    + specialize (Hf (key x)). by rewrite filter_cons_True in Hf.
    + assert (Hxy : key x <= key y).
      { pose proof (Hf (key x)) as Hk. rewrite filter_cons_True in Hk by done.
        rewrite filter_cons in Hk. destruct (decide (key y = key x)); [lia|].
        assert (Hin : x ∈ filter (fun z => key z = key x) l2)
          by (rewrite <- Hk; apply list_elem_of_here).
        apply list_elem_of_filter in Hin as [_ Hin].
        rewrite Forall_forall in Hy. by apply Hy. }
      assert (Hyx : key y <= key x).
      { pose proof (Hf (key y)) as Hk. rewrite (filter_cons_True _ y) in Hk by done.
        rewrite filter_cons in Hk. destruct (decide (key x = key y)); [lia|].
        assert (Hin : y ∈ filter (fun z => key z = key y) l1)
          by (rewrite Hk; apply list_elem_of_here).
        apply list_elem_of_filter in Hin as [_ Hin].
        rewrite Forall_forall in Hx. by apply Hx. }
      assert (Heq : x = y).
      { pose proof (Hf (key x)) as Hk.
        rewrite !filter_cons_True in Hk by lia. by injection Hk. }
      subst y. f_equal. apply IH; [done|]. intros k. specialize (Hf k).
      rewrite !filter_cons in Hf. destruct (decide (key x = k)); [|done].
      by injection Hf.
Qed.

Lemma byDateOrId_coercible (rt : Runtime) (a b : value) :
  coercible a = true -> coercible b = true ->
  ApiService.byDateOrId rt a b =
  if truthy (prop a "date") && truthy (prop b "date")
  then tb ← DateValue rt (prop b "date");
       ta ← DateValue rt (prop a "date");
       mret (num_sub tb ta)
  else nb ← ToNumber rt (prop b "id");
       na ← ToNumber rt (prop a "id");
       mret (num_sub nb na).
Proof.
  intros Ha Hb. unfold ApiService.byDateOrId.
  rewrite !(get_coercible a), !(get_coercible b) by done. rewrite bind_ret.
  destruct (truthy (prop a "date")) eqn:Hda; cbv iota.
  - rewrite bind_ret. destruct (truthy (prop b "date")) eqn:Hdb; cbv iota.
    + rewrite bind_ret. apply bind_ext. intros tb. by rewrite bind_ret.
    + by rewrite !bind_ret.
  - rewrite bind_ret, Hda. cbv iota. by rewrite !bind_ret.
Qed.

Lemma compares_by_date_or_id (rt : Runtime) (key : value -> Z) (l : list value) :
  Forall (fun x => coercible x = true) l ->
  all_dated rt key l \/ none_dated rt key l ->
  compares_by (ApiService.byDateOrId rt) key l.
Proof.
  intros Hco Hkey a b Ha Hb. rewrite Forall_forall in Hco.
  rewrite byDateOrId_coercible by auto.
  destruct Hkey as [Hall|Hnone].
  - unfold all_dated in Hall. rewrite Forall_forall in Hall.
    destruct (Hall a Ha) as [-> ->], (Hall b Hb) as [-> ->]. by rewrite !bind_ret.
  - unfold none_dated in Hnone. rewrite Forall_forall in Hnone.
    destruct (Hnone a Ha) as [-> ->], (Hnone b Hb) as [_ ->]. by rewrite !bind_ret.
Qed.

Lemma slice_nonneg (l : list value) (stop : Z) :
  0 <= stop -> slice l stop = take (Z.to_nat stop) l.
Proof.
  intros Hstop. unfold slice.
  destruct (stop <? 0) eqn:Hneg; [lia|].
  destruct (decide (stop <= Z.of_nat (length l))).
  - by rewrite Z.min_l.
  - rewrite Z.min_r by lia. rewrite Nat2Z.id.
    by rewrite !take_ge by lia.
Qed.

(** The common part of [getPostsByUserId] and [getCommentsByPostId]. *)
Lemma sort_then_slice (rt : Runtime) (key : value -> Z)
    (fetched : list value) (limit : Z) :
  Forall (fun x => coercible x = true) fetched ->
  all_dated rt key fetched \/ none_dated rt key fetched ->
  0 <= limit ->
  exists sorted,
    (sorted' ← Array_sort (ApiService.byDateOrId rt) (VArr fetched);
     mret (slice sorted' limit)) = mret (take (Z.to_nat limit) sorted)
    /\ stable_sorted_desc key fetched sorted.
Proof.
  intros Hco Hkey Hlimit.
  destruct (Array_sort_by_key (ApiService.byDateOrId rt) key fetched)
    as (sorted & Hsort & Hspec); [by apply compares_by_date_or_id|done|].
  exists sorted. split; [|done].
  by rewrite Hsort, bind_ret, slice_nonneg.
Qed.

(** C4, as the code has it.  When every fetched item carries a date, the
    posts of a user are the first [postsPerUser] items of the fetched list
    sorted by descending date; when no item carries a date, they are the
    first [postsPerUser] items of the list sorted by descending id; ties keep
    the fetch order.  The comments of a post are obtained in the same way,
    with [commentsPerPost].  (Two items are compared by date only when both
    carry one, so a list in which only some items carry a date is ordered
    neither by date nor by id.)  The request is made at the URL that holds
    the id the items are fetched for: with an id that does not convert to
    a string, the fetch throws a [TypeError] before any request. *)
Theorem fetched_items_sorted_and_truncated
    (E : Env) (id : value) (key : value -> Z)
    (t : list event) (fetched : list value) :
  Forall (fun x => coercible x = true) fetched ->
  all_dated (runtime E) key fetched \/ none_dated (runtime E) key fetched ->
  (converts id = true ->
   HttpClient.request E (ApiService.postsUrl E id) 0 = (t, Return (VArr fetched)) ->
   0 <= postsPerUser (CONFIG E) ->
   exists t' sorted,
     ApiService.getPostsByUserId E id =
       (t', Return (take (Z.to_nat (postsPerUser (CONFIG E))) sorted))
     /\ stable_sorted_desc key fetched sorted)
  /\ (converts id = true ->
      HttpClient.request E (ApiService.commentsUrl E id) 0 = (t, Return (VArr fetched)) ->
      0 <= commentsPerPost (CONFIG E) ->
      exists t' sorted,
        ApiService.getCommentsByPostId E id =
          (t', Return (take (Z.to_nat (commentsPerPost (CONFIG E))) sorted))
        /\ stable_sorted_desc key fetched sorted)
  /\ (converts id = false ->
      ApiService.getPostsByUserId E id = throw TypeError
      /\ ApiService.getCommentsByPostId E id = throw TypeError).
Proof.
  intros Hco Hkey. split_and!.
  - intros Hid Hreq Hlimit.
    destruct (sort_then_slice (runtime E) key fetched _ Hco Hkey Hlimit)
      as (sorted & Heq & Hspec).
    eexists _, sorted. split; [|done].
    unfold ApiService.getPostsByUserId, Logger.info.
    rewrite ToString_converts, !bind_ret, bind_emit by done.
    fold (ApiService.postsUrl E id).
    rewrite (bind_Return _ _ _ _ Hreq), Heq. simpl.
    by rewrite app_nil_r.
  - intros Hid Hreq Hlimit.
    destruct (sort_then_slice (runtime E) key fetched _ Hco Hkey Hlimit)
      as (sorted & Heq & Hspec).
    eexists _, sorted. split; [|done].
    unfold ApiService.getCommentsByPostId, Logger.info.
    rewrite ToString_converts, !bind_ret, bind_emit by done.
    fold (ApiService.commentsUrl E id).
    rewrite (bind_Return _ _ _ _ Hreq), Heq. simpl.
    by rewrite app_nil_r.
  - intros Hid. unfold ApiService.getPostsByUserId, ApiService.getCommentsByPostId.
    by rewrite ToString_throws.
Qed.

Lemma fetched_items_sorted_and_truncated_witness :
  exists t' sorted,
    ApiService.getPostsByUserId E_dated (VNum 2) = (t', Return (take 5 sorted))
    /\ stable_sorted_desc (date_key example_runtime) dated_posts sorted.
Proof.
  refine (proj1 (fetched_items_sorted_and_truncated E_dated (VNum 2)
            (date_key example_runtime)
            (HttpClient.request E_dated (ApiService.postsUrl E_dated (VNum 2)) 0).1
            dated_posts _ _) _ _ _).
  - repeat constructor.
  - left. repeat constructor.
  - reflexivity.
  - vm_compute. reflexivity.
  - vm_compute. discriminate.
Defined.

(** C4 fails as stated: of three fetched posts with ids 1, 2, 3, of which
    only the first two carry a date, the post without a date comes first and
    the other two follow by descending date, which is ascending id.  The
    comparator orders these three posts consistently, so the result does not
    depend on the sorting algorithm. *)
Lemma mixed_dates_not_sorted_by_id :
  let rt := example_runtime in
  let x := dated_post 1 "a" 30 in
  let y := dated_post 2 "b" 20 in
  let z := post 3 "c" in
  (HttpClient.request E_mixed (ApiService.postsUrl E_mixed (VNum 2)) 0).2
    = Return (VArr [x; y; z])
  /\ Exists (fun p => truthy (prop p "date") = true) [x; y; z]
  /\ Exists (fun p => truthy (prop p "date") = false) [x; y; z]
  /\ (ApiService.getPostsByUserId E_mixed (VNum 2)).2 = Return [z; x; y]
  /\ List.map (id_key rt) [z; x; y] = [3; 1; 2]
  /\ ~ StronglySorted (fun a b => id_key rt b <= id_key rt a) [z; x; y]
  /\ ApiService.byDateOrId rt z x = mret (Num (-2))
  /\ ApiService.byDateOrId rt x z = mret (Num 2)
  /\ ApiService.byDateOrId rt z y = mret (Num (-1))
  /\ ApiService.byDateOrId rt y z = mret (Num 1)
  /\ ApiService.byDateOrId rt x y = mret (Num (-10))
  /\ ApiService.byDateOrId rt y x = mret (Num 10).
Proof.
  cbv zeta. split_and!; try (vm_compute; reflexivity).
  - apply Exists_cons_hd. reflexivity.
  - do 2 apply Exists_cons_tl. apply Exists_cons_hd. reflexivity.
  - intros Hs. apply StronglySorted_inv in Hs as [Hs _].
    apply StronglySorted_inv in Hs as [_ Hall].
    apply Forall_inv in Hall. vm_compute in Hall. by apply Hall.
Qed.

(** ** The loop of [DataProcessor.process] *)

Lemma appends_ret {A : Type} (a : A) : appends (mret a : P A).
Proof. intros s. unfold mret, P_ret. simpl. by rewrite app_nil_r. Qed.

Lemma appends_io {A : Type} (m : IO A) : appends (io m).
Proof. intros s. unfold io. simpl. by rewrite app_nil_r. Qed.

Lemma appends_push (r : FlatRecord) : appends (push r).
Proof. done. Qed.

Lemma appends_bind {A B : Type} (m : P A) (f : A -> P B) :
  appends m -> (forall a, appends (f a)) -> appends (m ≫= f).
Proof.
  intros Hm Hf s. unfold mbind, P_bind. rewrite (Hm s).
  destruct (m []) as [[t d] [a|e]]; simpl; [|done].
  rewrite (Hf a (s ++ d)), (Hf a d).
  destruct (f a []) as [[t' d'] r]. simpl. by rewrite app_assoc.
Qed.

Lemma appends_try_catch {A : Type} (m : P A) (h : exn -> P A) :
  appends m -> (forall e, appends (h e)) -> appends (try_catchP m h).
Proof.
  intros Hm Hh s. unfold try_catchP. rewrite (Hm s).
  destruct (m []) as [[t d] [a|e]]; simpl; [done|].
  rewrite (Hh e (s ++ d)), (Hh e d).
  destruct (h e []) as [[t' d'] r]. simpl. by rewrite app_assoc.
Qed.

Lemma appends_forEach {A : Type} (body : A -> P unit) (l : list A) :
  (forall x, appends (body x)) -> appends (forEach body l).
Proof.
  intros Hbody. induction l as [|x l IH]; simpl.
  - apply appends_ret.
  - apply appends_bind; auto.
Qed.

Ltac appends_tac :=
  repeat first
    [ apply appends_ret | apply appends_io | apply appends_push
    | apply appends_forEach; intros ?
    | apply appends_try_catch; [|intros ?]
    | apply appends_bind; [|intros ?]
    | match goal with |- appends (if ?b then _ else _) => destruct b end
    | match goal with |- appends (let '(_, _) := ?p in _) => destruct p end ].

Lemma appends_pushRecords (user : value) (pc : value * list value) :
  appends (DataProcessor.pushRecords user pc).
Proof. unfold DataProcessor.pushRecords. appends_tac. Qed.

Lemma appends_processPosts (E : Env) (user : value) (posts : list value) :
  appends (processPosts E user posts).
Proof.
  unfold processPosts. appends_tac. apply appends_pushRecords.
Qed.

Lemma appends_processUser (E : Env) (user : value) :
  appends (DataProcessor.processUser E user).
Proof.
  unfold DataProcessor.processUser. appends_tac. apply appends_pushRecords.
Qed.

(** A loop whose body pushes, for each [x], a prefix of [f x], and all of
    [f x] when it does not throw. *)
Lemma forEach_prefix {A : Type} (body : A -> P unit)
    (f : A -> list FlatRecord) (l : list A) :
  (forall x, appends (body x)) ->
  (forall x, (body x []).1.2 `prefix_of` f x) ->
  (forall x, (body x []).2 = Return tt -> (body x []).1.2 = f x) ->
  (forEach body l []).1.2 `prefix_of` flat_map f l
  /\ ((forEach body l []).2 = Return tt -> (forEach body l []).1.2 = flat_map f l).
Proof.
  intros Happ Hpre Heq. induction l as [|x l [IHp IHe]]; simpl.
  - split; [apply prefix_nil|done].
  - unfold mbind, P_bind.
    specialize (Hpre x). specialize (Heq x).
    destruct (body x []) as [[t d] [[]|e]]; simpl in *.
    + rewrite (appends_forEach body l Happ d).
      destruct (forEach body l []) as [[t' d'] r]. simpl in *.
      rewrite Heq by done. split.
      * by apply prefix_app.
      * intros Hr. by rewrite IHe.
    + split; [|done]. by apply prefix_app_r.
Qed.

Lemma bindP_io {A B : Type} (m : IO A) (f : A -> P B) (s : list FlatRecord) :
  (io m ≫= f) s =
  match m.2 with
  | Return a => (m.1 ++ (f a s).1.1, (f a s).1.2, (f a s).2)
  | Throw e => (m.1, s, Throw e)
  end.
Proof.
  unfold mbind, P_bind, io. destruct m as [t [a|e]]; simpl; [|done].
  by destruct (f a s) as [[t' s'] r].
Qed.

(** The seven reads and the push that follow a successful validation. *)
Lemma push_flatRecord (user post comment : value) (s : list FlatRecord) :
  let body : P unit :=
    uid ← io (get user "id");
    uname ← io (get user "name");
    pid ← io (get post "id");
    ptitle ← io (get post "title");
    cid ← io (get comment "id");
    cbody ← io (get comment "body");
    cemail ← io (get comment "email");
    push {| userId := uid; userName := uname;
            postId := pid; postTitle := ptitle;
            commentId := cid; commentBody := cbody;
            commentEmail := cemail |} in
  body s =
  if coercible user && coercible post && coercible comment
  then ([], s ++ [flatRecord user post comment], Return tt)
  else ([], s, Throw TypeError).
Proof.
  cbv zeta.
  destruct (coercible user) eqn:Hu;
    [rewrite !(get_coercible user) by done
    |rewrite !(get_nullish (o:=user)) by done; by rewrite bindP_io].
  destruct (coercible post) eqn:Hp;
    [rewrite !(get_coercible post) by done
    |rewrite !(get_nullish (o:=post)) by done; by rewrite !bindP_io].
  destruct (coercible comment) eqn:Hc;
    [rewrite !(get_coercible comment) by done
    |rewrite !(get_nullish (o:=comment)) by done; by rewrite !bindP_io].
  by rewrite !bindP_io.
Qed.

Lemma flat_map_row_of (user post : value) (comments : list value) :
  flat_map (row_of user post) comments =
  List.map (flatRecord user post) (List.filter validComment comments).
Proof.
  induction comments as [|c l IH]; [done|]. simpl. unfold row_of at 1.
  destruct (validComment c); simpl; by rewrite IH.
Qed.

(** The callback of [comments.forEach] pushes the row of a valid comment. *)
Lemma push_comment (user post comment : value) :
  let body : P unit :=
    valid ← io (DataValidator.validateComment comment);
    if valid : bool then
      uid ← io (get user "id");
      uname ← io (get user "name");
      pid ← io (get post "id");
      ptitle ← io (get post "title");
      cid ← io (get comment "id");
      cbody ← io (get comment "body");
      cemail ← io (get comment "email");
      push {| userId := uid; userName := uname;
              postId := pid; postTitle := ptitle;
              commentId := cid; commentBody := cbody;
              commentEmail := cemail |}
    else mret tt in
  (body []).1.2 `prefix_of` row_of user post comment
  /\ ((body []).2 = Return tt -> (body []).1.2 = row_of user post comment).
Proof.
  cbv zeta. rewrite bindP_io. unfold row_of, validComment.
  destruct (DataValidator.validateComment comment) as [t [[]|e]]; simpl.
  - rewrite push_flatRecord.
    destruct (coercible user && coercible post && coercible comment); simpl.
    + done.
    + split; [apply prefix_nil|done].
  - done.
  - done.
Qed.

Lemma pushRecords_prefix (user : value) (pc : value * list value) :
  (DataProcessor.pushRecords user pc []).1.2 `prefix_of` rows_of user pc
  /\ ((DataProcessor.pushRecords user pc []).2 = Return tt ->
      (DataProcessor.pushRecords user pc []).1.2 = rows_of user pc).
Proof.
  destruct pc as [post comments]. unfold DataProcessor.pushRecords, rows_of.
  simpl. rewrite <- flat_map_row_of.
  apply forEach_prefix.
  - intros c. appends_tac.
  - intros c. apply (push_comment user post c).
  - intros c. apply (push_comment user post c).
Qed.

Lemma forEach_pushRecords_prefix (user : value) (pcs : list (value * list value)) :
  (forEach (DataProcessor.pushRecords user) pcs []).1.2
    `prefix_of` flat_map (rows_of user) pcs
  /\ ((forEach (DataProcessor.pushRecords user) pcs []).2 = Return tt ->
      (forEach (DataProcessor.pushRecords user) pcs []).1.2
      = flat_map (rows_of user) pcs).
Proof.
  apply forEach_prefix.
  - apply appends_pushRecords.
  - apply pushRecords_prefix.
  - apply pushRecords_prefix.
Qed.

(** *** Validation of what cannot be read *)

Lemma missingFields_nullish (f : string) (required : list string) (entity : value) :
  coercible entity = false ->
  DataValidator.missingFields (f :: required) entity = throw TypeError.
Proof.
  intros Hc. unfold DataValidator.missingFields. cbn [filterM].
  by rewrite get_nullish.
Qed.

Lemma validateUser_nullish (user : value) :
  coercible user = false -> DataValidator.validateUser user = throw TypeError.
Proof.
  intros Hc. unfold DataValidator.validateUser. cbv zeta.
  by rewrite missingFields_nullish.
Qed.

Lemma validatePost_nullish (post : value) :
  coercible post = false -> DataValidator.validatePost post = throw TypeError.
Proof.
  intros Hc. unfold DataValidator.validatePost. cbv zeta.
  by rewrite missingFields_nullish.
Qed.

Lemma validateComment_nullish (comment : value) :
  coercible comment = false -> DataValidator.validateComment comment = throw TypeError.
Proof.
  intros Hc. unfold DataValidator.validateComment. cbv zeta.
  by rewrite missingFields_nullish.
Qed.

Lemma validateUser_coercible (user : value) :
  coercible user = true ->
  DataValidator.validateUser user =
  ((DataValidator.validateUser user).1, Return (validUser user)).
Proof.
  intros Hc. unfold validUser, DataValidator.validateUser. cbv zeta.
  by rewrite (validate_shape _ _ InvalidUser _ Hc).
Qed.

(** A valid entity is one that can be read, and its validation logs
    nothing. *)
Lemma validUser_coercible (user : value) :
  validUser user = true -> coercible user = true.
Proof.
  unfold validUser. destruct (coercible user) eqn:Hc; [done|].
  by rewrite validateUser_nullish.
Qed.

Lemma validateUser_valid (user : value) :
  validUser user = true -> DataValidator.validateUser user = mret true.
Proof.
  intros Hv. pose proof (validUser_coercible user Hv) as Hc. revert Hv.
  unfold validUser, DataValidator.validateUser. cbv zeta.
  rewrite (validate_shape _ _ InvalidUser _ Hc).
  by destruct (0 <? _)%nat.
Qed.

Lemma validatePost_coercible (post : value) :
  coercible post = true ->
  DataValidator.validatePost post =
  ((DataValidator.validatePost post).1, Return (validPost post)).
Proof.
  intros Hc. unfold validPost, DataValidator.validatePost. cbv zeta.
  by rewrite (validate_shape _ _ InvalidPost _ Hc).
Qed.

Lemma validPost_coercible (post : value) :
  validPost post = true -> coercible post = true.
Proof.
  unfold validPost. destruct (coercible post) eqn:Hc; [done|].
  by rewrite validatePost_nullish.
Qed.

Lemma validatePost_valid (post : value) :
  validPost post = true -> DataValidator.validatePost post = mret true.
Proof.
  intros Hv. pose proof (validPost_coercible post Hv) as Hc. revert Hv.
  unfold validPost, DataValidator.validatePost. cbv zeta.
  rewrite (validate_shape _ _ InvalidPost _ Hc).
  by destruct (0 <? _)%nat.
Qed.

Lemma validComment_coercible (comment : value) :
  validComment comment = true -> coercible comment = true.
Proof.
  unfold validComment. destruct (coercible comment) eqn:Hc; [done|].
  by rewrite validateComment_nullish.
Qed.

(** *** The two fetches *)

(** With an id that converts to a string, a fetch logs, requests, sorts and
    slices; with any other id it throws before it logs. *)
Lemma getPostsByUserId_converts (E : Env) (id : value) :
  converts id = true ->
  ApiService.getPostsByUserId E id =
  (Logger.info (FetchingPosts (to_string (runtime E) id));;
   posts ← HttpClient.request E (ApiService.postsUrl E id) 0;
   sortedPosts ← Array_sort (ApiService.byDateOrId (runtime E)) posts;
   mret (slice sortedPosts (postsPerUser (CONFIG E)))).
Proof.
  intros Hid. unfold ApiService.getPostsByUserId.
  rewrite ToString_converts, bind_ret by done.
  apply bind_ext. intros _. by rewrite bind_ret.
Qed.

Lemma getCommentsByPostId_converts (E : Env) (id : value) :
  converts id = true ->
  ApiService.getCommentsByPostId E id =
  (Logger.info (FetchingComments (to_string (runtime E) id));;
   comments ← HttpClient.request E (ApiService.commentsUrl E id) 0;
   sortedComments ← Array_sort (ApiService.byDateOrId (runtime E)) comments;
   mret (slice sortedComments (commentsPerPost (CONFIG E)))).
Proof.
  intros Hid. unfold ApiService.getCommentsByPostId.
  rewrite ToString_converts, bind_ret by done.
  apply bind_ext. intros _. by rewrite bind_ret.
Qed.

Lemma getPostsByUserId_throws (E : Env) (id : value) :
  converts id = false -> ApiService.getPostsByUserId E id = throw TypeError.
Proof.
  intros Hid. unfold ApiService.getPostsByUserId. by rewrite ToString_throws.
Qed.

Lemma getCommentsByPostId_throws (E : Env) (id : value) :
  converts id = false -> ApiService.getCommentsByPostId E id = throw TypeError.
Proof.
  intros Hid. unfold ApiService.getCommentsByPostId. by rewrite ToString_throws.
Qed.

Lemma getPostsByUserId_returns (E : Env) (id : value) t posts :
  ApiService.getPostsByUserId E id = (t, Return posts) -> converts id = true.
Proof.
  destruct (converts id) eqn:Hid; [done|]. by rewrite getPostsByUserId_throws.
Qed.

Lemma getCommentsByPostId_returns (E : Env) (id : value) t comments :
  ApiService.getCommentsByPostId E id = (t, Return comments) -> converts id = true.
Proof.
  destruct (converts id) eqn:Hid; [done|]. by rewrite getCommentsByPostId_throws.
Qed.

(** *** The task of a post *)

(** [fetchComments] on a post whose task resolves: it resolves with the
    post itself and the comments fetched, none if the post is invalid or the
    fetch throws. *)
Lemma fetchComments_resolves (E : Env) (post : value) :
  resolves post = true ->
  DataProcessor.fetchComments E post =
  ((DataValidator.validatePost post).1 ++
     (if validPost post then
        (ApiService.getCommentsByPostId E (prop post "id")).1 ++
        match (ApiService.getCommentsByPostId E (prop post "id")).2 with
        | Return _ => []
        | Throw e =>
            error_lines (FailedComments (to_string (runtime E) (prop post "id"))) e
        end
      else []),
   Return (post, if validPost post then fetched_comments E post else [])).
Proof.
  unfold resolves. intros [Hc Hid]%andb_true_iff.
  unfold DataProcessor.fetchComments, fetched_comments.
  rewrite (validatePost_coercible post Hc) at 1.
  rewrite bind_unfold. cbn [fst snd].
  destruct (validPost post); simpl in *; [|done].
  rewrite !get_coercible, !bind_ret by done.
  destruct (ApiService.getCommentsByPostId E (prop post "id")) as [t [cs|e]]; simpl.
  - done.
  - by rewrite ToString_converts, bind_ret.
Qed.

Lemma fetchComments_nullish (E : Env) (post : value) :
  coercible post = false ->
  DataProcessor.fetchComments E post = throw TypeError.
Proof.
  intros Hc. unfold DataProcessor.fetchComments.
  by rewrite validatePost_nullish.
Qed.

(** The task of a valid post whose id does not convert: the fetch throws
    when it builds its log line, and the handler throws when it builds
    its own. *)
Lemma fetchComments_unconvertible (E : Env) (post : value) :
  validPost post = true -> converts (prop post "id") = false ->
  DataProcessor.fetchComments E post = throw TypeError.
Proof.
  intros Hv Hid. pose proof (validPost_coercible post Hv) as Hc.
  unfold DataProcessor.fetchComments.
  rewrite validatePost_valid, bind_ret by done. cbn [negb].
  rewrite !get_coercible, !bind_ret by done.
  rewrite getCommentsByPostId_throws by done.
  rewrite bind_throw. unfold try_catch, throw.
  by rewrite bind_ret, ToString_throws.
Qed.

Lemma fetchComments_rejects (E : Env) (post : value) :
  resolves post = false ->
  DataProcessor.fetchComments E post = throw TypeError.
Proof.
  unfold resolves. destruct (coercible post) eqn:Hc; simpl.
  - intros [Hv Hid]%orb_false_iff. apply negb_false_iff in Hv.
    by apply fetchComments_unconvertible.
  - intros _. by apply fetchComments_nullish.
Qed.

(** A task of [posts.map] rejects with a [TypeError] only. *)
Lemma fetchComments_rejects_with_TypeError (E : Env) (post : value) (e : exn) :
  (DataProcessor.fetchComments E post).2 = Throw e -> e = TypeError.
Proof.
  destruct (resolves post) eqn:Hr.
  - by rewrite fetchComments_resolves.
  - rewrite fetchComments_rejects by done. by intros [= <-].
Qed.

Lemma commentsFor_eq (E : Env) (post : value) :
  commentsFor E post = if validPost post then fetched_comments E post else [].
Proof.
  unfold commentsFor. destruct (resolves post) eqn:Hr.
  - by rewrite fetchComments_resolves.
  - rewrite fetchComments_rejects by done. simpl.
    destruct (validPost post) eqn:Hv; [|done].
    unfold resolves in Hr. rewrite validPost_coercible, Hv in Hr by done.
    simpl in Hr. unfold fetched_comments.
    by rewrite getCommentsByPostId_throws.
Qed.

(** *** [Promise.all] over the posts of a user *)

Lemma Promise_all_trace {A : Type} (tasks : list (IO A)) :
  flatten (Promise_all tasks).1 = flat_map (fun task => flatten task.1) tasks.
Proof.
  unfold Promise_all. cbn [fst]. rewrite flatten_tasks, List.map_map.
  by rewrite flat_map_concat_map.
Qed.

Lemma Promise_all_fetchComments (E : Env) (posts : list value) :
  (Promise_all (List.map (DataProcessor.fetchComments E) posts)).2 =
  if forallb resolves posts
  then Return (List.map (fun p => (p, commentsFor E p)) posts)
  else Throw TypeError.
Proof.
  unfold Promise_all. cbn [snd].
  induction posts as [|p posts IH]; [done|]. cbn [List.map settle forallb].
  rewrite IH. destruct (resolves p) eqn:Hr; simpl.
  - rewrite commentsFor_eq, fetchComments_resolves by done. simpl.
    by destruct (forallb resolves posts).
  - by rewrite fetchComments_rejects.
Qed.

Lemma flat_map_rows_of (E : Env) (user : value) (posts : list value) :
  flat_map (rows_of user) (List.map (fun p => (p, commentsFor E p)) posts)
  = rows E user posts.
Proof. unfold rows. by rewrite flat_map_concat_map, map_map, <- flat_map_concat_map. Qed.

(** What is pushed from a list of posts is a prefix of its rows. *)
Lemma records_of_posts_prefix (E : Env) (user : value) (posts : list value) :
  records_of_posts E user posts `prefix_of` rows E user posts.
Proof.
  unfold records_of_posts, processPosts. rewrite bindP_io.
  rewrite Promise_all_fetchComments.
  destruct (forallb resolves posts); simpl; [|apply prefix_nil].
  rewrite <- flat_map_rows_of. apply forEach_pushRecords_prefix.
Qed.

(** *** The body of the loop over the users *)

Lemma processUser_nullish (E : Env) (user : value) (s : list FlatRecord) :
  coercible user = false ->
  DataProcessor.processUser E user s = ([], s, Throw TypeError).
Proof.
  intros Hc. unfold DataProcessor.processUser.
  by rewrite bindP_io, validateUser_nullish.
Qed.

Lemma processUser_invalid (E : Env) (user : value) (s : list FlatRecord) :
  coercible user = true -> validUser user = false ->
  DataProcessor.processUser E user s =
  ((DataValidator.validateUser user).1, s, Return tt).
Proof.
  intros Hc Hv. unfold DataProcessor.processUser.
  rewrite bindP_io, validateUser_coercible, Hv by done. simpl.
  by rewrite app_nil_r.
Qed.

(** A valid user whose posts cannot be fetched: the failure is logged, and
    the loop body returns without a push. *)
Lemma processUser_fetch_fails (E : Env) (user : value) (s : list FlatRecord)
    (t : list event) (e : exn) :
  validUser user = true -> converts (prop user "id") = true ->
  ApiService.getPostsByUserId E (prop user "id") = (t, Throw e) ->
  DataProcessor.processUser E user s =
  (t ++ error_lines (FailedUser (to_string (runtime E) (prop user "id"))) e,
   s, Return tt).
Proof.
  intros Hv Hid Hposts. pose proof (validUser_coercible user Hv) as Hc.
  unfold DataProcessor.processUser.
  rewrite bindP_io, validateUser_valid by done. cbn [fst snd negb mret IO_ret app].
  unfold try_catchP. rewrite !(get_coercible user) by done.
  rewrite !bindP_io. cbn [fst snd mret IO_ret]. rewrite bindP_io, Hposts.
  cbn [fst snd app]. rewrite !bindP_io. cbn [fst snd mret IO_ret app].
  by rewrite ToString_converts.
Qed.

(** A valid user whose posts are fetched: the loop body pushes what
    [processPosts] pushes, and returns even if [processPosts] throws. *)
Lemma processUser_fetched (E : Env) (user : value) (s : list FlatRecord)
    (t : list event) (posts : list value) :
  validUser user = true ->
  ApiService.getPostsByUserId E (prop user "id") = (t, Return posts) ->
  DataProcessor.processUser E user s =
  (t ++ (processPosts E user posts s).1.1 ++
     match (processPosts E user posts s).2 with
     | Return _ => []
     | Throw e => error_lines (FailedUser (to_string (runtime E) (prop user "id"))) e
     end,
   (processPosts E user posts s).1.2, Return tt).
Proof.
  intros Hv Hposts. pose proof (validUser_coercible user Hv) as Hc.
  pose proof (getPostsByUserId_returns _ _ _ _ Hposts) as Hid.
  unfold DataProcessor.processUser.
  rewrite bindP_io, validateUser_valid by done. cbn [fst snd negb mret IO_ret app].
  unfold try_catchP. rewrite !(get_coercible user) by done.
  rewrite !bindP_io. cbn [fst snd mret IO_ret]. rewrite bindP_io, Hposts.
  cbn [fst snd]. fold (processPosts E user posts).
  destruct (processPosts E user posts s) as [[t' s'] [[]|e]]; cbn [fst snd app].
  - by rewrite !app_nil_r.
  - rewrite !bindP_io. cbn [fst snd mret IO_ret app].
    rewrite ToString_converts by done. cbn [fst snd]. by rewrite <- app_assoc.
Qed.

(** A valid user whose id does not convert to a string: the fetch throws
    when it builds its log line, and so does the handler of the loop
    body. *)
Lemma processUser_unconvertible (E : Env) (user : value) (s : list FlatRecord) :
  validUser user = true -> converts (prop user "id") = false ->
  DataProcessor.processUser E user s = ([], s, Throw TypeError).
Proof.
  intros Hv Hid. pose proof (validUser_coercible user Hv) as Hc.
  unfold DataProcessor.processUser.
  rewrite bindP_io, validateUser_valid by done. cbn [fst snd negb mret IO_ret app].
  unfold try_catchP. rewrite !(get_coercible user) by done.
  rewrite !bindP_io. cbn [fst snd mret IO_ret]. rewrite bindP_io.
  rewrite getPostsByUserId_throws by done. cbn [fst snd throw app].
  rewrite !bindP_io. cbn [fst snd mret IO_ret app].
  by rewrite ToString_throws.
Qed.

(** The loop body returns on every user that the filter lets through. *)
Lemma processUser_returns (E : Env) (user : value) (s : list FlatRecord) :
  testable user = true -> (DataProcessor.processUser E user s).2 = Return tt.
Proof.
  unfold testable. intros [Hc Hid]%andb_true_iff. destruct (validUser user) eqn:Hv.
  - destruct (ApiService.getPostsByUserId E (prop user "id")) as [t [posts|e]] eqn:Hp.
    + by rewrite (processUser_fetched E user s t posts).
    + by rewrite (processUser_fetch_fails E user s t e).
  - by rewrite processUser_invalid.
Qed.

Lemma processUser_state (E : Env) (user : value) (s : list FlatRecord) :
  (DataProcessor.processUser E user s).1.2 = s ++ contribution E user.
Proof. by rewrite (appends_processUser E user s). Qed.

Lemma records_of_posts_nil (E : Env) (user : value) :
  records_of_posts E user [] = [].
Proof. done. Qed.

(** What a user contributes: nothing if invalid, else what is pushed from
    the posts fetched. *)
Lemma contribution_eq (E : Env) (user : value) :
  contribution E user =
  if validUser user then records_of_posts E user (postsFor E user) else [].
Proof.
  unfold contribution, postsFor, records_of_posts.
  destruct (coercible user) eqn:Hc.
  - destruct (validUser user) eqn:Hv.
    + destruct (converts (prop user "id")) eqn:Hid.
      * destruct (ApiService.getPostsByUserId E (prop user "id"))
          as [t [posts|e]] eqn:Hp.
        -- by rewrite (processUser_fetched E user [] t posts).
        -- by rewrite (processUser_fetch_fails E user [] t e).
      * rewrite processUser_unconvertible, getPostsByUserId_throws by done. done.
    + by rewrite processUser_invalid.
  - rewrite processUser_nullish by done. unfold validUser.
    by rewrite validateUser_nullish.
Qed.

Lemma contribution_prefix (E : Env) (user : value) :
  contribution E user `prefix_of` rows E user (postsFor E user).
Proof.
  rewrite contribution_eq. destruct (validUser user); [|apply prefix_nil].
  apply records_of_posts_prefix.
Qed.

(** *** The loop over the users *)

Lemma forEach_processUser (E : Env) (users : list value) (s : list FlatRecord) :
  Forall (fun u => testable u = true) users ->
  (forEach (DataProcessor.processUser E) users s).1.2
    = s ++ flat_map (contribution E) users
  /\ (forEach (DataProcessor.processUser E) users s).2 = Return tt.
Proof.
  intros Hco. revert s. induction Hco as [|u users Hu _ IH]; intros s.
  - simpl. by rewrite app_nil_r.
  - cbn [forEach flat_map]. unfold mbind, P_bind.
    pose proof (processUser_returns E u s Hu) as Hr.
    pose proof (processUser_state E u s) as Hs.
    destruct (DataProcessor.processUser E u s) as [[t s'] r].
    simpl in Hr, Hs. subst r s'.
    destruct (IH (s ++ contribution E u)) as [IHs IHr].
    destruct (forEach _ users _) as [[t' s''] r']. simpl in *.
    by rewrite IHs, app_assoc.
Qed.

Lemma testable_coercible (user : value) :
  testable user = true -> coercible user = true.
Proof. unfold testable. by intros [? ?]%andb_true_iff. Qed.

Lemma testable_converts (user : value) :
  testable user = true -> converts (prop user "id") = true.
Proof. unfold testable. by intros [? ?]%andb_true_iff. Qed.

Lemma hasEvenId_testable (rt : Runtime) (user : value) :
  testable user = true ->
  DataProcessor.hasEvenId rt user = mret (evenId rt user).
Proof.
  unfold testable. intros [Hc Hid]%andb_true_iff.
  unfold evenId, DataProcessor.hasEvenId.
  by rewrite get_coercible, bind_ret, ToNumber_converts, bind_ret.
Qed.

Lemma hasEvenId_throws (rt : Runtime) (user : value) :
  testable user = false ->
  DataProcessor.hasEvenId rt user = throw TypeError.
Proof.
  unfold testable, DataProcessor.hasEvenId. destruct (coercible user) eqn:Hc; simpl.
  - intros Hid. by rewrite get_coercible, bind_ret, ToNumber_throws.
  - intros _. by rewrite get_nullish.
Qed.

(** The test of the filter on a user whose id converts. *)
Lemma evenId_eq (rt : Runtime) (user : value) :
  testable user = true ->
  evenId rt user = num_is_zero (num_rem (to_number rt (prop user "id")) 2).
Proof.
  unfold testable. intros [Hc Hid]%andb_true_iff.
  unfold evenId, DataProcessor.hasEvenId.
  by rewrite get_coercible, bind_ret, ToNumber_converts, bind_ret.
Qed.

Lemma evenId_testable (rt : Runtime) (user : value) :
  evenId rt user = true -> testable user = true.
Proof.
  unfold evenId. destruct (testable user) eqn:Ht; [done|].
  by rewrite hasEvenId_throws.
Qed.

(** [users.filter(user => user.id % 2 === 0)]: the users with an even id, or
    a [TypeError] when the test throws on an element of the array. *)
Lemma filterM_hasEvenId (rt : Runtime) (users : list value) :
  filterM (DataProcessor.hasEvenId rt) users =
  if forallb testable users
  then mret (List.filter (evenId rt) users)
  else throw TypeError.
Proof.
  induction users as [|u users IH]; [done|]. cbn [filterM forallb List.filter].
  destruct (testable u) eqn:Hc; simpl.
  - rewrite hasEvenId_testable, bind_ret, IH by done.
    destruct (forallb testable users); [|done].
    by rewrite bind_ret.
  - by rewrite hasEvenId_throws.
Qed.

Lemma forallb_coercible (l : list value) :
  forallb coercible l = true <-> Forall (fun u => coercible u = true) l.
Proof. by rewrite forallb_forall, Forall_forall; setoid_rewrite list_elem_of_In. Qed.

Lemma forallb_testable (l : list value) :
  forallb testable l = true <-> Forall (fun u => testable u = true) l.
Proof. by rewrite forallb_forall, Forall_forall; setoid_rewrite list_elem_of_In. Qed.

Lemma Forall_coercible_filter (p : value -> bool) (l : list value) :
  Forall (fun u => coercible u = true) l ->
  Forall (fun u => coercible u = true) (List.filter p l).
Proof.
  rewrite !Forall_forall. intros H u Hu%list_elem_of_In%filter_In.
  apply H, list_elem_of_In, Hu.
Qed.

Lemma Forall_testable_filter (p : value -> bool) (l : list value) :
  Forall (fun u => testable u = true) l ->
  Forall (fun u => testable u = true) (List.filter p l).
Proof.
  rewrite !Forall_forall. intros H u Hu%list_elem_of_In%filter_In.
  apply H, list_elem_of_In, Hu.
Qed.

(** [allRecords] after the loop: the contributions of the users with an even
    id, in the order of the fetched list. *)
Lemma records_from_eq (E : Env) (users : list value) :
  records_from E users =
  if forallb testable users
  then flat_map (contribution E) (List.filter (evenId (runtime E)) users)
  else [].
Proof.
  unfold records_from. rewrite filterM_hasEvenId.
  destruct (forallb testable users) eqn:Hco; [|done]. simpl.
  apply forallb_testable in Hco.
  by destruct (forEach_processUser E _ []
                (Forall_testable_filter (evenId (runtime E)) _ Hco)) as [-> _].
Qed.

Lemma countable_array (users : list value) : countable (VArr users) = true.
Proof. done. Qed.

Lemma getUsers_eq (E : Env) :
  ApiService.getUsers E =
  let r := HttpClient.request E (ApiService.usersUrl E) 0 in
  (ELog Info FetchingUsers :: r.1 ++
     match r.2 with
     | Return users =>
         if countable users
         then [ELog Info (FetchedUsers (to_string (runtime E) (prop users "length")))]
         else []
     | Throw _ => []
     end,
   match r.2 with
   | Return users => if countable users then Return users else Throw TypeError
   | Throw e => Throw e
   end).
Proof.
  unfold ApiService.getUsers, Logger.info. rewrite bind_emit, bind_unfold.
  destruct (HttpClient.request _ _ _) as [t [users|e]]; simpl; [|by rewrite app_nil_r].
  unfold countable. destruct (coercible users) eqn:Hc; simpl.
  - rewrite get_coercible, bind_ret by done.
    destruct (converts (prop users "length")) eqn:Hl.
    + by rewrite ToString_converts, bind_ret.
    + by rewrite ToString_throws.
  - by rewrite get_nullish.
Qed.

(** The outcome of the run up to the end of the loop. *)
Lemma collect_outcome (E : Env) :
  (collect E).2 =
  match (HttpClient.request E (ApiService.usersUrl E) 0).2 with
  | Return (VArr users) =>
      if forallb testable users then Return (records_from E users)
      else Throw TypeError
  | Return _ => Throw TypeError
  | Throw e => Throw e
  end.
Proof.
  unfold collect, Logger.info. rewrite bind_emit. cbn [snd].
  rewrite bind_unfold, getUsers_eq. cbn [fst snd].
  destruct (HttpClient.request _ _ _) as [t [users|e]]; simpl; [|done].
  destruct (countable users) eqn:Hcount; [|by destruct users].
  destruct users as [| | | | |users|]; simpl; try done.
  rewrite records_from_eq, filterM_hasEvenId.
  destruct (forallb testable users) eqn:Hco; [|done]. simpl.
  apply forallb_testable in Hco.
  unfold with_allRecords.
  destruct (forEach_processUser E _ [] (Forall_testable_filter
              (evenId (runtime E)) _ Hco)) as [Hs Hr].
  destruct (forEach _ _ _) as [[t' s'] r']. simpl in *. by subst.
Qed.

Lemma output_eq (E : Env) :
  output E =
  match (HttpClient.request E (ApiService.usersUrl E) 0).2 with
  | Return (VArr users) => records_from E users
  | _ => []
  end.
Proof.
  unfold output. pose proof (collect_outcome E) as H.
  destruct (collect E) as [t r]. simpl in H. subst r.
  destruct (HttpClient.request _ _ _) as [t' [users|e]]; simpl; [|done].
  destruct users as [| | | | |users|]; try done.
  rewrite records_from_eq. by destruct (forallb testable users).
Qed.

(** ** Where fetched items come from *)

(** A request that returns a body returns the body of one of its attempts. *)
Lemma request_Return (E : Env) (url : string) (retries : nat)
    (t : list event) (data : value) :
  HttpClient.request E url retries = (t, Return data) ->
  exists k, (retries <= k)%nat /\ axios_get E url k = inr data.
Proof.
  remember (Z.to_nat (maxRetries (CONFIG E) - Z.of_nat retries)) as m eqn:Hm.
  revert retries t Hm.
  induction m as [m IH] using lt_wf_ind. intros retries t Hm.
  rewrite HttpClient.request_equation_1. unfold Logger.info, Logger.warn, Logger.error.
  rewrite !bind_emit.
  destruct (axios_get E url retries) as [err|body] eqn:Hget.
  - destruct (decide _) as [Hlt|Hge]; [|done].
    cbn zeta. simpl.
    destruct (HttpClient.request E url (S retries)) as [t' r'] eqn:Hrec.
    simpl. intros [= _ ->].
    destruct (IH (Z.to_nat (maxRetries (CONFIG E) - Z.of_nat (S retries)))
                ltac:(lia) (S retries) t' eq_refl Hrec) as (k & Hk & Hbody).
    exists k. split; [lia|done].
  - simpl. intros [= _ ->]. by exists retries.
Qed.

Lemma sort_insert_Permutation (comparefn : value -> value -> IO number)
    (x : value) (sorted sorted' : list value) (t : list event) :
  sort_insert comparefn x sorted = (t, Return sorted') ->
  sorted' ≡ₚ x :: sorted.
Proof.
  revert sorted' t. induction sorted as [|y rest IH]; intros sorted' t.
  - by intros [= _ <-].
  - cbn [sort_insert]. intros (t1 & c & t2 & _ & Hc & _)%bind_inv_Return.
    destruct c.
    + apply bind_inv_Return in Hc as (t3 & rest' & t4 & Hrest & [= _ <-] & _).
      rewrite (IH _ _ Hrest). apply perm_swap.
    + by injection Hc as _ <-.
    + apply bind_inv_Return in Hc as (t3 & rest' & t4 & Hrest & [= _ <-] & _).
      rewrite (IH _ _ Hrest). apply perm_swap.
Qed.

Lemma sort_from_Permutation (comparefn : value -> value -> IO number)
    (sorted l sorted' : list value) (t : list event) :
  sort_from comparefn sorted l = (t, Return sorted') ->
  sorted' ≡ₚ sorted ++ l.
Proof.
  revert sorted sorted' t. induction l as [|x l IH]; intros sorted sorted' t.
  - intros [= _ <-]. by rewrite app_nil_r.
  - cbn [sort_from]. intros (t1 & s1 & t2 & Hins & Hrest & _)%bind_inv_Return.
    rewrite (IH _ _ _ Hrest), (sort_insert_Permutation _ _ _ _ _ Hins).
    by rewrite <- Permutation_middle.
Qed.

(** Whatever the comparator, a sort that returns has rearranged an array. *)
Lemma Array_sort_Permutation (comparefn : value -> value -> IO number)
    (arr : value) (sorted : list value) (t : list event) :
  Array_sort comparefn arr = (t, Return sorted) ->
  exists items, arr = VArr items /\ sorted ≡ₚ items.
Proof.
  destruct arr as [| | | | |items|]; try done. simpl.
  intros Hs%sort_from_Permutation. by exists items.
Qed.

Lemma slice_subseteq (l : list value) (stop : Z) : slice l stop ⊆ l.
Proof. unfold slice. apply subseteq_take. Qed.

Lemma slice_length (l : list value) (stop : Z) :
  0 <= stop -> (length (slice l stop) <= Z.to_nat stop)%nat.
Proof.
  intros Hstop. rewrite slice_nonneg by done. rewrite length_take. lia.
Qed.

(** The items a fetch returns were in the array of one attempt. *)
Lemma sorted_slice_fetched (E : Env) (url : string) (limit : Z)
    (t : list event) (items : list value) :
  (data ← HttpClient.request E url 0;
   sorted ← Array_sort (ApiService.byDateOrId (runtime E)) data;
   mret (slice sorted limit)) = (t, Return items) ->
  exists k fetched,
    axios_get E url k = inr (VArr fetched)
    /\ items ⊆ fetched
    /\ (0 <= limit -> (length items <= Z.to_nat limit)%nat).
Proof.
  intros (t1 & data & t2 & Hreq & Hrest & _)%bind_inv_Return.
  apply bind_inv_Return in Hrest as (t3 & sorted & t4 & Hsort & [= _ <-] & _).
  apply request_Return in Hreq as (k & _ & Hk).
  apply Array_sort_Permutation in Hsort as (fetched & -> & Hperm).
  exists k, fetched. split_and!; [done| |by apply slice_length].
  intros x Hx%slice_subseteq. by rewrite <- Hperm.
Qed.

Lemma getPostsByUserId_fetched (E : Env) (id : value)
    (t : list event) (posts : list value) :
  ApiService.getPostsByUserId E id = (t, Return posts) ->
  exists k fetched,
    axios_get E (ApiService.postsUrl E id) k = inr (VArr fetched)
    /\ posts ⊆ fetched
    /\ (0 <= postsPerUser (CONFIG E) ->
        (length posts <= Z.to_nat (postsPerUser (CONFIG E)))%nat).
Proof.
  intros Hposts. pose proof (getPostsByUserId_returns _ _ _ _ Hposts) as Hid.
  revert Hposts. rewrite getPostsByUserId_converts by done.
  unfold Logger.info. rewrite bind_emit.
  destruct (_ ≫= _) as [t' r] eqn:Hrest. simpl. intros [= _ ->].
  by apply sorted_slice_fetched in Hrest.
Qed.

Lemma getCommentsByPostId_fetched (E : Env) (id : value)
    (t : list event) (comments : list value) :
  ApiService.getCommentsByPostId E id = (t, Return comments) ->
  exists k fetched,
    axios_get E (ApiService.commentsUrl E id) k = inr (VArr fetched)
    /\ comments ⊆ fetched
    /\ (0 <= commentsPerPost (CONFIG E) ->
        (length comments <= Z.to_nat (commentsPerPost (CONFIG E)))%nat).
Proof.
  intros Hcs. pose proof (getCommentsByPostId_returns _ _ _ _ Hcs) as Hid.
  revert Hcs. rewrite getCommentsByPostId_converts by done.
  unfold Logger.info. rewrite bind_emit.
  destruct (_ ≫= _) as [t' r] eqn:Hrest. simpl. intros [= _ ->].
  by apply sorted_slice_fetched in Hrest.
Qed.

Lemma postsFor_fetched (E : Env) (user post : value) :
  post ∈ postsFor E user ->
  exists t posts k fetched,
    ApiService.getPostsByUserId E (prop user "id") = (t, Return posts)
    /\ post ∈ posts
    /\ axios_get E (ApiService.postsUrl E (prop user "id")) k = inr (VArr fetched)
    /\ post ∈ fetched.
Proof.
  unfold postsFor.
  destruct (ApiService.getPostsByUserId E (prop user "id")) as [t [posts|e]] eqn:Hp;
    [|by intros ?%elem_of_nil].
  intros Hin. destruct (getPostsByUserId_fetched _ _ _ _ Hp) as (k & fetched & Hk & Hsub & _).
  exists t, posts, k, fetched. auto.
Qed.

Lemma fetched_comments_fetched (E : Env) (post comment : value) :
  comment ∈ fetched_comments E post ->
  exists t comments k fetched,
    ApiService.getCommentsByPostId E (prop post "id") = (t, Return comments)
    /\ comment ∈ comments
    /\ axios_get E (ApiService.commentsUrl E (prop post "id")) k = inr (VArr fetched)
    /\ comment ∈ fetched.
Proof.
  unfold fetched_comments.
  destruct (ApiService.getCommentsByPostId E (prop post "id")) as [t [cs|e]] eqn:Hp;
    [|by intros ?%elem_of_nil].
  intros Hin. destruct (getCommentsByPostId_fetched _ _ _ _ Hp) as (k & fetched & Hk & Hsub & _).
  exists t, cs, k, fetched. auto.
Qed.

(** ** Only [CsvWriter.writeRecords] writes *)

Lemma nowrite_ret {A : Type} (a : A) : nowrite (mret a : IO A).
Proof. done. Qed.

Lemma nowrite_throw {A : Type} (e : exn) : nowrite (throw e : IO A).
Proof. done. Qed.

Lemma nowrite_bind {A B : Type} (m : IO A) (f : A -> IO B) :
  nowrite m -> (forall a, nowrite (f a)) -> nowrite (m ≫= f).
Proof.
  unfold nowrite. intros Hm Hf. rewrite bind_unfold.
  destruct m as [t [a|e]]; simpl in *; [|done].
  by rewrite written_app, Hm, Hf.
Qed.

Lemma nowrite_try_catch {A : Type} (m : IO A) (h : exn -> IO A) :
  nowrite m -> (forall e, nowrite (h e)) -> nowrite (try_catch m h).
Proof.
  unfold nowrite, try_catch. intros Hm Hh.
  destruct m as [t [a|e]]; simpl in *; [done|].
  specialize (Hh e). destruct (h e) as [t' r]. simpl in *.
  by rewrite written_app, Hm, Hh.
Qed.

Lemma nowrite_get (o : value) (k : string) : nowrite (get o k).
Proof. by destruct o. Qed.

Lemma nowrite_ToString (rt : Runtime) (v : value) : nowrite (ToString rt v).
Proof. unfold ToString. by destruct (converts v). Qed.

Lemma nowrite_ToNumber (rt : Runtime) (v : value) : nowrite (ToNumber rt v).
Proof. unfold ToNumber. by destruct (converts v). Qed.

Lemma nowrite_DateValue (rt : Runtime) (v : value) : nowrite (DateValue rt v).
Proof. unfold DateValue. by destruct (converts v). Qed.

Lemma nowrite_error (m : message) (e : thrown) : nowrite (Logger.error m e).
Proof. done. Qed.

Lemma nowrite_filterM {A : Type} (p : A -> IO bool) (l : list A) :
  (forall x, nowrite (p x)) -> nowrite (filterM p l).
Proof.
  intros Hp. induction l as [|x l IH]; [done|]. cbn [filterM].
  apply nowrite_bind; [done|]. intros keep.
  apply nowrite_bind; [done|]. intros rest. apply nowrite_ret.
Qed.

(** Closes [nowrite] goals along the structure of the computation. *)
Ltac nowrite_tac :=
  repeat first
    [ apply nowrite_ret | apply nowrite_throw | apply nowrite_get
    | apply nowrite_ToString | apply nowrite_ToNumber | apply nowrite_DateValue
    | apply nowrite_error
    | assumption
    | apply nowrite_bind; [|intros ?]
    | apply nowrite_try_catch; [|intros ?]
    | apply nowrite_filterM; intros ?
    | match goal with |- nowrite (if ?b then _ else _) => destruct b end
    | match goal with |- nowrite (match ?x with _ => _ end) => destruct x end
    | reflexivity ].

Lemma nowrite_request (E : Env) (url : string) (retries : nat) :
  nowrite (HttpClient.request E url retries).
Proof.
  remember (Z.to_nat (maxRetries (CONFIG E) - Z.of_nat retries)) as m eqn:Hm.
  revert retries Hm. induction m as [m IH] using lt_wf_ind. intros retries Hm.
  rewrite HttpClient.request_equation_1.
  apply nowrite_bind; [done|]. intros _.
  apply nowrite_bind; [done|]. intros _.
  destruct (axios_get E url retries) as [err|body]; [|nowrite_tac].
  destruct (decide _) as [Hlt|Hge]; [|nowrite_tac].
  cbn zeta. apply nowrite_bind; [done|]. intros _.
  apply nowrite_bind; [done|]. intros _.
  eapply IH; [|reflexivity]. lia.
Qed.

Lemma nowrite_validateUser (user : value) : nowrite (DataValidator.validateUser user).
Proof.
  unfold DataValidator.validateUser, DataValidator.missingFields. nowrite_tac.
Qed.

Lemma nowrite_validatePost (post : value) : nowrite (DataValidator.validatePost post).
Proof.
  unfold DataValidator.validatePost, DataValidator.missingFields. nowrite_tac.
Qed.

Lemma nowrite_validateComment (comment : value) :
  nowrite (DataValidator.validateComment comment).
Proof.
  unfold DataValidator.validateComment, DataValidator.missingFields. nowrite_tac.
Qed.

Lemma nowrite_byDateOrId (rt : Runtime) (a b : value) :
  nowrite (ApiService.byDateOrId rt a b).
Proof. unfold ApiService.byDateOrId. nowrite_tac. Qed.

Lemma nowrite_sort_insert (comparefn : value -> value -> IO number)
    (x : value) (sorted : list value) :
  (forall a b, nowrite (comparefn a b)) -> nowrite (sort_insert comparefn x sorted).
Proof.
  intros Hcmp. induction sorted as [|y rest IH]; [done|]. cbn [sort_insert].
  apply nowrite_bind.
  - unfold SortCompare. destruct x, y; nowrite_tac; apply Hcmp.
  - intros c. destruct c; nowrite_tac.
Qed.

Lemma nowrite_Array_sort (comparefn : value -> value -> IO number) (arr : value) :
  (forall a b, nowrite (comparefn a b)) -> nowrite (Array_sort comparefn arr).
Proof.
  intros Hcmp. destruct arr as [| | | | |items|]; try done. simpl.
  generalize (@nil value). induction items as [|x items IH]; intros sorted; [done|].
  cbn [sort_from]. apply nowrite_bind; [by apply nowrite_sort_insert|].
  intros sorted'. apply IH.
Qed.

Lemma nowrite_getUsers (E : Env) : nowrite (ApiService.getUsers E).
Proof.
  unfold ApiService.getUsers.
  apply nowrite_bind; [done|]. intros _.
  apply nowrite_bind; [apply nowrite_request|]. intros users. nowrite_tac.
Qed.

Lemma nowrite_getPostsByUserId (E : Env) (id : value) :
  nowrite (ApiService.getPostsByUserId E id).
Proof.
  unfold ApiService.getPostsByUserId.
  apply nowrite_bind; [apply nowrite_ToString|]. intros text.
  apply nowrite_bind; [done|]. intros _.
  apply nowrite_bind; [apply nowrite_ToString|]. intros text'.
  apply nowrite_bind; [apply nowrite_request|]. intros posts.
  apply nowrite_bind; [|by intros ?].
  apply nowrite_Array_sort, nowrite_byDateOrId.
Qed.

Lemma nowrite_getCommentsByPostId (E : Env) (id : value) :
  nowrite (ApiService.getCommentsByPostId E id).
Proof.
  unfold ApiService.getCommentsByPostId.
  apply nowrite_bind; [apply nowrite_ToString|]. intros text.
  apply nowrite_bind; [done|]. intros _.
  apply nowrite_bind; [apply nowrite_ToString|]. intros text'.
  apply nowrite_bind; [apply nowrite_request|]. intros posts.
  apply nowrite_bind; [|by intros ?].
  apply nowrite_Array_sort, nowrite_byDateOrId.
Qed.

Lemma nowrite_fetchComments (E : Env) (post : value) :
  nowrite (DataProcessor.fetchComments E post).
Proof.
  unfold DataProcessor.fetchComments.
  apply nowrite_bind; [apply nowrite_validatePost|]. intros valid.
  destruct valid; simpl; [|done].
  apply nowrite_try_catch.
  - apply nowrite_bind; [apply nowrite_get|]. intros id.
    apply nowrite_bind; [apply nowrite_getCommentsByPostId|]. by intros ?.
  - intros e. nowrite_tac.
Qed.

Lemma nowrite_Promise_all {A : Type} (tasks : list (IO A)) :
  Forall nowrite tasks -> nowrite (Promise_all tasks).
Proof.
  unfold nowrite, Promise_all. cbn [fst]. rewrite written_tasks, List.map_map.
  induction 1 as [|task tasks Htask _ IH]; [done|].
  simpl. by rewrite Htask, IH.
Qed.

Lemma nowrite_hasEvenId (rt : Runtime) (user : value) :
  nowrite (DataProcessor.hasEvenId rt user).
Proof. unfold DataProcessor.hasEvenId. nowrite_tac. Qed.

(** The same for the computations on [allRecords]. *)

Lemma nowriteP_ret {A : Type} (a : A) : nowriteP (mret a : P A).
Proof. done. Qed.

Lemma nowriteP_io {A : Type} (m : IO A) : nowrite m -> nowriteP (io m).
Proof. by intros Hm s. Qed.

Lemma nowriteP_push (r : FlatRecord) : nowriteP (push r).
Proof. done. Qed.

Lemma nowriteP_bind {A B : Type} (m : P A) (f : A -> P B) :
  nowriteP m -> (forall a, nowriteP (f a)) -> nowriteP (m ≫= f).
Proof.
  intros Hm Hf s. unfold mbind, P_bind. specialize (Hm s).
  destruct (m s) as [[t s'] [a|e]]; simpl in *; [|done].
  specialize (Hf a s'). destruct (f a s') as [[t' s''] r]. simpl in *.
  by rewrite written_app, Hm, Hf.
Qed.

Lemma nowriteP_try_catch {A : Type} (m : P A) (h : exn -> P A) :
  nowriteP m -> (forall e, nowriteP (h e)) -> nowriteP (try_catchP m h).
Proof.
  intros Hm Hh s. unfold try_catchP. specialize (Hm s).
  destruct (m s) as [[t s'] [a|e]]; simpl in *; [done|].
  specialize (Hh e s'). destruct (h e s') as [[t' s''] r]. simpl in *.
  by rewrite written_app, Hm, Hh.
Qed.

Lemma nowriteP_forEach {A : Type} (body : A -> P unit) (l : list A) :
  (forall x, nowriteP (body x)) -> nowriteP (forEach body l).
Proof.
  intros Hbody. induction l as [|x l IH]; [done|]. cbn [forEach].
  apply nowriteP_bind; [done|]. by intros _.
Qed.

Ltac nowriteP_tac :=
  repeat first
    [ apply nowriteP_ret | apply nowriteP_push
    | apply nowriteP_io;
      first [ apply nowrite_get | apply nowrite_ToString | apply nowrite_error
            | reflexivity ]
    | apply nowriteP_forEach; intros ?
    | apply nowriteP_try_catch; [|intros ?]
    | apply nowriteP_bind; [|intros ?]
    | match goal with |- nowriteP (if ?b then _ else _) => destruct b end ].

Lemma nowriteP_pushRecords (user : value) (pc : value * list value) :
  nowriteP (DataProcessor.pushRecords user pc).
Proof.
  destruct pc as [post comments]. unfold DataProcessor.pushRecords.
  apply nowriteP_forEach. intros c.
  apply nowriteP_bind; [apply nowriteP_io, nowrite_validateComment|].
  intros valid. nowriteP_tac.
Qed.

Lemma nowriteP_processUser (E : Env) (user : value) :
  nowriteP (DataProcessor.processUser E user).
Proof.
  unfold DataProcessor.processUser.
  apply nowriteP_bind; [apply nowriteP_io, nowrite_validateUser|].
  intros valid. destruct valid; simpl; [|done].
  apply nowriteP_try_catch; [|intros e; nowriteP_tac].
  apply nowriteP_bind; [apply nowriteP_io, nowrite_get|]. intros id.
  apply nowriteP_bind; [apply nowriteP_io, nowrite_getPostsByUserId|]. intros posts.
  apply nowriteP_bind.
  - apply nowriteP_io, nowrite_Promise_all, Forall_forall.
    intros task (p & <- & _)%list_elem_of_In%in_map_iff.
    apply nowrite_fetchComments.
  - intros pcs. apply nowriteP_forEach, nowriteP_pushRecords.
Qed.

Lemma nowrite_collect (E : Env) : nowrite (collect E).
Proof.
  unfold collect.
  apply nowrite_bind; [done|]. intros _.
  apply nowrite_bind; [apply nowrite_getUsers|]. intros users.
  apply nowrite_bind.
  { destruct users; try done. apply nowrite_filterM, nowrite_hasEvenId. }
  intros evenUsers. apply nowrite_bind; [done|]. intros _.
  unfold nowrite, with_allRecords.
  pose proof (nowriteP_forEach _ evenUsers (nowriteP_processUser E) []) as H.
  by destruct (forEach _ _ _) as [[t s] r].
Qed.

(** ** [DataProcessor.process] and [main] as a whole *)

Lemma process_collect (E : Env) :
  DataProcessor.process E =
  try_catch (collect E ≫= writeOut E)
            (fun error => Logger.error ProcessingFailed (Caught error);; throw error).
Proof.
  unfold DataProcessor.process, collect. f_equal. symmetry.
  rewrite bind_assoc. apply bind_ext. intros _.
  rewrite bind_assoc. apply bind_ext. intros users.
  rewrite bind_assoc. apply bind_ext. intros evenUsers.
  rewrite bind_assoc. apply bind_ext. intros _.
  done.
Qed.

Lemma writeOut_eq (E : Env) (allRecords : list FlatRecord) :
  writeOut E allRecords =
  match allRecords with
  | [] => ([ELog Warn NoValidRecords], Return tt)
  | _ :: _ =>
      match csv_writeRecords E allRecords with
      | None => ([EWrite allRecords;
                  ELog Info (WroteRecords (length allRecords));
                  ELog Info (ProcessingCompleted (length allRecords))], Return tt)
      | Some e => (EWrite allRecords :: error_lines WriteFailed e, Throw e)
      end
  end.
Proof.
  unfold writeOut, CsvWriter.writeRecords. destruct allRecords as [|r rs]; [done|].
  cbn [length Nat.ltb Nat.leb]. unfold Logger.info, Logger.error.
  rewrite bind_emit. by destruct (csv_writeRecords E (r :: rs)).
Qed.

(** A run, from the outcome of the loop and of the write. *)
Lemma main_eq (E : Env) :
  main E =
  match (collect E).2 with
  | Throw e =>
      (ELog Info StartingApplication :: (collect E).1 ++
         error_lines ProcessingFailed e ++ error_lines ApplicationFailed e,
       Return 1)
  | Return allRecords =>
      match (writeOut E allRecords).2 with
      | Return _ =>
          (ELog Info StartingApplication :: (collect E).1 ++
             (writeOut E allRecords).1 ++ [ELog Info ApplicationCompleted],
           Return 0)
      | Throw e =>
          (ELog Info StartingApplication :: (collect E).1 ++
             (writeOut E allRecords).1 ++
             error_lines ProcessingFailed e ++ error_lines ApplicationFailed e,
           Return 1)
      end
  end.
Proof.
  unfold main. rewrite process_collect. unfold Logger.info, Logger.error.
  rewrite bind_emit, (bind_unfold (collect E)).
  destruct (collect E) as [tc [rs|e]]; cbn [fst snd].
  - destruct (writeOut E rs) as [tw [[]|e]]; simpl; by rewrite <- ?app_assoc.
  - simpl. by rewrite <- ?app_assoc.
Qed.

Lemma exit_status_eq (E : Env) :
  exit_status E =
  match (collect E).2 with
  | Throw _ => 1
  | Return [] => 0
  | Return (r :: rs) =>
      match csv_writeRecords E (r :: rs) with None => 0 | Some _ => 1 end
  end.
Proof.
  unfold exit_status. rewrite main_eq.
  destruct (collect E) as [tc [rs|e]]; cbn [fst snd]; [|done].
  rewrite writeOut_eq. destruct rs as [|r rs]; [done|].
  by destruct (csv_writeRecords E (r :: rs)).
Qed.

(** The CSV library is called at most once, with [allRecords], and only if
    it is not empty. *)
Lemma main_written (E : Env) :
  written (main E).1 = match output E with [] => [] | _ :: _ => [output E] end.
Proof.
  rewrite main_eq. unfold output. pose proof (nowrite_collect E) as Hc.
  unfold nowrite in Hc.
  destruct (collect E) as [tc [rs|e]]; cbn [fst snd] in *.
  - rewrite writeOut_eq. destruct rs as [|r rs].
    + cbn [fst snd]. by rewrite written_log, !written_app, Hc.
    + destruct (csv_writeRecords E (r :: rs)); cbn [fst snd];
        by rewrite written_log, !written_app, Hc.
  - cbn [fst snd]. by rewrite written_log, !written_app, Hc.
Qed.

Lemma collect_throws_iff (E : Env) :
  (exists e, (collect E).2 = Throw e) <->
  (exists e, (HttpClient.request E (ApiService.usersUrl E) 0).2 = Throw e)
  \/ (exists users, (HttpClient.request E (ApiService.usersUrl E) 0).2 = Return users
                    /\ malformed_users users).
Proof.
  rewrite collect_outcome.
  destruct (HttpClient.request E (ApiService.usersUrl E) 0) as [t [users|e]]; simpl.
  - split.
    + intros He. right. exists users. split; [done|].
      destruct users as [| | | | |items|]; try done. simpl.
      destruct (forallb testable items); [by destruct He|done].
    + intros [[e [=]]|(users' & [= <-] & Hmal)].
      destruct users as [| | | | |items|]; try by eexists.
      simpl in Hmal. rewrite Hmal. by eexists.
  - split; [intros _; left|]; by eexists.
Qed.

(** ** C2: every record comes from a valid triple *)

Lemma validUser_Return (user : value) :
  validUser user = true -> (DataValidator.validateUser user).2 = Return true.
Proof.
  unfold validUser. by destruct (DataValidator.validateUser user) as [t [[]|e]].
Qed.

Lemma validPost_Return (post : value) :
  validPost post = true -> (DataValidator.validatePost post).2 = Return true.
Proof.
  unfold validPost. by destruct (DataValidator.validatePost post) as [t [[]|e]].
Qed.

Lemma validComment_Return (comment : value) :
  validComment comment = true ->
  (DataValidator.validateComment comment).2 = Return true.
Proof.
  unfold validComment.
  by destruct (DataValidator.validateComment comment) as [t [[]|e]].
Qed.

(** A row of a user comes from one of its posts and one of the comments of
    that post. *)
Lemma elem_of_rows (E : Env) (user : value) (posts : list value) (r : FlatRecord) :
  r ∈ rows E user posts ->
  exists post comment,
    post ∈ posts /\ validPost post = true
    /\ comment ∈ fetched_comments E post /\ validComment comment = true
    /\ r = flatRecord user post comment.
Proof.
  unfold rows. rewrite list_elem_of_In, in_flat_map.
  intros (post & Hpost & Hr). apply in_map_iff in Hr as (comment & <- & Hc).
  apply filter_In in Hc as [Hc Hvalid]. rewrite commentsFor_eq in Hc.
  destruct (validPost post) eqn:Hvp; [|done].
  exists post, comment. by rewrite !list_elem_of_In.
Qed.

(** A record of the output comes from a user of the fetched list. *)
Lemma elem_of_output (E : Env) (r : FlatRecord) :
  r ∈ output E ->
  exists t users user,
    HttpClient.request E (ApiService.usersUrl E) 0 = (t, Return (VArr users))
    /\ user ∈ users /\ evenId (runtime E) user = true
    /\ validUser user = true
    /\ r ∈ rows E user (postsFor E user).
Proof.
  rewrite output_eq.
  destruct (HttpClient.request E (ApiService.usersUrl E) 0) as [t [users|e]] eqn:Hreq;
    simpl; [|by intros ?%elem_of_nil].
  destruct users as [| | | | |users|]; try by intros ?%elem_of_nil.
  rewrite records_from_eq. destruct (forallb testable users); [|by intros ?%elem_of_nil].
  rewrite list_elem_of_In, in_flat_map. intros (user & Hu & Hr).
  apply filter_In in Hu as [Hu Heven]. apply list_elem_of_In in Hr.
  exists t, users, user. split_and!; [done|by apply list_elem_of_In|done| |].
  - rewrite contribution_eq in Hr. destruct (validUser user); [done|].
    by apply elem_of_nil in Hr.
  - destruct (contribution_prefix E user) as [k Hk]. rewrite Hk.
    apply elem_of_app. by left.
Qed.

(** C2. Every record of the output is the row of a user of the fetched user
    list, of a post fetched for that user and of a comment fetched for that
    post, each of which its validator accepted; the seven fields of the record
    are the values read from these three entities. *)
Theorem records_come_from_valid_triples (E : Env) (r : FlatRecord) :
  r ∈ output E ->
  exists users user posts post comments comment ku kp kc,
    axios_get E (ApiService.usersUrl E) ku = inr (VArr users)
    /\ user ∈ users
    /\ axios_get E (ApiService.postsUrl E (prop user "id")) kp = inr (VArr posts)
    /\ post ∈ posts /\ post ∈ postsFor E user
    /\ axios_get E (ApiService.commentsUrl E (prop post "id")) kc = inr (VArr comments)
    /\ comment ∈ comments /\ comment ∈ fetched_comments E post
    /\ (DataValidator.validateUser user).2 = Return true
    /\ (DataValidator.validatePost post).2 = Return true
    /\ (DataValidator.validateComment comment).2 = Return true
    /\ userId r = prop user "id" /\ userName r = prop user "name"
    /\ postId r = prop post "id" /\ postTitle r = prop post "title"
    /\ commentId r = prop comment "id" /\ commentBody r = prop comment "body"
    /\ commentEmail r = prop comment "email".
Proof.
  intros (t & users & user & Hreq & Hu & _ & Hvu & Hr)%elem_of_output.
  apply elem_of_rows in Hr as (post & comment & Hp & Hvp & Hc & Hvc & ->).
  apply request_Return in Hreq as (ku & _ & Hku).
  destruct (postsFor_fetched _ _ _ Hp) as (_ & _ & kp & posts & _ & _ & Hkp & Hpin).
  destruct (fetched_comments_fetched _ _ _ Hc)
    as (_ & _ & kc & comments & _ & _ & Hkc & Hcin).
  exists users, user, posts, post, comments, comment, ku, kp, kc.
  split_and!; try done.
  - by apply validUser_Return.
  - by apply validPost_Return.
  - by apply validComment_Return.
Qed.

Lemma records_come_from_valid_triples_witness :
  let r := flatRecord ann (post 10 "hello") (comment 101 "thanks" "b@x.org") in
  r ∈ output E_site
  /\ exists users user posts post comments comment ku kp kc,
    axios_get E_site (ApiService.usersUrl E_site) ku = inr (VArr users)
    /\ user ∈ users
    /\ axios_get E_site (ApiService.postsUrl E_site (prop user "id")) kp = inr (VArr posts)
    /\ post ∈ posts /\ post ∈ postsFor E_site user
    /\ axios_get E_site (ApiService.commentsUrl E_site (prop post "id")) kc
       = inr (VArr comments)
    /\ comment ∈ comments /\ comment ∈ fetched_comments E_site post
    /\ (DataValidator.validateUser user).2 = Return true
    /\ (DataValidator.validatePost post).2 = Return true
    /\ (DataValidator.validateComment comment).2 = Return true
    /\ userId r = prop user "id" /\ userName r = prop user "name"
    /\ postId r = prop post "id" /\ postTitle r = prop post "title"
    /\ commentId r = prop comment "id" /\ commentBody r = prop comment "body"
    /\ commentEmail r = prop comment "email".
Proof.
  cbv zeta.
  assert (Hin : flatRecord ann (post 10 "hello") (comment 101 "thanks" "b@x.org")
                ∈ output E_site).
  { vm_compute. apply list_elem_of_here. }
  split; [exact Hin|].
  exact (records_come_from_valid_triples E_site _ Hin).
Defined.

(** ** C8: the order of the output *)

Lemma validateComment_coercible (comment : value) :
  coercible comment = true ->
  DataValidator.validateComment comment =
  ((DataValidator.validateComment comment).1, Return (validComment comment)).
Proof.
  intros Hc. unfold validComment, DataValidator.validateComment. cbv zeta.
  by rewrite (validate_shape _ _ InvalidComment _ Hc).
Qed.

(** A loop whose body, on the elements of the list, pushes [f x] and
    returns. *)
Lemma forEach_total {A : Type} (body : A -> P unit)
    (f : A -> list FlatRecord) (l : list A) :
  (forall x, appends (body x)) ->
  (forall x, x ∈ l -> (body x []).1.2 = f x /\ (body x []).2 = Return tt) ->
  (forEach body l []).1.2 = flat_map f l /\ (forEach body l []).2 = Return tt.
Proof.
  intros Happ. induction l as [|x l IH]; intros Hbody; [done|].
  destruct (Hbody x) as [Hs Hr]; [by left|].
  destruct IH as [IHs IHr]; [intros y Hy; apply Hbody; by right|].
  cbn [forEach flat_map]. unfold mbind, P_bind.
  destruct (body x []) as [[t d] r]. simpl in Hs, Hr. subst d r.
  rewrite (appends_forEach body l Happ (f x)).
  destruct (forEach body l []) as [[t' d'] r']. simpl in *. by subst.
Qed.

Lemma pushRecords_total (user : value) (pc : value * list value) :
  coercible user = true -> coercible pc.1 = true ->
  Forall (fun c => coercible c = true) pc.2 ->
  (DataProcessor.pushRecords user pc []).1.2 = rows_of user pc
  /\ (DataProcessor.pushRecords user pc []).2 = Return tt.
Proof.
  destruct pc as [post comments]. simpl. intros Hu Hp Hcs.
  unfold DataProcessor.pushRecords, rows_of. simpl.
  rewrite <- flat_map_row_of. apply forEach_total.
  - intros c. appends_tac.
  - intros c Hc. rewrite Forall_forall in Hcs. specialize (Hcs c Hc).
    rewrite bindP_io, validateComment_coercible by done. cbn [fst snd].
    unfold row_of. destruct (validComment c); [|done].
    rewrite push_flatRecord, Hu, Hp, Hcs. done.
Qed.

Lemma resolves_coercible (post : value) :
  resolves post = true -> coercible post = true.
Proof. unfold resolves. by intros [? ?]%andb_true_iff. Qed.

Lemma forallb_resolves (l : list value) :
  forallb resolves l = true <-> Forall (fun p => resolves p = true) l.
Proof. by rewrite forallb_forall, Forall_forall; setoid_rewrite list_elem_of_In. Qed.

(** When the task of every post resolves and every comment fetched can be
    read, what is pushed from a list of posts is all of its rows. *)
Lemma records_of_posts_total (E : Env) (user : value) (posts : list value) :
  coercible user = true ->
  Forall (fun p => resolves p = true) posts ->
  (forall p, p ∈ posts -> Forall (fun c => coercible c = true) (commentsFor E p)) ->
  records_of_posts E user posts = rows E user posts.
Proof.
  intros Hu Hps Hcs. unfold records_of_posts, processPosts.
  rewrite bindP_io, Promise_all_fetchComments.
  apply forallb_resolves in Hps as Hps'. rewrite Hps'. cbn [fst snd].
  rewrite <- flat_map_rows_of.
  apply (forEach_total (DataProcessor.pushRecords user) (rows_of user)).
  - apply appends_pushRecords.
  - intros [p cs] Hin. apply list_elem_of_In, in_map_iff in Hin as (p' & [= <- <-] & Hp').
    apply list_elem_of_In in Hp'. rewrite Forall_forall in Hps.
    apply pushRecords_total; simpl; auto using resolves_coercible.
Qed.

Lemma evenUsers_of_eq (E : Env) :
  evenUsers_of E =
  match (HttpClient.request E (ApiService.usersUrl E) 0).2 with
  | Return (VArr users) =>
      if forallb testable users then List.filter (evenId (runtime E)) users else []
  | _ => []
  end.
Proof.
  unfold evenUsers_of. rewrite bind_unfold, getUsers_eq. cbn [fst snd].
  destruct (HttpClient.request _ _ _) as [t [users|e]]; simpl; [|done].
  destruct (countable users) eqn:Hcount; [|by destruct users].
  destruct users as [| | | | |users|]; simpl; try done.
  rewrite filterM_hasEvenId. by destruct (forallb testable users).
Qed.

(** C8. The output lists the users with an even id in the order of the
    fetched user list; within a user, its posts in the order in which
    [getPostsByUserId] returns them; within a post, its valid comments in the
    order in which [getCommentsByPostId] returns them.  The users with an
    even id are those of the fetched list on which [user.id % 2 === 0]
    holds, when that test returns on every user of the list (each user can
    be read and its id converts to a number).  A user contributes a prefix of
    its rows, and all of them when the task of each of its posts resolves
    (the post can be read and, if valid, its id converts to a string) and
    each comment fetched can be read. *)
Theorem output_in_processing_order (E : Env) :
  output E = flat_map (contribution E) (evenUsers_of E)
  /\ (forall t users,
        HttpClient.request E (ApiService.usersUrl E) 0 = (t, Return (VArr users)) ->
        Forall (fun u => coercible u = true /\ converts (prop u "id") = true) users ->
        evenUsers_of E = List.filter (evenId (runtime E)) users)
  /\ (forall user,
        contribution E user `prefix_of`
        flat_map (fun post =>
                    List.map (flatRecord user post)
                      (List.filter validComment
                         (if validPost post then fetched_comments E post else [])))
                 (postsFor E user))
  /\ (forall user,
        validUser user = true ->
        Forall (fun p => coercible p = true
                         /\ (validPost p = true -> converts (prop p "id") = true))
               (postsFor E user) ->
        (forall p, p ∈ postsFor E user ->
                   Forall (fun c => coercible c = true) (fetched_comments E p)) ->
        contribution E user =
        flat_map (fun post =>
                    List.map (flatRecord user post)
                      (List.filter validComment
                         (if validPost post then fetched_comments E post else [])))
                 (postsFor E user))
  /\ (forall user, validUser user = false -> contribution E user = []).
Proof.
  assert (Hrows : forall user posts,
    rows E user posts =
    flat_map (fun post =>
                List.map (flatRecord user post)
                  (List.filter validComment
                     (if validPost post then fetched_comments E post else [])))
             posts).
  { intros user posts. unfold rows. apply flat_map_ext. intros p.
    by rewrite commentsFor_eq. }
  split_and!.
  - rewrite output_eq, evenUsers_of_eq.
    destruct (HttpClient.request _ _ _) as [t [users|e]]; simpl; [|done].
    destruct users as [| | | | |users|]; try done.
    rewrite records_from_eq. by destruct (forallb testable users).
  - intros t users Hreq Hco. rewrite evenUsers_of_eq, Hreq. simpl.
    assert (Ht : forallb testable users = true).
    { apply forallb_testable. eapply Forall_impl; [exact Hco|].
      intros u [Hc Hid]. unfold testable. by rewrite Hc, Hid. }
    by rewrite Ht.
  - intros user. rewrite <- Hrows. apply contribution_prefix.
  - intros user Hv Hps Hcs. rewrite <- Hrows, contribution_eq, Hv.
    apply records_of_posts_total; [by apply validUser_coercible| |].
    + eapply Forall_impl; [exact Hps|]. intros p [Hc Hid]. unfold resolves.
      rewrite Hc. simpl. destruct (validPost p); [by apply Hid|done].
    + intros p Hp. rewrite commentsFor_eq. destruct (validPost p); [auto|constructor].
  - intros user Hv. by rewrite contribution_eq, Hv.
Qed.

Lemma output_in_processing_order_witness :
  output E_site = flat_map (contribution E_site) (evenUsers_of E_site)
  /\ evenUsers_of E_site = List.filter (evenId (runtime E_site)) [ann; bob; eve]
  /\ output E_site =
     [flatRecord ann (post 10 "hello") (comment 101 "thanks" "b@x.org");
      flatRecord ann (post 10 "hello") (comment 100 "nice" "a@x.org")].
Proof.
  destruct (output_in_processing_order E_site) as (Hout & Heven & _).
  split_and!; [exact Hout| |vm_compute; reflexivity].
  apply (Heven (HttpClient.request E_site (ApiService.usersUrl E_site) 0).1).
  - vm_compute. reflexivity.
  - repeat constructor.
Defined.

(** ** C9: users with an odd id *)

Lemma hasEvenId_false (rt : Runtime) (user : value) :
  DataProcessor.hasEvenId rt user = mret false ->
  testable user = true /\ evenId rt user = false.
Proof.
  destruct (testable user) eqn:Hc.
  - rewrite hasEvenId_testable by done. by intros [= ->].
  - by rewrite hasEvenId_throws.
Qed.

Lemma odd_rem_2 (n : Z) : Z.odd n = true -> (Z.rem n 2 =? 0) = false.
Proof.
  intros Hodd. apply Z.eqb_neq. intros Hrem.
  pose proof (Z.quot_rem' n 2) as Hn. rewrite Hrem, Z.add_0_r in Hn.
  rewrite Hn, Z.odd_mul in Hodd. done.
Qed.

Lemma filter_evenId_odd (rt : Runtime) (l1 l2 : list value) (user : value) :
  evenId rt user = false ->
  List.filter (evenId rt) (l1 ++ user :: l2) = List.filter (evenId rt) (l1 ++ l2).
Proof.
  intros Hodd. rewrite !List.filter_app. simpl. by rewrite Hodd.
Qed.

Lemma forallb_testable_middle (l1 l2 : list value) (user : value) :
  testable user = true ->
  forallb testable (l1 ++ user :: l2) = forallb testable (l1 ++ l2).
Proof.
  intros Hc. rewrite !forallb_app. simpl. by rewrite Hc.
Qed.

(** C9. Every record of the output carries a user id [i] with [i % 2 === 0];
    a user for which [user.id % 2 === 0] is false, in particular one whose id
    is an odd number, leaves [allRecords] as it would be without that user,
    whatever its posts and comments are. *)
Theorem odd_users_contribute_nothing (E : Env) :
  (forall r, r ∈ output E ->
     exists n, ToNumber (runtime E) (userId r) = mret n
               /\ num_is_zero (num_rem n 2) = true)
  /\ (forall l1 user l2,
        DataProcessor.hasEvenId (runtime E) user = mret false ->
        records_from E (l1 ++ user :: l2) = records_from E (l1 ++ l2))
  /\ (forall user n,
        prop user "id" = VNum n -> Z.odd n = true ->
        coercible user = true ->
        DataProcessor.hasEvenId (runtime E) user = mret false).
Proof.
  split_and!.
  - intros r (t & users & user & _ & _ & Heven & _ & Hr)%elem_of_output.
    apply elem_of_rows in Hr as (post & comment & _ & _ & _ & _ & ->).
    pose proof (evenId_testable _ _ Heven) as Ht.
    rewrite evenId_eq in Heven by done.
    exists (to_number (runtime E) (prop user "id")). split; [|done].
    by apply ToNumber_converts, testable_converts.
  - intros l1 user l2 [Hc Hodd]%hasEvenId_false.
    by rewrite !records_from_eq, forallb_testable_middle, filter_evenId_odd.
  - intros user n Hid Hodd Hc.
    assert (Ht : testable user = true) by (unfold testable; by rewrite Hc, Hid).
    rewrite hasEvenId_testable, evenId_eq by done.
    rewrite Hid. simpl. by rewrite odd_rem_2.
Qed.

Lemma odd_users_contribute_nothing_witness :
  DataProcessor.hasEvenId (runtime E_site) bob = mret false
  /\ records_from E_site ([ann] ++ bob :: [eve]) = records_from E_site ([ann] ++ [eve])
  /\ exists n,
       ToNumber (runtime E_site)
         (userId (flatRecord ann (post 10 "hello") (comment 100 "nice" "a@x.org")))
       = mret n
       /\ num_is_zero (num_rem n 2) = true.
Proof.
  destruct (odd_users_contribute_nothing E_site) as (Heven & Hodd & Hnum).
  assert (Hbob : DataProcessor.hasEvenId (runtime E_site) bob = mret false).
  { apply (Hnum bob 3); reflexivity. }
  split_and!.
  - exact Hbob.
  - exact (Hodd [ann] bob [eve] Hbob).
  - apply Heven. vm_compute. apply list_elem_of_further, list_elem_of_here.
Defined.

(** ** C3: a user whose posts cannot be fetched *)

Lemma getPostsByUserId_fails (E : Env) (id : value) (t : list event) (e : exn) :
  converts id = true ->
  HttpClient.request E (ApiService.postsUrl E id) 0 = (t, Throw e) ->
  ApiService.getPostsByUserId E id =
  (ELog Info (FetchingPosts (to_string (runtime E) id)) :: t, Throw e).
Proof.
  intros Hid Hreq. rewrite getPostsByUserId_converts by done. unfold Logger.info.
  by rewrite bind_emit, Hreq.
Qed.

Lemma Forall_testable (users : list value) :
  Forall (fun u => coercible u = true /\ converts (prop u "id") = true) users ->
  Forall (fun u => testable u = true) users.
Proof.
  intros H. eapply Forall_impl; [exact H|].
  intros u [Hc Hid]. unfold testable. by rewrite Hc, Hid.
Qed.

(** The events of the loop are those of its bodies, one user after the
    other. *)
Lemma forEach_processUser_trace (E : Env) (users : list value) (s : list FlatRecord) :
  Forall (fun u => testable u = true) users ->
  (forEach (DataProcessor.processUser E) users s).1.1
  = flat_map (fun u => (DataProcessor.processUser E u []).1.1) users.
Proof.
  intros Hco. revert s. induction Hco as [|u users Hu _ IH]; intros s; [done|].
  cbn [forEach flat_map]. unfold mbind, P_bind.
  rewrite (appends_processUser E u s).
  pose proof (processUser_returns E u [] Hu) as Hr.
  destruct (DataProcessor.processUser E u []) as [[t d] r]. simpl in Hr. subst r.
  cbn [fst snd]. specialize (IH (s ++ d)).
  destruct (forEach _ users _) as [[t' s'] r']. simpl in *. by rewrite IH.
Qed.

Lemma logged_flat_map {A : Type} (f : A -> list event) (l : list A) (x : A)
    (lines : list event) :
  x ∈ l -> logged lines (f x) -> logged lines (flat_map f l).
Proof.
  intros Hx Hlog. induction Hx as [x l|x y l _ IH]; simpl.
  - by apply logged_app_l.
  - apply logged_app_r. by apply IH.
Qed.

(** What a loop body logs appears in the log of the run. *)
Lemma loop_events_in_main (E : Env) (t : list event) (users : list value)
    (user : value) (lines : list event) :
  HttpClient.request E (ApiService.usersUrl E) 0 = (t, Return (VArr users)) ->
  Forall (fun u => testable u = true) users ->
  user ∈ users -> evenId (runtime E) user = true ->
  logged lines (DataProcessor.processUser E user []).1.1 ->
  logged lines (main E).1.
Proof.
  intros Hreq Hco Hu Heven Hev.
  assert (Hloop : logged lines (forEach (DataProcessor.processUser E)
                          (List.filter (evenId (runtime E)) users) []).1.1).
  { rewrite forEach_processUser_trace by by apply Forall_testable_filter.
    apply (logged_flat_map _ _ user); [|done].
    apply list_elem_of_In, filter_In. split; [by apply list_elem_of_In|done]. }
  assert (Hcollect : logged lines (collect E).1).
  { unfold collect, Logger.info. rewrite bind_emit, getUsers_eq, Hreq.
    cbn [fst snd]. rewrite countable_array, bind_unfold. cbn [fst snd Array_filter].
    rewrite filterM_hasEvenId. apply forallb_testable in Hco as ->.
    rewrite bind_ret, bind_emit. cbn [fst].
    unfold with_allRecords. destruct (forEach _ _ _) as [[tl sl] rl]. simpl in *.
    do 2 apply logged_cons. apply logged_app_r. by apply logged_cons. }
  rewrite main_eq. destruct (collect E).2 as [rs|e].
  - destruct (writeOut E rs).2; cbn [fst]; apply logged_cons; by apply logged_app_l.
  - cbn [fst]. apply logged_cons. by apply logged_app_l.
Qed.

(** C3 fails as stated: the posts of Eve, who has an even id and is valid,
    cannot be fetched, and the run exits with status 1, because the CSV file
    cannot be written. *)
Lemma failed_post_fetch_with_failed_write :
  (HttpClient.request E_site_readonly (ApiService.usersUrl E_site_readonly) 0).2
    = Return (VArr [ann; bob; eve])
  /\ evenId (runtime E_site_readonly) eve = true
  /\ (DataValidator.validateUser eve).2 = Return true
  /\ (HttpClient.request E_site_readonly
        (ApiService.postsUrl E_site_readonly (prop eve "id")) 0).2
     = Throw (AxiosError "404")
  /\ contribution E_site_readonly eve = []
  /\ exit_status E_site_readonly = 1.
Proof. split_and!; vm_compute; reflexivity. Qed.

(** C3, as the code has it.  In a run that gets to the loop (the user list
    is fetched, and the test of the filter returns on each of its users),
    when the fetch of the posts of a user with an even id and valid fields
    fails for good, the loop body pushes nothing for that user, logs the
    failure with the message of the error and returns, so that the loop goes
    on with the next user; the output is what it would be with that user
    taken out of the fetched list; and the run exits with status 0 unless
    the write of the accumulated records to the CSV file fails. *)
Theorem failed_post_fetch_skips_user
    (E : Env) (t tp : list event) (l1 l2 : list value) (user : value) (e : exn) :
  HttpClient.request E (ApiService.usersUrl E) 0
    = (t, Return (VArr (l1 ++ user :: l2))) ->
  Forall (fun u => coercible u = true /\ converts (prop u "id") = true)
         (l1 ++ user :: l2) ->
  evenId (runtime E) user = true ->
  (DataValidator.validateUser user).2 = Return true ->
  HttpClient.request E (ApiService.postsUrl E (prop user "id")) 0 = (tp, Throw e) ->
  let failure :=
    error_lines (FailedUser (to_string (runtime E) (prop user "id"))) e in
  contribution E user = []
  /\ (forall s, exists tr,
        DataProcessor.processUser E user s = (tr, s, Return tt)
        /\ logged failure tr)
  /\ logged failure (main E).1
  /\ output E = records_from E (l1 ++ l2)
  /\ output E =
     flat_map (contribution E) (List.filter (evenId (runtime E)) l1) ++
     flat_map (contribution E) (List.filter (evenId (runtime E)) l2)
  /\ (csv_writeRecords E (output E) = None -> exit_status E = 0).
Proof.
  intros Hreq Hco%Forall_testable Heven Hvalid Hposts failure.
  assert (Ht : testable user = true).
  { rewrite Forall_app, Forall_cons in Hco. tauto. }
  pose proof (testable_coercible _ Ht) as Hc.
  pose proof (testable_converts _ Ht) as Hid.
  assert (Hv : validUser user = true).
  { unfold validUser. destruct (DataValidator.validateUser user) as [tv r].
    simpl in Hvalid. by subst r. }
  apply getPostsByUserId_fails in Hposts; [|done].
  pose proof (fun s => processUser_fetch_fails E user s _ e Hv Hid Hposts) as Hbody.
  assert (Hnone : contribution E user = []).
  { unfold contribution. by rewrite Hbody. }
  assert (Hout : output E = flat_map (contribution E)
                   (List.filter (evenId (runtime E)) (l1 ++ user :: l2))).
  { rewrite output_eq, Hreq. simpl. rewrite records_from_eq.
    apply forallb_testable in Hco. by rewrite Hco. }
  assert (Hsplit : flat_map (contribution E)
                     (List.filter (evenId (runtime E)) (l1 ++ user :: l2))
                   = flat_map (contribution E) (List.filter (evenId (runtime E)) l1) ++
                     flat_map (contribution E) (List.filter (evenId (runtime E)) l2)).
  { rewrite List.filter_app. simpl. rewrite Heven, flat_map_app. simpl.
    by rewrite Hnone. }
  assert (Hlog : forall s, logged failure (DataProcessor.processUser E user s).1.1).
  { intros s. rewrite Hbody. cbn [fst]. apply logged_app_r.
    exists [], []. by rewrite app_nil_r. }
  split_and!.
  - done.
  - intros s. eexists. split; [apply Hbody|]. specialize (Hlog s).
    by rewrite Hbody in Hlog.
  - apply (loop_events_in_main E t (l1 ++ user :: l2) user); [done..| | |].
    + apply elem_of_app. right. apply list_elem_of_here.
    + done.
    + apply Hlog.
  - rewrite Hout, Hsplit, records_from_eq.
    apply forallb_testable in Hco. rewrite forallb_testable_middle in Hco by done.
    by rewrite Hco, List.filter_app, flat_map_app.
  - by rewrite Hout, Hsplit.
  - intros Hcsv.
    assert (Hcol : (collect E).2 = Return (output E)).
    { rewrite collect_outcome, output_eq, Hreq. cbn [snd].
      apply forallb_testable in Hco. by rewrite Hco. }
    rewrite exit_status_eq, Hcol. destruct (output E); [done|]. by rewrite Hcsv.
Qed.

Lemma failed_post_fetch_skips_user_witness :
  contribution E_site eve = []
  /\ logged (error_lines (FailedUser "4") (AxiosError "404")) (main E_site).1
  /\ output E_site = records_from E_site ([ann; bob] ++ [])
  /\ exit_status E_site = 0.
Proof.
  destruct (failed_post_fetch_skips_user E_site
    (HttpClient.request E_site (ApiService.usersUrl E_site) 0).1
    (HttpClient.request E_site (ApiService.postsUrl E_site (prop eve "id")) 0).1
    [ann; bob] [] eve (AxiosError "404"))
    as (Hnone & _ & Hlog & Hout & _ & Hexit).
  - vm_compute. reflexivity.
  - repeat constructor.
  - vm_compute. reflexivity.
  - vm_compute. reflexivity.
  - vm_compute. reflexivity.
  - split_and!; [exact Hnone|exact Hlog|exact Hout|].
    apply Hexit. vm_compute. reflexivity.
Defined.

(** ** C7 and C10: a post without comments *)

(** An element on which the body does nothing can be left out of a loop. *)
Lemma forEach_skip {A : Type} (body : A -> P unit) (l1 l2 : list A) (x : A)
    (s : list FlatRecord) :
  (forall s', body x s' = ([], s', Return tt)) ->
  forEach body (l1 ++ x :: l2) s = forEach body (l1 ++ l2) s.
Proof.
  intros Hskip. revert s. induction l1 as [|y l1 IH]; intros s.
  - cbn [app forEach]. unfold mbind, P_bind. rewrite Hskip.
    by destruct (forEach body l2 s) as [[t s'] r].
  - cbn [app forEach]. unfold mbind, P_bind.
    destruct (body y s) as [[t s'] [[]|e]]; [|done]. by rewrite IH.
Qed.

Lemma forallb_resolves_middle (l1 l2 : list value) (post : value) :
  resolves post = true ->
  forallb resolves (l1 ++ post :: l2) = forallb resolves (l1 ++ l2).
Proof.
  intros Hc. rewrite !forallb_app. simpl. by rewrite Hc.
Qed.

(** A post whose task resolves without comments leaves [allRecords] as it
    would be without the post. *)
Lemma records_of_posts_skip (E : Env) (user post : value) (l1 l2 : list value) :
  resolves post = true -> commentsFor E post = [] ->
  records_of_posts E user (l1 ++ post :: l2) = records_of_posts E user (l1 ++ l2).
Proof.
  intros Hc Hnone. unfold records_of_posts, processPosts.
  rewrite !bindP_io, !Promise_all_fetchComments, forallb_resolves_middle by done.
  destruct (forallb resolves (l1 ++ l2)); [|done]. cbn [fst snd].
  rewrite !map_app. cbn [List.map]. rewrite Hnone.
  by rewrite (forEach_skip (DataProcessor.pushRecords user)).
Qed.

(** The events of the tasks given to [Promise.all] are those of each task
    on its own. *)
Lemma Promise_all_tasks_middle (E : Env) (post : value) (l1 l2 : list value) :
  resolves post = true ->
  (Promise_all (List.map (DataProcessor.fetchComments E) (l1 ++ post :: l2))).1
  = [ETasks
       (returned (Promise_all (List.map (DataProcessor.fetchComments E) (l1 ++ l2))).2)
       (List.map (fun p => (DataProcessor.fetchComments E p).1) l1 ++
        (DataProcessor.fetchComments E post).1 ::
        List.map (fun p => (DataProcessor.fetchComments E p).1) l2)].
Proof.
  intros Hr.
  pose proof (Promise_all_fetchComments E (l1 ++ post :: l2)) as H1.
  pose proof (Promise_all_fetchComments E (l1 ++ l2)) as H2.
  rewrite forallb_resolves_middle in H1 by done.
  unfold Promise_all in *. cbn [fst snd] in *. rewrite H1, H2.
  rewrite !List.map_app. cbn [List.map]. rewrite !List.map_map.
  by destruct (forallb resolves (l1 ++ l2)).
Qed.

Lemma validatePost_Return_coercible (post : value) (b : bool) :
  (DataValidator.validatePost post).2 = Return b ->
  coercible post = true /\ validPost post = b.
Proof.
  destruct (coercible post) eqn:Hc.
  - rewrite validatePost_coercible by done. by intros [= ->].
  - by rewrite validatePost_nullish.
Qed.

Lemma getCommentsByPostId_fails (E : Env) (id : value) (t : list event) (e : exn) :
  converts id = true ->
  HttpClient.request E (ApiService.commentsUrl E id) 0 = (t, Throw e) ->
  ApiService.getCommentsByPostId E id =
  (ELog Info (FetchingComments (to_string (runtime E) id)) :: t, Throw e).
Proof.
  intros Hid Hreq. rewrite getCommentsByPostId_converts by done. unfold Logger.info.
  by rewrite bind_emit, Hreq.
Qed.

(** C7. When the fetch of the comments of a valid post fails for good (the
    request for them, at the URL made of the id of the post, throws after
    its last attempt), the task of that post logs the failure with the
    message of the error and resolves with no comments; what is pushed for
    the user is what would be pushed without that post; the events of the
    task of each other post are those of that task on its own, and
    [Promise.all] settles as it does without the post; and the loop body
    returns on every user that gets to it, so that the run goes on. *)
Theorem failed_comment_fetch_is_isolated
    (E : Env) (user post : value) (l1 l2 : list value) (t : list event) (e : exn) :
  (DataValidator.validatePost post).2 = Return true ->
  converts (prop post "id") = true ->
  HttpClient.request E (ApiService.commentsUrl E (prop post "id")) 0 = (t, Throw e) ->
  (exists tr,
     DataProcessor.fetchComments E post = (tr, Return (post, []))
     /\ logged (error_lines
                  (FailedComments (to_string (runtime E) (prop post "id"))) e) tr)
  /\ records_of_posts E user (l1 ++ post :: l2) = records_of_posts E user (l1 ++ l2)
  /\ (validUser user = true -> postsFor E user = l1 ++ post :: l2 ->
      contribution E user = records_of_posts E user (l1 ++ l2))
  /\ (Promise_all (List.map (DataProcessor.fetchComments E) (l1 ++ post :: l2))).1
     = [ETasks
          (returned
             (Promise_all (List.map (DataProcessor.fetchComments E) (l1 ++ l2))).2)
          (List.map (fun p => (DataProcessor.fetchComments E p).1) l1 ++
           (DataProcessor.fetchComments E post).1 ::
           List.map (fun p => (DataProcessor.fetchComments E p).1) l2)]
  /\ (Promise_all (List.map (DataProcessor.fetchComments E) (l1 ++ post :: l2))).2
     = match (Promise_all (List.map (DataProcessor.fetchComments E) (l1 ++ l2))).2 with
       | Return _ =>
           Return (List.map (fun p => (p, commentsFor E p)) l1 ++
                   (post, []) :: List.map (fun p => (p, commentsFor E p)) l2)
       | Throw e' => Throw e'
       end
  /\ (coercible user = true -> converts (prop user "id") = true ->
      forall s, (DataProcessor.processUser E user s).2 = Return tt).
Proof.
  intros [Hc Hv]%validatePost_Return_coercible Hid Hreq.
  apply getCommentsByPostId_fails in Hreq; [|done].
  assert (Hr : resolves post = true) by (unfold resolves; by rewrite Hc, Hv, Hid).
  pose proof (fetchComments_resolves E post Hr) as Hfetch.
  unfold fetched_comments in Hfetch. rewrite Hv, Hreq in Hfetch. cbn [fst snd] in Hfetch.
  assert (Hnone : commentsFor E post = []).
  { unfold commentsFor. by rewrite Hfetch. }
  split_and!.
  - eexists. split; [exact Hfetch|].
    apply logged_app_r, logged_app_r. exists [], []. by rewrite app_nil_r.
  - by apply records_of_posts_skip.
  - intros Hvu Hposts. rewrite contribution_eq, Hvu, Hposts.
    by apply records_of_posts_skip.
  - by apply Promise_all_tasks_middle.
  - rewrite !Promise_all_fetchComments, forallb_resolves_middle by done.
    destruct (forallb resolves (l1 ++ l2)); [|done].
    rewrite map_app. cbn [List.map]. by rewrite Hnone.
  - intros Hu Huid s. apply processUser_returns. unfold testable. by rewrite Hu, Huid.
Qed.

Lemma failed_comment_fetch_is_isolated_witness :
  (exists tr, DataProcessor.fetchComments E_site (post 11 "again")
              = (tr, Return (post 11 "again", []))
              /\ logged (error_lines (FailedComments "11") (AxiosError "404")) tr)
  /\ records_of_posts E_site ann ([post 10 "hello"] ++ post 11 "again" :: [])
     = records_of_posts E_site ann ([post 10 "hello"] ++ []).
Proof.
  destruct (failed_comment_fetch_is_isolated E_site ann (post 11 "again")
    [post 10 "hello"] []
    (HttpClient.request E_site
       (ApiService.commentsUrl E_site (prop (post 11 "again") "id")) 0).1
    (AxiosError "404")) as (Htask & Hrecords & _ & _).
  - vm_compute. reflexivity.
  - reflexivity.
  - vm_compute. reflexivity.
  - split; [exact Htask|exact Hrecords].
Defined.

Lemma validatePost_false (post : value) :
  (DataValidator.validatePost post).2 = Return false ->
  exists missing,
    DataValidator.validatePost post =
    ([ELog Error (InvalidPost missing); ELog Error (Details None)], Return false).
Proof.
  intros Hfalse. pose proof Hfalse as [Hc _]%validatePost_Return_coercible.
  revert Hfalse. unfold DataValidator.validatePost. cbv zeta.
  rewrite (validate_shape _ _ InvalidPost _ Hc).
  destruct (0 <? length _)%nat; [|done]. intros _. by eexists.
Qed.

Lemma length_rows (E : Env) (user : value) (posts : list value) (n : nat) :
  (forall p, length (commentsFor E p) <= n)%nat ->
  (length (rows E user posts) <= length posts * n)%nat.
Proof.
  intros Hn. unfold rows. induction posts as [|p posts IH]; [done|].
  cbn [flat_map length]. rewrite length_app, length_map.
  pose proof (List.filter_length_le validComment (commentsFor E p)).
  specialize (Hn p). lia.
Qed.

Lemma length_postsFor (E : Env) (user : value) :
  0 <= postsPerUser (CONFIG E) ->
  (length (postsFor E user) <= Z.to_nat (postsPerUser (CONFIG E)))%nat.
Proof.
  intros Hpp. unfold postsFor.
  destruct (ApiService.getPostsByUserId E (prop user "id")) as [t [posts|e]] eqn:Hp;
    [|simpl; lia].
  destruct (getPostsByUserId_fetched _ _ _ _ Hp) as (_ & _ & _ & _ & Hlen). auto.
Qed.

Lemma length_commentsFor (E : Env) (post : value) :
  0 <= commentsPerPost (CONFIG E) ->
  (length (commentsFor E post) <= Z.to_nat (commentsPerPost (CONFIG E)))%nat.
Proof.
  intros Hcp. rewrite commentsFor_eq. destruct (validPost post); [|simpl; lia].
  unfold fetched_comments.
  destruct (ApiService.getCommentsByPostId E (prop post "id")) as [t [cs|e]] eqn:Hp;
    [|simpl; lia].
  destruct (getCommentsByPostId_fetched _ _ _ _ Hp) as (_ & _ & _ & _ & Hlen). auto.
Qed.

(** C10. The task of a post that [validatePost] rejects only logs the
    rejection (the two lines of [Logger.error]): it makes no request and
    resolves with no comments; what is pushed for the user is what would be
    pushed without that post.  With non-negative limits, a user contributes
    at most [postsPerUser * commentsPerPost] records. *)
Theorem invalid_post_is_not_fetched (E : Env) :
  (forall user post l1 l2,
     (DataValidator.validatePost post).2 = Return false ->
     (exists missing,
        DataProcessor.fetchComments E post =
        ([ELog Error (InvalidPost missing); ELog Error (Details None)],
         Return (post, [])))
     /\ attempts (DataProcessor.fetchComments E post).1 = []
     /\ (forall text, ELog Info (FetchingComments text)
                    ∉ (DataProcessor.fetchComments E post).1)
     /\ commentsFor E post = []
     /\ records_of_posts E user (l1 ++ post :: l2)
        = records_of_posts E user (l1 ++ l2)
     /\ (validUser user = true -> postsFor E user = l1 ++ post :: l2 ->
         contribution E user = records_of_posts E user (l1 ++ l2)))
  /\ (forall user,
        0 <= postsPerUser (CONFIG E) -> 0 <= commentsPerPost (CONFIG E) ->
        (length (contribution E user)
         <= Z.to_nat (postsPerUser (CONFIG E) * commentsPerPost (CONFIG E)))%nat).
Proof.
  split.
  - intros user post l1 l2 Hfalse.
    pose proof Hfalse as [Hc Hv]%validatePost_Return_coercible.
    destruct (validatePost_false post Hfalse) as [missing Hval].
    assert (Hr : resolves post = true) by (unfold resolves; by rewrite Hc, Hv).
    pose proof (fetchComments_resolves E post Hr) as Hfetch.
    rewrite Hv, Hval in Hfetch. cbn [fst snd app] in Hfetch.
    assert (Hnone : commentsFor E post = []).
    { unfold commentsFor. by rewrite Hfetch. }
    split_and!.
    + by exists missing.
    + by rewrite Hfetch.
    + intros text. rewrite Hfetch. cbn [fst].
      intros [Hin|Hin%list_elem_of_singleton]%elem_of_cons; discriminate.
    + done.
    + by apply records_of_posts_skip.
    + intros Hvu Hposts. rewrite contribution_eq, Hvu, Hposts.
      by apply records_of_posts_skip.
  - intros user Hpp Hcp.
    destruct (contribution_prefix E user) as [k Hk].
    pose proof (length_rows E user (postsFor E user) _
                  (fun p => length_commentsFor E p Hcp)) as Hrows.
    rewrite Hk, length_app in Hrows.
    pose proof (length_postsFor E user Hpp) as Hposts.
    rewrite Z2Nat.inj_mul by done. nia.
Qed.

Lemma invalid_post_is_not_fetched_witness :
  (DataValidator.validatePost (obj [("id", VNum 12)])).2 = Return false
  /\ attempts (DataProcessor.fetchComments E_site (obj [("id", VNum 12)])).1 = []
  /\ records_of_posts E_site ann
       ([post 10 "hello"; post 11 "again"] ++ obj [("id", VNum 12)] :: [])
     = records_of_posts E_site ann ([post 10 "hello"; post 11 "again"] ++ [])
  /\ (length (contribution E_site ann) <= Z.to_nat (5 * 3))%nat.
Proof.
  destruct (invalid_post_is_not_fetched E_site) as [Hpost Hbound].
  assert (Hfalse : (DataValidator.validatePost (obj [("id", VNum 12)])).2 = Return false)
    by (vm_compute; reflexivity).
  destruct (Hpost ann (obj [("id", VNum 12)]) [post 10 "hello"; post 11 "again"] []
              Hfalse) as (_ & Hattempts & _ & _ & Hrecords & _).
  split_and!; [exact Hfalse|exact Hattempts|exact Hrecords|].
  apply (Hbound ann); vm_compute; discriminate.
Defined.

(** ** C5: what makes a run fail *)

(** C5 fails as stated: the user listing is fetched, Ann contributes two
    records, the CSV file cannot be written, and the run exits with status 1.
    So does a run whose user listing is fetched and is not an array. *)
Lemma csv_failure_exits_nonzero :
  ((HttpClient.request E_site_readonly (ApiService.usersUrl E_site_readonly) 0).2
     = Return (VArr [ann; bob; eve])
   /\ length (output E_site_readonly) = 2%nat
   /\ csv_writeRecords E_site_readonly (output E_site_readonly)
      = Some (CsvError "EACCES")
   /\ (main E_site_readonly).2 = Return 1
   /\ exit_status E_site_readonly = 1)
  /\ ((HttpClient.request E_not_array (ApiService.usersUrl E_not_array) 0).2
        = Return (obj [("error", VStr "try again later")])
      /\ (main E_not_array).2 = Return 1
      /\ exit_status E_not_array = 1).
Proof. split_and!; vm_compute; reflexivity. Qed.

(** C5, as the code has it.  A run exits with status 0 or 1.  It exits with
    status 1 exactly when the fetch of the user list fails for good, or the
    fetched user list cannot be processed (it is not an array, or the test
    [user.id % 2 === 0] throws on one of its elements: the element is
    [null], or its id does not convert to a number), or the records
    accumulated are not empty and cannot be written to the CSV file; no
    failure of a fetch of posts or comments changes the exit status.  When
    the fetch of the user list fails, nothing is handed to the CSV library,
    and the failure is logged with the message of the error. *)
Theorem exit_status_nonzero_iff (E : Env) :
  (exit_status E = 0 \/ exit_status E = 1)
  /\ (exit_status E = 1 <->
      (exists e, (HttpClient.request E (ApiService.usersUrl E) 0).2 = Throw e)
      \/ (exists users,
            (HttpClient.request E (ApiService.usersUrl E) 0).2 = Return users
            /\ malformed_users users)
      \/ (output E <> [] /\ csv_writeRecords E (output E) <> None))
  /\ (forall e, (HttpClient.request E (ApiService.usersUrl E) 0).2 = Throw e ->
        exit_status E = 1 /\ written (main E).1 = [] /\ output E = []
        /\ logged (error_lines ApplicationFailed e) (main E).1)
  /\ written (main E).1 = match output E with [] => [] | _ :: _ => [output E] end.
Proof.
  pose proof (exit_status_eq E) as Hexit.
  pose proof (collect_throws_iff E) as Hthrows.
  pose proof (main_written E) as Hw.
  split_and!.
  - rewrite Hexit. destruct (collect E).2 as [[|r rs]|e]; auto.
    destruct (csv_writeRecords E (r :: rs)); auto.
  - rewrite Hexit. unfold output in *.
    destruct (collect E) as [tc [rs|e]]; cbn [fst snd] in *.
    + split.
      * intros Hone. right. right. destruct rs as [|r rs]; [done|].
        destruct (csv_writeRecords E (r :: rs)); done.
      * intros [Hreq|[Hmal|[Hne Hcsv]]].
        -- destruct Hthrows as [_ Hthrows]. by destruct Hthrows as [e' ?]; [left|].
        -- destruct Hthrows as [_ Hthrows]. by destruct Hthrows as [e' ?]; [right|].
        -- destruct rs as [|r rs]; [done|].
           destruct (csv_writeRecords E (r :: rs)); done.
    + split; [|done]. intros _.
      destruct Hthrows as [[Hreq|Hmal] _]; [by eexists|by left|by right; left].
  - intros e Hreq.
    assert (Hc : (collect E).2 = Throw e) by (by rewrite collect_outcome, Hreq).
    split_and!.
    + by rewrite Hexit, Hc.
    + rewrite Hw. unfold output. destruct (collect E) as [tc r]. simpl in Hc.
      by subst r.
    + unfold output. destruct (collect E) as [tc r]. simpl in Hc. by subst r.
    + rewrite main_eq, Hc. cbn [fst]. apply logged_cons.
      do 2 apply logged_app_r. exists [], []. by rewrite app_nil_r.
  - done.
Qed.

Lemma exit_status_nonzero_iff_witness :
  (HttpClient.request E_down (ApiService.usersUrl E_down) 0).2
    = Throw (AxiosError "ECONNREFUSED")
  /\ exit_status E_down = 1 /\ written (main E_down).1 = [] /\ output E_down = []
  /\ logged (error_lines ApplicationFailed (AxiosError "ECONNREFUSED")) (main E_down).1.
Proof.
  assert (Hreq : (HttpClient.request E_down (ApiService.usersUrl E_down) 0).2
                 = Throw (AxiosError "ECONNREFUSED")) by (vm_compute; reflexivity).
  split; [exact Hreq|].
  exact (proj1 (proj2 (proj2 (exit_status_nonzero_iff E_down))) _ Hreq).
Defined.

(** * Further properties of the code *)

(** ** [HttpClient.request] on any server *)

(** A request makes the attempts [r .. r + k] for some [k]: all but the last
    fail, no attempt goes beyond [maxRetries], and the outcome is that of the
    last attempt. *)
Lemma request_run (E : Env) (url : string) (r : nat) :
  exists k,
    timeline (HttpClient.request E url r).1 = backoff E url r k
    /\ (forall i, (r <= i < r + k)%nat -> exists e, axios_get E url i = inl e)
    /\ (k = 0%nat \/ Z.of_nat (r + k) <= maxRetries (CONFIG E))
    /\ match (HttpClient.request E url r).2 with
       | Return data => axios_get E url (r + k) = inr data
       | Throw e => axios_get E url (r + k) = inl e
                    /\ ~ Z.of_nat (r + k) < maxRetries (CONFIG E)
       end.
Proof.
  remember (Z.to_nat (maxRetries (CONFIG E) - Z.of_nat r)) as m eqn:Hm.
  revert r Hm. induction m as [m IH] using lt_wf_ind. intros r Hm.
  rewrite HttpClient.request_equation_1. unfold Logger.info, Logger.warn.
  rewrite !bind_emit.
  destruct (axios_get E url r) as [err|body] eqn:Hget.
  - destruct (decide _) as [Hlt|Hge].
    + cbn zeta. cbn [fst snd].
      destruct (IH (Z.to_nat (maxRetries (CONFIG E) - Z.of_nat (S r)))
                  ltac:(lia) (S r) eq_refl) as (k & Htl & Hfail & Hmax & Hout).
      destruct (HttpClient.request E url (S r)) as [t' r'] eqn:Hrec.
      cbn [fst snd] in *. exists (S k). split_and!.
      * rewrite timeline_log, timeline_get, timeline_log, timeline_sleep, Htl. done.
      * intros i Hi. destruct (decide (i = r)) as [->|Hne]; [by eexists|].
        apply Hfail. lia.
      * right. destruct Hmax as [->|Hmax]; lia.
      * replace (r + S k)%nat with (S r + k)%nat by lia. done.
    + exists 0%nat. rewrite bind_error. cbn [fst snd throw].
      rewrite Nat.add_0_r. split_and!; [done| |by left|done|done].
      intros i Hi. lia.
  - exists 0%nat. simpl. rewrite Nat.add_0_r. split_and!; [done| |by left|done].
    intros i Hi. lia.
Qed.

Lemma request_succeeding (E : Env) (url : string) (data : value) (k : nat) :
  Z.of_nat k <= maxRetries (CONFIG E) ->
  (forall i, (i < k)%nat -> exists e, axios_get E url i = inl e) ->
  axios_get E url k = inr data ->
  forall j r, (r + j = k)%nat ->
  exists t, HttpClient.request E url r = (t, Return data)
            /\ timeline t = backoff E url r j.
Proof.
  intros Hk Hfail Hok. induction j as [|j IH]; intros r Hr.
  - rewrite HttpClient.request_equation_1.
    replace r with k by lia. rewrite Hok.
    eexists. split; [reflexivity|done].
  - rewrite HttpClient.request_equation_1.
    destruct (Hfail r) as [e ->]; [lia|].
    destruct (decide _) as [_|Hge]; [|lia].
    destruct (IH (S r)) as (t & Ht & Htl); [lia|].
    cbn zeta. unfold Logger.info, Logger.warn.
    rewrite !bind_emit, Ht. simpl.
    eexists. split; [reflexivity|].
    rewrite timeline_log, timeline_get, timeline_log, timeline_sleep, Htl. done.
Qed.

(** X1. A request whose first [k] attempts fail and whose next attempt
    succeeds, with [k] at most [maxRetries], returns the body of that
    attempt after exactly [k + 1] attempts and the waits
    [retryDelay * 2^i] for [i = 0 .. k-1]. *)
Theorem request_returns_first_success
    (E : Env) (url : string) (data : value) (k : nat) :
  Z.of_nat k <= maxRetries (CONFIG E) ->
  (forall i, (i < k)%nat -> exists e, axios_get E url i = inl e) ->
  axios_get E url k = inr data ->
  exists t,
    HttpClient.request E url 0 = (t, Return data)
    /\ timeline t = backoff E url 0 k
    /\ attempts t = replicate (k + 1) url
    /\ waits t = List.map (fun i => retryDelay (CONFIG E) * 2 ^ Z.of_nat i) (seq 0 k).
Proof.
  intros Hk Hfail Hok.
  destruct (request_succeeding E url data k Hk Hfail Hok k 0%nat) as (t & Ht & Htl);
    [lia|].
  exists t. destruct (backoff_attempts _ _ _ _ _ Htl) as [Ha Hw].
  replace (k + 1)%nat with (S k) by lia. done.
Qed.

Lemma sum_doubling (d : Z) (k : nat) :
  foldr Z.add 0 (List.map (fun i => d * 2 ^ Z.of_nat i) (seq 0 k))
  = d * (2 ^ Z.of_nat k - 1).
Proof.
  induction k as [|k IH]; [simpl; lia|].
  rewrite seq_S, map_app, foldr_app. simpl.
  assert (Hshift : forall (l : list Z) (a : Z),
    foldr Z.add a l = foldr Z.add 0 l + a).
  { induction l as [|x l IHl]; intros a; simpl; [lia|]. rewrite IHl. lia. }
  rewrite Hshift, IH.
  rewrite Nat2Z.inj_succ, Z.pow_succ_r by lia. lia.
Qed.

(** X2. On any server, a request makes at least one attempt and at most
    [maxRetries + 1], all of them to its URL; before the retry number [i] it
    waits [retryDelay * 2^i], so that after [k + 1] attempts it has waited
    [retryDelay * (2^k - 1)] in all. *)
Theorem request_attempts_bounded (E : Env) (url : string) :
  exists k,
    attempts (HttpClient.request E url 0).1 = replicate (k + 1) url
    /\ (k <= Z.to_nat (maxRetries (CONFIG E)))%nat
    /\ waits (HttpClient.request E url 0).1
       = List.map (fun i => retryDelay (CONFIG E) * 2 ^ Z.of_nat i) (seq 0 k)
    /\ total_wait (HttpClient.request E url 0).1
       = retryDelay (CONFIG E) * (2 ^ Z.of_nat k - 1).
Proof.
  destruct (request_run E url 0) as (k & Htl & _ & Hmax & _).
  exists k. destruct (backoff_attempts _ _ _ _ _ Htl) as [Ha Hw].
  replace (k + 1)%nat with (S k) by lia. split_and!; [done| |done|].
  - destruct Hmax as [->|Hmax]; lia.
  - unfold total_wait. rewrite Hw. apply sum_doubling.
Qed.

(** X3. A request returns the body of the first attempt that succeeds, and
    throws only when every attempt up to [maxRetries] has failed; what it
    throws is then the error of the last of these attempts. *)
Theorem request_outcome (E : Env) (url : string) :
  match (HttpClient.request E url 0).2 with
  | Return data =>
      exists k,
        axios_get E url k = inr data
        /\ (forall i, (i < k)%nat -> exists e, axios_get E url i = inl e)
        /\ (k <= Z.to_nat (maxRetries (CONFIG E)))%nat
  | Throw e =>
      axios_get E url (Z.to_nat (maxRetries (CONFIG E))) = inl e
      /\ forall i, (i <= Z.to_nat (maxRetries (CONFIG E)))%nat ->
                   exists e', axios_get E url i = inl e'
  end.
Proof.
  destruct (request_run E url 0) as (k & _ & Hfail & Hmax & Hout).
  simpl in Hout. destruct (HttpClient.request E url 0).2 as [data|e].
  - exists k. split_and!; [done| |destruct Hmax as [->|Hmax]; lia].
    intros i Hi. apply Hfail. lia.
  - destruct Hout as [Hlast Hge].
    assert (Hk : Z.to_nat (maxRetries (CONFIG E)) = k).
    { destruct Hmax as [->|Hmax]; lia. }
    rewrite Hk. split; [done|]. intros i Hi.
    destruct (decide (i = k)) as [->|Hne]; [by eexists|]. apply Hfail. lia.
Qed.

Lemma request_returns_first_success_witness :
  exists t,
    HttpClient.request E_flaky (ApiService.usersUrl E_flaky) 0
      = (t, Return (VArr [ann; bob; eve]))
    /\ attempts t = replicate (2 + 1) (ApiService.usersUrl E_flaky)
    /\ waits t = [1000; 2000].
Proof.
  destruct (request_returns_first_success E_flaky (ApiService.usersUrl E_flaky)
              (VArr [ann; bob; eve]) 2) as (t & Ht & _ & Ha & Hw).
  - vm_compute. discriminate.
  - intros i Hi. exists (AxiosError "ETIMEDOUT").
    destruct i as [|[|i]]; [reflexivity|reflexivity|lia].
  - reflexivity.
  - exists t. split_and!; [exact Ht|exact Ha|exact Hw].
Defined.

(** ** The validators beyond their verdict *)

Lemma validate_log (required : list string) (entity : value)
    (mk : list string -> message) (key : string) :
  coercible entity = true ->
  (missing ← DataValidator.missingFields required entity;
   if (0 <? length missing)%nat then
     id ← get entity "id";
     Logger.error (mk missing) (Literal key id);;
     mret false
   else mret true) =
  match missing_fields required entity with
  | [] => ([], Return true)
  | _ :: _ =>
      ([ELog Error (mk (missing_fields required entity)); ELog Error (Details None)],
       Return false)
  end.
Proof.
  intros Hc. rewrite (validate_shape required entity mk key Hc).
  fold (missing_fields required entity).
  by destruct (missing_fields required entity).
Qed.

(** X4. A validator throws a [TypeError] on [null] instead of returning
    [false].  On any other entity it logs nothing when it returns [true],
    and the two lines of [Logger.error] when it returns [false]: the line
    that lists the required fields that are falsy, in the order of the
    [required] array, and a line of details without a message; the id that
    the validator hands to [Logger.error] is not printed. *)
Theorem validators_throw_on_null_and_log_twice (entity : value) :
  (coercible entity = false ->
     DataValidator.validateUser entity = throw TypeError
     /\ DataValidator.validatePost entity = throw TypeError
     /\ DataValidator.validateComment entity = throw TypeError)
  /\ (coercible entity = true ->
      DataValidator.validateUser entity =
        match missing_fields ["id"; "name"]%string entity with
        | [] => ([], Return true)
        | missing =>
            ([ELog Error (InvalidUser missing); ELog Error (Details None)],
             Return false)
        end
      /\ DataValidator.validatePost entity =
        match missing_fields ["id"; "title"]%string entity with
        | [] => ([], Return true)
        | missing =>
            ([ELog Error (InvalidPost missing); ELog Error (Details None)],
             Return false)
        end
      /\ DataValidator.validateComment entity =
        match missing_fields ["id"; "body"; "email"]%string entity with
        | [] => ([], Return true)
        | missing =>
            ([ELog Error (InvalidComment missing); ELog Error (Details None)],
             Return false)
        end).
Proof.
  split.
  - intros Hc. split_and!.
    + by apply validateUser_nullish.
    + by apply validatePost_nullish.
    + by apply validateComment_nullish.
  - intros Hc.
    unfold DataValidator.validateUser, DataValidator.validatePost,
      DataValidator.validateComment. cbv zeta.
    rewrite (validate_log _ _ InvalidUser _ Hc), (validate_log _ _ InvalidPost _ Hc),
      (validate_log _ _ InvalidComment _ Hc).
    split_and!.
    + by destruct (missing_fields _ entity).
    + by destruct (missing_fields _ entity).
    + by destruct (missing_fields _ entity).
Qed.

Lemma validators_throw_on_null_and_log_twice_witness :
  DataValidator.validateUser VNull = throw TypeError
  /\ DataValidator.validateComment (obj [("id", VNum 7); ("body", VStr EmptyString)])
     = ([ELog Error (InvalidComment ["body"; "email"]%string);
         ELog Error (Details None)], Return false).
Proof.
  split.
  - apply (proj1 (validators_throw_on_null_and_log_twice VNull)). reflexivity.
  - apply (proj2 (validators_throw_on_null_and_log_twice
                    (obj [("id", VNum 7); ("body", VStr EmptyString)]))).
    reflexivity.
Defined.

(** ** The comparator of the sorts *)

Lemma compare_sub_opp (x y : Z) : (y - x ?= 0) = CompOpp (x - y ?= 0).
Proof. rewrite <- !Z.compare_sub. apply Z.compare_antisym. Qed.

Lemma num_sub_opp (x y : number) :
  match num_sub y x with NaN => Eq | Num z => z ?= 0 end
  = CompOpp (match num_sub x y with NaN => Eq | Num z => z ?= 0 end).
Proof. destruct x, y; simpl; try done. apply compare_sub_opp. Qed.

Lemma SortCompare_readable (comparefn : value -> value -> IO number) (x y : value) :
  coercible x = true -> coercible y = true ->
  SortCompare comparefn x y =
  (v ← comparefn x y; mret (match v with NaN => Eq | Num z => z ?= 0 end)).
Proof. intros Hx Hy. by destruct x, y. Qed.

(** X5. On two items that can be read, the comparator either throws a
    [TypeError] for both orders of its arguments, or gives opposite answers
    for the two orders.  It throws exactly when the values it converts do
    not all convert: the two dates when both items carry one, the two ids
    otherwise. *)
Theorem comparator_antisymmetric (rt : Runtime) (a b : value) :
  coercible a = true -> coercible b = true ->
  let compared :=
    if truthy (prop a "date") && truthy (prop b "date")
    then converts (prop a "date") && converts (prop b "date")
    else converts (prop a "id") && converts (prop b "id") in
  if compared
  then exists c,
         SortCompare (ApiService.byDateOrId rt) a b = mret c
         /\ SortCompare (ApiService.byDateOrId rt) b a = mret (CompOpp c)
  else SortCompare (ApiService.byDateOrId rt) a b = throw TypeError
       /\ SortCompare (ApiService.byDateOrId rt) b a = throw TypeError.
Proof.
  intros Ha Hb. cbv zeta.
  rewrite !SortCompare_readable, !byDateOrId_coercible by done.
  rewrite (andb_comm (truthy (prop b "date"))).
  destruct (truthy (prop a "date") && truthy (prop b "date")).
  - destruct (converts (prop a "date")) eqn:Hda, (converts (prop b "date")) eqn:Hdb;
      cbn [andb].
    + rewrite !DateValue_converts, !bind_ret by done.
      eexists. split; [reflexivity|]. f_equal. apply num_sub_opp.
    + by rewrite (DateValue_converts _ _ Hda), (DateValue_throws _ _ Hdb), !bind_ret.
    + by rewrite (DateValue_converts _ _ Hdb), (DateValue_throws _ _ Hda), !bind_ret.
    + by rewrite !DateValue_throws.
  - destruct (converts (prop a "id")) eqn:Hia, (converts (prop b "id")) eqn:Hib;
      cbn [andb].
    + rewrite !ToNumber_converts, !bind_ret by done.
      eexists. split; [reflexivity|]. f_equal. apply num_sub_opp.
    + by rewrite (ToNumber_converts _ _ Hia), (ToNumber_throws _ _ Hib), !bind_ret.
    + by rewrite (ToNumber_converts _ _ Hib), (ToNumber_throws _ _ Hia), !bind_ret.
    + by rewrite !ToNumber_throws.
Qed.

Lemma comparator_antisymmetric_witness :
  (exists c,
     SortCompare (ApiService.byDateOrId example_runtime)
       (dated_post 1 "a" 30) (post 3 "c") = mret c
     /\ SortCompare (ApiService.byDateOrId example_runtime)
          (post 3 "c") (dated_post 1 "a" 30) = mret (CompOpp c))
  /\ SortCompare (ApiService.byDateOrId example_runtime) unnamed_id (post 3 "c")
     = throw TypeError
  /\ SortCompare (ApiService.byDateOrId example_runtime) (post 3 "c") unnamed_id
     = throw TypeError.
Proof.
  split.
  - apply (comparator_antisymmetric example_runtime (dated_post 1 "a" 30) (post 3 "c"));
      reflexivity.
  - apply (comparator_antisymmetric example_runtime unnamed_id (post 3 "c"));
      reflexivity.
Defined.

(** ** The filter on the parity of the id *)

Lemma rem_2_even (n : Z) : (Z.rem n 2 =? 0) = Z.even n.
Proof.
  destruct (Z.even n) eqn:Heven.
  - apply Z.eqb_eq. apply Z.even_spec in Heven as [k ->].
    rewrite Z.mul_comm. by apply Z.rem_mul.
  - apply odd_rem_2. by rewrite <- Z.negb_even, Heven.
Qed.

(** X13. The filter [user.id % 2 === 0] keeps a user with a numeric id
    exactly when the id is even, negative ids included.  A user without id is
    dropped by the filter, without a log line; a user whose id is [null]
    passes the filter and is then rejected by [validateUser], which logs
    it; on a user whose id does not convert to a number, the test throws a
    [TypeError]. *)
Theorem even_filter_on_ids (rt : Runtime) (user : value) :
  coercible user = true ->
  (forall n, prop user "id" = VNum n ->
             DataProcessor.hasEvenId rt user = mret (Z.even n))
  /\ (prop user "id" = VUndefined -> DataProcessor.hasEvenId rt user = mret false)
  /\ (prop user "id" = VNull ->
      DataProcessor.hasEvenId rt user = mret true
      /\ exists missing,
           DataValidator.validateUser user =
           ([ELog Error (InvalidUser ("id" :: missing)%string);
             ELog Error (Details None)], Return false))
  /\ (converts (prop user "id") = false ->
      DataProcessor.hasEvenId rt user = throw TypeError).
Proof.
  intros Hc.
  assert (Heven : forall v, prop user "id" = v -> converts v = true ->
            DataProcessor.hasEvenId rt user
            = mret (num_is_zero (num_rem (to_number rt v) 2))).
  { intros v Hid Hv. unfold DataProcessor.hasEvenId.
    by rewrite get_coercible, bind_ret, Hid, ToNumber_converts, bind_ret. }
  split_and!.
  - intros n Hid. rewrite (Heven _ Hid) by done. simpl. by rewrite rem_2_even.
  - intros Hid. by rewrite (Heven _ Hid).
  - intros Hid. split.
    + by rewrite (Heven _ Hid).
    + unfold DataValidator.validateUser. cbv zeta.
      rewrite (validate_log _ _ InvalidUser _ Hc).
      unfold missing_fields. cbn [List.filter]. rewrite Hid. simpl. by eexists.
  - intros Hid. apply hasEvenId_throws. unfold testable. by rewrite Hc, Hid.
Qed.

Lemma even_filter_on_ids_witness :
  DataProcessor.hasEvenId example_runtime (obj [("id", VNum (-3)); ("name", VStr "Neg")])
    = mret false
  /\ DataProcessor.hasEvenId example_runtime no_id = mret false
  /\ DataProcessor.hasEvenId example_runtime nil_id = mret true
  /\ DataProcessor.hasEvenId example_runtime unnamed_id = throw TypeError.
Proof.
  split_and!.
  - apply (proj1 (even_filter_on_ids example_runtime
                    (obj [("id", VNum (-3)); ("name", VStr "Neg")]) eq_refl) (-3)).
    reflexivity.
  - apply (proj1 (proj2 (even_filter_on_ids example_runtime no_id eq_refl))).
    reflexivity.
  - apply (proj1 (proj2 (proj2 (even_filter_on_ids example_runtime nil_id eq_refl)))).
    reflexivity.
  - apply (proj2 (proj2 (proj2 (even_filter_on_ids example_runtime unnamed_id eq_refl)))).
    reflexivity.
Defined.

(** ** What a fetch returns *)

Lemma sorted_slice_exact (E : Env) (url : string) (limit : Z)
    (t : list event) (items : list value) :
  (data ← HttpClient.request E url 0;
   sorted ← Array_sort (ApiService.byDateOrId (runtime E)) data;
   mret (slice sorted limit)) = (t, Return items) ->
  exists k fetched sorted,
    axios_get E url k = inr (VArr fetched)
    /\ sorted ≡ₚ fetched
    /\ items = slice sorted limit.
Proof.
  intros (t1 & data & t2 & Hreq & Hrest & _)%bind_inv_Return.
  apply bind_inv_Return in Hrest as (t3 & sorted & t4 & Hsort & [= _ <-] & _).
  apply request_Return in Hreq as (k & _ & Hk).
  apply Array_sort_Permutation in Hsort as (fetched & -> & Hperm).
  by exists k, fetched, sorted.
Qed.

Lemma slice_submseteq (l : list value) (stop : Z) : slice l stop ⊆+ l.
Proof. unfold slice. apply sublist_submseteq, sublist_take. Qed.

Lemma slice_exact_length (l : list value) (stop : Z) :
  0 <= stop -> length (slice l stop) = (Z.to_nat stop `min` length l)%nat.
Proof. intros Hstop. rewrite slice_nonneg by done. apply length_take. Qed.

Lemma fetch_shape (E : Env) (url : string) (limit : Z)
    (t : list event) (items : list value) :
  (data ← HttpClient.request E url 0;
   sorted ← Array_sort (ApiService.byDateOrId (runtime E)) data;
   mret (slice sorted limit)) = (t, Return items) ->
  exists k fetched,
    axios_get E url k = inr (VArr fetched)
    /\ items ⊆+ fetched
    /\ (0 <= limit -> length items = (Z.to_nat limit `min` length fetched)%nat).
Proof.
  intros (k & fetched & sorted & Hk & Hperm & ->)%sorted_slice_exact.
  exists k, fetched. split_and!; [done| |].
  - rewrite <- Hperm. apply slice_submseteq.
  - intros Hlimit. rewrite slice_exact_length by done.
    by rewrite (Permutation_length Hperm).
Qed.

(** X6. When [getPostsByUserId] returns, what it returns was fetched: it
    is a part of the array of one attempt, no item occurring more often than
    in that array, and it has exactly [min(postsPerUser, n)] items when [n]
    were fetched and [postsPerUser] is not negative.  [getCommentsByPostId]
    does the same with [commentsPerPost]. *)
Theorem fetch_returns_part_of_fetched
    (E : Env) (id : value) (t : list event) (items : list value) :
  (ApiService.getPostsByUserId E id = (t, Return items) ->
   exists k fetched,
     axios_get E (ApiService.postsUrl E id) k = inr (VArr fetched)
     /\ items ⊆+ fetched
     /\ (0 <= postsPerUser (CONFIG E) ->
         length items
         = (Z.to_nat (postsPerUser (CONFIG E)) `min` length fetched)%nat))
  /\ (ApiService.getCommentsByPostId E id = (t, Return items) ->
      exists k fetched,
        axios_get E (ApiService.commentsUrl E id) k = inr (VArr fetched)
        /\ items ⊆+ fetched
        /\ (0 <= commentsPerPost (CONFIG E) ->
            length items
            = (Z.to_nat (commentsPerPost (CONFIG E)) `min` length fetched)%nat)).
Proof.
  split.
  - intros Hposts. pose proof (getPostsByUserId_returns _ _ _ _ Hposts) as Hid.
    revert Hposts. rewrite getPostsByUserId_converts by done.
    unfold Logger.info. rewrite bind_emit.
    destruct (_ ≫= _) as [t' r] eqn:Hrest. simpl. intros [= _ ->].
    by apply fetch_shape in Hrest.
  - intros Hcs. pose proof (getCommentsByPostId_returns _ _ _ _ Hcs) as Hid.
    revert Hcs. rewrite getCommentsByPostId_converts by done.
    unfold Logger.info. rewrite bind_emit.
    destruct (_ ≫= _) as [t' r] eqn:Hrest. simpl. intros [= _ ->].
    by apply fetch_shape in Hrest.
Qed.

Lemma fetch_returns_part_of_fetched_witness :
  exists k fetched,
    axios_get E_site (ApiService.postsUrl E_site (VNum 2)) k = inr (VArr fetched)
    /\ [obj [("id", VNum 12)]; post 11 "again"; post 10 "hello"] ⊆+ fetched
    /\ (0 <= postsPerUser (CONFIG E_site) -> 3%nat = (5 `min` length fetched)%nat).
Proof.
  apply (proj1 (fetch_returns_part_of_fetched E_site (VNum 2)
                  (ApiService.getPostsByUserId E_site (VNum 2)).1
                  [obj [("id", VNum 12)]; post 11 "again"; post 10 "hello"])).
  vm_compute. reflexivity.
Defined.

(** ** Limits of zero *)

Lemma flat_map_nil {A B : Type} (f : A -> list B) (l : list A) :
  (forall x, f x = []) -> flat_map f l = [].
Proof. intros Hf. induction l as [|x l IH]; [done|]. simpl. by rewrite Hf, IH. Qed.

Lemma contribution_nil_of_rows (E : Env) (user : value) :
  rows E user (postsFor E user) = [] -> contribution E user = [].
Proof.
  intros Hrows. pose proof (contribution_prefix E user) as Hpre.
  rewrite Hrows in Hpre. by apply prefix_nil_inv in Hpre.
Qed.

Lemma output_nil_of_contributions (E : Env) :
  (forall user, contribution E user = []) -> output E = [].
Proof.
  intros Hnone. rewrite output_eq.
  destruct (HttpClient.request _ _ _).2 as [[| | | | |users|]|e]; try done.
  rewrite records_from_eq. destruct (forallb testable users); [|done].
  by apply flat_map_nil.
Qed.

(** X7. With [postsPerUser] or [commentsPerPost] set to [0], no user
    contributes a record: the output is empty and the CSV library is not
    called. *)
Theorem zero_limit_gives_no_output (E : Env) :
  postsPerUser (CONFIG E) = 0 \/ commentsPerPost (CONFIG E) = 0 ->
  output E = [] /\ written (main E).1 = [].
Proof.
  intros Hzero.
  assert (Hout : output E = []).
  { apply output_nil_of_contributions. intros user.
    apply contribution_nil_of_rows. destruct Hzero as [Hpp|Hcp].
    - pose proof (length_postsFor E user) as Hlen. rewrite Hpp in Hlen.
      destruct (postsFor E user); [done|]. simpl in Hlen. lia.
    - pose proof (length_rows E user (postsFor E user) 0) as Hlen.
      destruct (rows E user (postsFor E user)); [done|].
      simpl in Hlen. exfalso.
      assert (forall p, (length (commentsFor E p) <= 0)%nat) as Hcs.
      { intros p. pose proof (length_commentsFor E p) as Hp.
        rewrite Hcp in Hp. apply Hp. lia. }
      specialize (Hlen Hcs). lia. }
  split; [done|]. by rewrite main_written, Hout.
Qed.

Lemma zero_limit_gives_no_output_witness :
  output E_no_posts = [] /\ written (main E_no_posts).1 = [].
Proof. apply (zero_limit_gives_no_output E_no_posts). left. reflexivity. Defined.

(** ** Payloads that are not arrays *)

Lemma Array_sort_not_array (comparefn : value -> value -> IO number) (data : value) :
  is_array data = false -> Array_sort comparefn data = throw TypeError.
Proof. by destruct data. Qed.

(** X8. When the server answers the request for the posts of a valid
    user with something that is not an array, [posts.sort] throws a
    [TypeError]; the loop body logs it and pushes nothing for that user.
    When it answers the request for the comments of a valid post in that
    way, the task of the post logs the [TypeError] and resolves with no
    comments.  (The id of the user or of the post is one that converts to a
    string: the request is made at the URL that holds it.) *)
Theorem non_array_payload_is_skipped
    (E : Env) (entity data : value) (t : list event) :
  is_array data = false ->
  converts (prop entity "id") = true ->
  let text := to_string (runtime E) (prop entity "id") in
  (validUser entity = true ->
   HttpClient.request E (ApiService.postsUrl E (prop entity "id")) 0 = (t, Return data) ->
   contribution E entity = []
   /\ forall s, exists tr,
        DataProcessor.processUser E entity s = (tr, s, Return tt)
        /\ logged (error_lines (FailedUser text) TypeError) tr)
  /\ (validPost entity = true ->
      HttpClient.request E (ApiService.commentsUrl E (prop entity "id")) 0
        = (t, Return data) ->
      exists tr,
        DataProcessor.fetchComments E entity = (tr, Return (entity, []))
        /\ logged (error_lines (FailedComments text) TypeError) tr).
Proof.
  intros Hdata Hid text. split.
  - intros Hv Hreq.
    assert (Hposts : ApiService.getPostsByUserId E (prop entity "id")
                     = (ELog Info (FetchingPosts text) :: t, Throw TypeError)).
    { rewrite getPostsByUserId_converts by done. unfold Logger.info.
      rewrite bind_emit, (bind_Return _ _ _ _ Hreq), Array_sort_not_array by done.
      simpl. by rewrite app_nil_r. }
    pose proof (fun s => processUser_fetch_fails E entity s _ _ Hv Hid Hposts) as Hbody.
    split.
    + unfold contribution. by rewrite Hbody.
    + intros s. eexists. split; [apply Hbody|].
      apply logged_app_r. exists [], []. by rewrite app_nil_r.
  - intros Hv Hreq.
    assert (Hcomments : ApiService.getCommentsByPostId E (prop entity "id")
              = (ELog Info (FetchingComments text) :: t, Throw TypeError)).
    { rewrite getCommentsByPostId_converts by done. unfold Logger.info.
      rewrite bind_emit, (bind_Return _ _ _ _ Hreq), Array_sort_not_array by done.
      simpl. by rewrite app_nil_r. }
    assert (Hr : resolves entity = true).
    { unfold resolves. by rewrite validPost_coercible, Hv, Hid. }
    pose proof (fetchComments_resolves E entity Hr) as Hfetch.
    unfold fetched_comments in Hfetch. rewrite Hv, Hcomments in Hfetch.
    cbn [fst snd] in Hfetch. eexists. split; [exact Hfetch|].
    apply logged_app_r, logged_app_r. exists [], []. by rewrite app_nil_r.
Qed.

Lemma non_array_payload_is_skipped_witness :
  contribution E_objects ann = []
  /\ exists tr,
       DataProcessor.fetchComments E_objects (post 40 "x") = (tr, Return (post 40 "x", []))
       /\ logged (error_lines (FailedComments "40") TypeError) tr.
Proof.
  split.
  - refine (proj1 (proj1 (non_array_payload_is_skipped E_objects ann
              (obj [("error", VStr "try again later")])
              (HttpClient.request E_objects
                 (ApiService.postsUrl E_objects (prop ann "id")) 0).1
              eq_refl eq_refl) _ _)); vm_compute; reflexivity.
  - refine (proj2 (non_array_payload_is_skipped E_objects (post 40 "x")
              (VStr "<html>")
              (HttpClient.request E_objects
                 (ApiService.commentsUrl E_objects (prop (post 40 "x") "id")) 0).1
              eq_refl eq_refl) _ _); vm_compute; reflexivity.
Defined.

(** ** Arrays that hold a [null] *)

Lemma bind_outcome_Throw {A B : Type} (m : IO A) (f : A -> IO B) (e : exn) :
  m.2 = Throw e -> (m ≫= f).2 = Throw e.
Proof. intros Hm. rewrite bind_unfold. by rewrite Hm. Qed.

Lemma only_TypeError_ret {A : Type} (a : A) : only_TypeError (mret a : IO A).
Proof. by intros e. Qed.

Lemma only_TypeError_bind {A B : Type} (m : IO A) (f : A -> IO B) :
  only_TypeError m -> (forall a, only_TypeError (f a)) -> only_TypeError (m ≫= f).
Proof.
  intros Hm Hf e. rewrite bind_unfold. specialize (Hm e).
  destruct m as [t [a|e']]; simpl in *; [apply Hf|].
  intros [= ->]. by apply Hm.
Qed.

Lemma only_TypeError_get (o : value) (k : string) : only_TypeError (get o k).
Proof. intros e. destruct o; simpl; congruence. Qed.

Lemma only_TypeError_ToString (rt : Runtime) (v : value) :
  only_TypeError (ToString rt v).
Proof. intros e. unfold ToString. destruct (converts v); simpl; congruence. Qed.

Lemma only_TypeError_ToNumber (rt : Runtime) (v : value) :
  only_TypeError (ToNumber rt v).
Proof. intros e. unfold ToNumber. destruct (converts v); simpl; congruence. Qed.

Lemma only_TypeError_DateValue (rt : Runtime) (v : value) :
  only_TypeError (DateValue rt v).
Proof. intros e. unfold DateValue. destruct (converts v); simpl; congruence. Qed.

Ltac only_TypeError_tac :=
  repeat first
    [ apply only_TypeError_ret | apply only_TypeError_get
    | apply only_TypeError_ToString | apply only_TypeError_ToNumber
    | apply only_TypeError_DateValue
    | apply only_TypeError_bind; [|intros ?]
    | match goal with |- only_TypeError (if ?b then _ else _) => destruct b end
    | match goal with |- only_TypeError (match ?x with _ => _ end) => destruct x end ].

Lemma only_TypeError_byDateOrId (rt : Runtime) (a b : value) :
  only_TypeError (ApiService.byDateOrId rt a b).
Proof. unfold ApiService.byDateOrId. only_TypeError_tac. Qed.

Lemma only_TypeError_SortCompare (rt : Runtime) (x y : value) :
  only_TypeError (SortCompare (ApiService.byDateOrId rt) x y).
Proof.
  unfold SortCompare.
  destruct x, y; first [apply only_TypeError_ret|idtac];
    (apply only_TypeError_bind; [apply only_TypeError_byDateOrId|]);
    intros v; apply only_TypeError_ret.
Qed.

Lemma only_TypeError_sort_insert (rt : Runtime) (x : value) (sorted : list value) :
  only_TypeError (sort_insert (ApiService.byDateOrId rt) x sorted).
Proof.
  induction sorted as [|y rest IH]; [apply only_TypeError_ret|]. cbn [sort_insert].
  apply only_TypeError_bind; [apply only_TypeError_SortCompare|].
  intros c. destruct c; only_TypeError_tac; apply IH.
Qed.

(** Comparing [null] with anything throws. *)
Lemma byDateOrId_null_l (rt : Runtime) (b : value) :
  (ApiService.byDateOrId rt VNull b).2 = Throw TypeError.
Proof. done. Qed.

Lemma byDateOrId_null_r (rt : Runtime) (a : value) :
  (ApiService.byDateOrId rt a VNull).2 = Throw TypeError.
Proof.
  destruct (coercible a) eqn:Ha.
  - unfold ApiService.byDateOrId. rewrite !(get_coercible a) by done.
    rewrite bind_ret. destruct (truthy (prop a "date")) eqn:Hd; cbv iota.
    + done.
    + rewrite bind_ret, Hd. done.
  - unfold ApiService.byDateOrId. by rewrite (get_nullish (o:=a)) by done.
Qed.

Lemma SortCompare_null (rt : Runtime) (x y : value) :
  x <> VUndefined -> y <> VUndefined -> x = VNull \/ y = VNull ->
  (SortCompare (ApiService.byDateOrId rt) x y).2 = Throw TypeError.
Proof.
  intros Hx Hy [-> | ->].
  - destruct y; try done; apply bind_outcome_Throw, byDateOrId_null_l.
  - destruct x; try done; apply bind_outcome_Throw, byDateOrId_null_r.
Qed.

Lemma null_or_not (x : value) : x = VNull \/ x <> VNull.
Proof. destruct x; auto; right; discriminate. Qed.

(** Once [null] has met another element, the sort has thrown. *)
Lemma sort_from_null (rt : Runtime) (sorted rest : list value) :
  Forall (fun x => x <> VUndefined) (sorted ++ rest) ->
  (sorted = [VNull] /\ rest <> [])
  \/ ((VNull ∉ sorted) /\ sorted <> [] /\ VNull ∈ rest) ->
  (sort_from (ApiService.byDateOrId rt) sorted rest).2 = Throw TypeError.
Proof.
  revert sorted. induction rest as [|x rest IH]; intros sorted Hdef Hnull.
  { destruct Hnull as [[_ ?]|(_ & _ & Hin)]; [done|by apply elem_of_nil in Hin]. }
  apply Forall_app in Hdef as [Hds Hdr]. apply Forall_cons in Hdr as [Hx Hdr].
  cbn [sort_from]. destruct Hnull as [[-> _]|(Hnotin & Hne & Hin)].
  - apply bind_outcome_Throw. cbn [sort_insert].
    apply bind_outcome_Throw, SortCompare_null; [done|done|by right].
  - destruct sorted as [|y sorted]; [done|].
    apply Forall_cons in Hds as [Hy Hds].
    destruct (null_or_not x) as [->|Hxn].
    + apply bind_outcome_Throw. cbn [sort_insert].
      apply bind_outcome_Throw, SortCompare_null; [done|done|by left].
    + apply elem_of_cons in Hin as [Heq|Hin]; [done|].
      destruct (sort_insert (ApiService.byDateOrId rt) x (y :: sorted))
        as [t [s1|e]] eqn:Hins.
      * rewrite bind_unfold. cbn [fst snd].
        pose proof (sort_insert_Permutation _ _ _ _ _ Hins) as Hperm.
        apply IH.
        -- apply Forall_app. split; [|done]. rewrite Hperm.
           by repeat constructor.
        -- right. split_and!; [|by intros ->; apply Permutation_nil_cons in Hperm|done].
           rewrite Hperm. intros [Heq|Hin']%elem_of_cons; [by subst|done].
      * apply bind_outcome_Throw. simpl.
        pose proof (only_TypeError_sort_insert rt x (y :: sorted) e) as He.
        rewrite Hins in He. by rewrite He.
Qed.

(** Sorting an array of two or more items that holds a [null] throws. *)
Lemma Array_sort_null (rt : Runtime) (l : list value) :
  VNull ∈ l -> (2 <= length l)%nat ->
  Forall (fun x => x <> VUndefined) l ->
  (Array_sort (ApiService.byDateOrId rt) (VArr l)).2 = Throw TypeError.
Proof.
  intros Hin Hlen Hdef. destruct l as [|x [|x' l]]; simpl in Hlen; [lia|lia|].
  cbn [Array_sort sort_from sort_insert]. rewrite bind_ret.
  apply (sort_from_null rt [x] (x' :: l)); [done|].
  destruct (null_or_not x) as [->|Hx]; [by left|]. right. split_and!.
  - intros Hx'%list_elem_of_singleton. congruence.
  - done.
  - apply elem_of_cons in Hin as [Heq|Hin]; [congruence|done].
Qed.

Lemma fetch_null_throws (E : Env) (url : string) (limit : Z)
    (t : list event) (fetched : list value) :
  HttpClient.request E url 0 = (t, Return (VArr fetched)) ->
  VNull ∈ fetched -> (2 <= length fetched)%nat ->
  Forall (fun x => x <> VUndefined) fetched ->
  (data ← HttpClient.request E url 0;
   sorted ← Array_sort (ApiService.byDateOrId (runtime E)) data;
   mret (slice sorted limit)).2 = Throw TypeError.
Proof.
  intros Hreq Hin Hlen Hdef. rewrite (bind_Return _ _ _ _ Hreq). cbn [snd].
  by apply bind_outcome_Throw, Array_sort_null.
Qed.

(** X9. When the array fetched for the posts of a user, or for the
    comments of a post, has two or more items and holds a [null], the sort
    throws a [TypeError] and the fetch fails with it, whatever the other
    items are. *)
Theorem fetch_of_array_with_null_throws
    (E : Env) (id : value) (t : list event) (fetched : list value) :
  VNull ∈ fetched -> (2 <= length fetched)%nat ->
  Forall (fun x => x <> VUndefined) fetched ->
  (HttpClient.request E (ApiService.postsUrl E id) 0 = (t, Return (VArr fetched)) ->
   (ApiService.getPostsByUserId E id).2 = Throw TypeError)
  /\ (HttpClient.request E (ApiService.commentsUrl E id) 0 = (t, Return (VArr fetched)) ->
      (ApiService.getCommentsByPostId E id).2 = Throw TypeError).
Proof.
  intros Hin Hlen Hdef. split; intros Hreq.
  - destruct (converts id) eqn:Hid; [|by rewrite getPostsByUserId_throws].
    rewrite getPostsByUserId_converts by done.
    unfold Logger.info. rewrite bind_emit. cbn [snd].
    by eapply fetch_null_throws.
  - destruct (converts id) eqn:Hid; [|by rewrite getCommentsByPostId_throws].
    rewrite getCommentsByPostId_converts by done.
    unfold Logger.info. rewrite bind_emit. cbn [snd].
    by eapply fetch_null_throws.
Qed.

Lemma fetch_of_array_with_null_throws_witness :
  (ApiService.getPostsByUserId E_null_items (VNum 2)).2 = Throw TypeError
  /\ (ApiService.getCommentsByPostId E_null_items (VNum 40)).2 = Throw TypeError.
Proof.
  split.
  - refine (proj1 (fetch_of_array_with_null_throws E_null_items (VNum 2)
      (HttpClient.request E_null_items (ApiService.postsUrl E_null_items (VNum 2)) 0).1
      [post 10 "first"; VNull; post 12 "third"] _ _ _) _).
    + apply list_elem_of_further, list_elem_of_here.
    + simpl. lia.
    + repeat constructor; discriminate.
    + vm_compute. reflexivity.
  - refine (proj2 (fetch_of_array_with_null_throws E_null_items (VNum 40)
      (HttpClient.request E_null_items (ApiService.commentsUrl E_null_items (VNum 40)) 0).1
      [comment 400 "a" "a@x.org"; VNull] _ _ _) _).
    + apply list_elem_of_further, list_elem_of_here.
    + simpl. lia.
    + repeat constructor; discriminate.
    + vm_compute. reflexivity.
Defined.

Lemma getPostsByUserId_lone_null (E : Env) (id : value) (t : list event) :
  converts id = true ->
  HttpClient.request E (ApiService.postsUrl E id) 0 = (t, Return (VArr [VNull])) ->
  ApiService.getPostsByUserId E id =
  (ELog Info (FetchingPosts (to_string (runtime E) id)) :: t,
   Return (slice [VNull] (postsPerUser (CONFIG E)))).
Proof.
  intros Hid Hreq. rewrite getPostsByUserId_converts by done. unfold Logger.info.
  rewrite bind_emit, (bind_Return _ _ _ _ Hreq). simpl. by rewrite app_nil_r.
Qed.

Lemma slice_lone (x : value) (stop : Z) :
  slice [x] stop = if 1 <=? stop then [x] else [].
Proof.
  unfold slice. cbn [length]. destruct (stop <? 0) eqn:Hneg.
  - replace (Z.max (Z.of_nat 1 + stop) 0) with 0 by lia.
    destruct (1 <=? stop) eqn:Hone; [lia|done].
  - destruct (1 <=? stop) eqn:Hone.
    + replace (Z.min stop (Z.of_nat 1)) with 1 by lia. done.
    + replace (Z.min stop (Z.of_nat 1)) with 0 by lia. done.
Qed.

Lemma records_of_posts_null (E : Env) (user : value) (posts : list value) :
  forallb resolves posts = false ->
  processPosts E user posts [] =
  ((Promise_all (List.map (DataProcessor.fetchComments E) posts)).1, [], Throw TypeError).
Proof.
  intros Hnull. unfold processPosts.
  by rewrite bindP_io, Promise_all_fetchComments, Hnull.
Qed.

(** X10. When the array fetched for the posts of a user holds a [null],
    that user contributes no record, whatever the other posts and their
    comments are; if the user is valid, its id converts to a string (as
    that of a user the filter kept does) and [postsPerUser] is at least 1,
    the loop body logs a [TypeError] for the user and returns. *)
Theorem null_post_voids_user
    (E : Env) (user : value) (t : list event) (fetched : list value) :
  HttpClient.request E (ApiService.postsUrl E (prop user "id")) 0
    = (t, Return (VArr fetched)) ->
  VNull ∈ fetched ->
  Forall (fun x => x <> VUndefined) fetched ->
  contribution E user = []
  /\ (validUser user = true -> converts (prop user "id") = true ->
      1 <= postsPerUser (CONFIG E) ->
      exists tr,
        DataProcessor.processUser E user [] = (tr, [], Return tt)
        /\ logged (error_lines
                     (FailedUser (to_string (runtime E) (prop user "id"))) TypeError)
                  tr).
Proof.
  intros Hreq Hin Hdef.
  assert (Hlast : forall t1 t2 m e, logged (error_lines m e) (t1 ++ t2 ++ error_lines m e)).
  { intros t1 t2 m e. do 2 apply logged_app_r. exists [], []. by rewrite app_nil_r. }
  destruct (converts (prop user "id")) eqn:Hid; cycle 1.
  { split; [|done]. rewrite contribution_eq. destruct (validUser user); [|done].
    unfold postsFor. by rewrite getPostsByUserId_throws. }
  destruct fetched as [|x [|x' l]].
  - by apply elem_of_nil in Hin.
  - apply list_elem_of_singleton in Hin as <-.
    pose proof (getPostsByUserId_lone_null E _ t Hid Hreq) as Hposts.
    rewrite slice_lone in Hposts. split.
    + rewrite contribution_eq. destruct (validUser user); [|done].
      unfold postsFor. rewrite Hposts.
      destruct (1 <=? postsPerUser (CONFIG E)); [|done].
      unfold records_of_posts. by rewrite records_of_posts_null.
    + intros Hv _ Hpp. apply Z.leb_le in Hpp. rewrite Hpp in Hposts.
      rewrite (processUser_fetched E user [] _ _ Hv Hposts).
      rewrite records_of_posts_null by done. cbn [fst snd].
      eexists. split; [reflexivity|]. apply Hlast.
  - assert (Hthrow : (ApiService.getPostsByUserId E (prop user "id")).2 = Throw TypeError).
    { rewrite getPostsByUserId_converts by done.
      unfold Logger.info. rewrite bind_emit. cbn [snd].
      eapply fetch_null_throws; [done|done|simpl; lia|done]. }
    destruct (ApiService.getPostsByUserId E (prop user "id")) as [tp r] eqn:Hposts.
    simpl in Hthrow. subst r. split.
    + rewrite contribution_eq. destruct (validUser user); [|done].
      unfold postsFor. by rewrite Hposts.
    + intros Hv _ _.
      rewrite (processUser_fetch_fails E user [] _ _ Hv Hid Hposts).
      eexists. split; [reflexivity|]. apply (Hlast [] tp).
Qed.

Lemma null_post_voids_user_witness :
  contribution E_null_items ann = []
  /\ exists tr,
       DataProcessor.processUser E_null_items ann [] = (tr, [], Return tt)
       /\ logged (error_lines (FailedUser "2") TypeError) tr.
Proof.
  destruct (null_post_voids_user E_null_items ann
    (HttpClient.request E_null_items
       (ApiService.postsUrl E_null_items (prop ann "id")) 0).1
    [post 10 "first"; VNull; post 12 "third"]) as [Hnone Hlog].
  - vm_compute. reflexivity.
  - apply list_elem_of_further, list_elem_of_here.
  - repeat constructor; discriminate.
  - split; [exact Hnone|]. apply Hlog; [reflexivity|reflexivity|].
    vm_compute. discriminate.
Defined.

(** ** A [null] among the comments *)

(** A loop stops at the first element on which its body throws, and keeps
    what was pushed until then. *)
Lemma forEach_stops {A : Type} (body : A -> P unit) (f : A -> list FlatRecord)
    (l1 l2 : list A) (x : A) (d : list FlatRecord) (e : exn) :
  (forall y, appends (body y)) ->
  (forall y, y ∈ l1 -> (body y []).1.2 = f y /\ (body y []).2 = Return tt) ->
  (body x []).1.2 = d -> (body x []).2 = Throw e ->
  (forEach body (l1 ++ x :: l2) []).1.2 = flat_map f l1 ++ d
  /\ (forEach body (l1 ++ x :: l2) []).2 = Throw e.
Proof.
  intros Happ Hl1 Hd He. induction l1 as [|y l1 IH].
  - cbn [app forEach flat_map]. unfold mbind, P_bind.
    destruct (body x []) as [[t d'] r]. simpl in Hd, He. by subst.
  - destruct (Hl1 y) as [Hs Hr]; [by left|].
    destruct IH as [IHs IHr]; [intros z Hz; apply Hl1; by right|].
    cbn [app forEach flat_map]. unfold mbind, P_bind.
    destruct (body y []) as [[t dy] r]. simpl in Hs, Hr. subst dy r.
    rewrite (appends_forEach body _ Happ (f y)).
    destruct (forEach body (l1 ++ x :: l2) []) as [[t' d'] r']. simpl in *.
    subst. by rewrite app_assoc.
Qed.

Lemma pushRecords_stops (user post : value) (cs1 cs2 : list value) (c : value) :
  coercible user = true -> coercible post = true ->
  Forall (fun x => coercible x = true) cs1 -> coercible c = false ->
  (DataProcessor.pushRecords user (post, cs1 ++ c :: cs2) []).1.2
    = List.map (flatRecord user post) (List.filter validComment cs1)
  /\ (DataProcessor.pushRecords user (post, cs1 ++ c :: cs2) []).2 = Throw TypeError.
Proof.
  intros Hu Hp Hcs1 Hc. unfold DataProcessor.pushRecords.
  rewrite <- flat_map_row_of, <- (app_nil_r (flat_map _ cs1)).
  apply forEach_stops.
  - intros y. appends_tac.
  - intros y Hy. rewrite Forall_forall in Hcs1. specialize (Hcs1 y Hy).
    rewrite bindP_io, validateComment_coercible by done. cbn [fst snd].
    unfold row_of. destruct (validComment y); [|done].
    by rewrite push_flatRecord, Hu, Hp, Hcs1.
  - by rewrite bindP_io, validateComment_nullish.
  - by rewrite bindP_io, validateComment_nullish.
Qed.

(** X11. When the task of every post of a user resolves and the comments
    of one post hold a [null] (the sort lets a one-element array pass),
    [validateComment] throws inside the loop that pushes the records: the
    records pushed so far for the user stay in [allRecords], the remaining
    comments of that post and all the following posts of the user are lost,
    and the loop body logs a [TypeError] for the user and returns. *)
Theorem null_comment_cuts_user_short
    (E : Env) (user post : value) (l1 l2 cs1 cs2 : list value) (c : value)
    (t : list event) :
  validUser user = true ->
  ApiService.getPostsByUserId E (prop user "id") = (t, Return (l1 ++ post :: l2)) ->
  Forall (fun p => coercible p = true
                   /\ (validPost p = true -> converts (prop p "id") = true))
         (l1 ++ post :: l2) ->
  (forall p, p ∈ l1 -> Forall (fun x => coercible x = true) (commentsFor E p)) ->
  commentsFor E post = cs1 ++ c :: cs2 ->
  Forall (fun x => coercible x = true) cs1 -> coercible c = false ->
  contribution E user
    = rows E user l1 ++ List.map (flatRecord user post) (List.filter validComment cs1)
  /\ exists tr,
       DataProcessor.processUser E user [] = (tr, contribution E user, Return tt)
       /\ logged (error_lines
                    (FailedUser (to_string (runtime E) (prop user "id"))) TypeError)
                 tr.
Proof.
  intros Hv Hposts Hco Hcs Hpost Hcs1 Hc.
  pose proof (validUser_coercible user Hv) as Hu.
  assert (Hres : Forall (fun p => resolves p = true) (l1 ++ post :: l2)).
  { eapply Forall_impl; [exact Hco|]. intros p [Hp Hid]. unfold resolves.
    rewrite Hp. simpl. destruct (validPost p); [by apply Hid|done]. }
  assert (Hloop :
    (processPosts E user (l1 ++ post :: l2) []).1.2
      = rows E user l1 ++ List.map (flatRecord user post) (List.filter validComment cs1)
    /\ (processPosts E user (l1 ++ post :: l2) []).2 = Throw TypeError).
  { unfold processPosts. rewrite bindP_io, Promise_all_fetchComments.
    apply forallb_resolves in Hres as Hres'. rewrite Hres'. cbn [fst snd].
    rewrite map_app. cbn [List.map]. rewrite Hpost, <- flat_map_rows_of.
    apply Forall_app in Hres as [Hl1 Hrest]. apply Forall_cons in Hrest as [Hp _].
    apply resolves_coercible in Hp. rewrite Forall_forall in Hl1.
    destruct (pushRecords_stops user post cs1 cs2 c Hu Hp Hcs1 Hc) as [Hd He].
    apply (forEach_stops (DataProcessor.pushRecords user) (rows_of user)
             _ _ _ _ _ (appends_pushRecords user)); [|done|done].
    intros [p cs] Hin.
    apply list_elem_of_In, in_map_iff in Hin as (p' & [= <- <-] & Hp').
    apply list_elem_of_In in Hp'.
    apply pushRecords_total; simpl; auto using resolves_coercible. }
  destruct Hloop as [Hstate Hthrow].
  assert (Hc' : contribution E user
                = rows E user l1 ++
                  List.map (flatRecord user post) (List.filter validComment cs1)).
  { unfold contribution. by rewrite (processUser_fetched E user [] _ _ Hv Hposts). }
  split; [done|].
  rewrite (processUser_fetched E user [] _ _ Hv Hposts), Hc', Hstate, Hthrow.
  eexists. split; [reflexivity|].
  do 2 apply logged_app_r. exists [], []. by rewrite app_nil_r.
Qed.

Lemma null_comment_cuts_user_short_witness :
  contribution E_null_comment ann
  = [flatRecord ann (post 12 "third") (comment 120 "kept" "a@x.org")]
  /\ exists tr,
       DataProcessor.processUser E_null_comment ann []
         = (tr, contribution E_null_comment ann, Return tt)
       /\ logged (error_lines (FailedUser "2") TypeError) tr.
Proof.
  destruct (null_comment_cuts_user_short E_null_comment ann (post 11 "second")
    [post 12 "third"] [post 10 "first"] [] [] VNull
    (ApiService.getPostsByUserId E_null_comment (prop ann "id")).1)
    as [Hrows Hlog].
  - reflexivity.
  - vm_compute. reflexivity.
  - repeat constructor.
  - intros p Hp%list_elem_of_singleton. subst p. vm_compute. repeat constructor.
  - vm_compute. reflexivity.
  - constructor.
  - reflexivity.
  - split; [|exact Hlog]. rewrite Hrows. vm_compute. reflexivity.
Defined.

(** ** Which URLs a run requests *)

Ltac attempts_simpl :=
  repeat first [rewrite attempts_log | rewrite attempts_app
               | rewrite attempts_error_lines];
  change (attempts []) with (@nil string); rewrite ?app_nil_r.

Lemma noget_ret {A : Type} (a : A) : noget (mret a : IO A).
Proof. done. Qed.

Lemma noget_throw {A : Type} (e : exn) : noget (throw e : IO A).
Proof. done. Qed.

Lemma noget_bind {A B : Type} (m : IO A) (f : A -> IO B) :
  noget m -> (forall a, noget (f a)) -> noget (m ≫= f).
Proof.
  unfold noget. intros Hm Hf. rewrite bind_unfold.
  destruct m as [t [a|e]]; simpl in *; [|done].
  by rewrite attempts_app, Hm, Hf.
Qed.

Lemma noget_get (o : value) (k : string) : noget (get o k).
Proof. by destruct o. Qed.

Lemma noget_ToString (rt : Runtime) (v : value) : noget (ToString rt v).
Proof. unfold ToString. by destruct (converts v). Qed.

Lemma noget_ToNumber (rt : Runtime) (v : value) : noget (ToNumber rt v).
Proof. unfold ToNumber. by destruct (converts v). Qed.

Lemma noget_DateValue (rt : Runtime) (v : value) : noget (DateValue rt v).
Proof. unfold DateValue. by destruct (converts v). Qed.

Lemma noget_error (m : message) (e : thrown) : noget (Logger.error m e).
Proof. done. Qed.

Lemma noget_filterM {A : Type} (p : A -> IO bool) (l : list A) :
  (forall x, noget (p x)) -> noget (filterM p l).
Proof.
  intros Hp. induction l as [|x l IH]; [done|]. cbn [filterM].
  apply noget_bind; [done|]. intros keep.
  apply noget_bind; [done|]. intros rest. apply noget_ret.
Qed.

Ltac noget_tac :=
  repeat first
    [ apply noget_ret | apply noget_throw | apply noget_get
    | apply noget_ToString | apply noget_ToNumber | apply noget_DateValue
    | apply noget_error
    | assumption
    | apply noget_bind; [|intros ?]
    | apply noget_filterM; intros ?
    | match goal with |- noget (if ?b then _ else _) => destruct b end
    | match goal with |- noget (match ?x with _ => _ end) => destruct x end
    | reflexivity ].

Lemma noget_validateUser (user : value) : noget (DataValidator.validateUser user).
Proof. unfold DataValidator.validateUser, DataValidator.missingFields. noget_tac. Qed.

Lemma noget_validatePost (post : value) : noget (DataValidator.validatePost post).
Proof. unfold DataValidator.validatePost, DataValidator.missingFields. noget_tac. Qed.

Lemma noget_validateComment (comment : value) :
  noget (DataValidator.validateComment comment).
Proof. unfold DataValidator.validateComment, DataValidator.missingFields. noget_tac. Qed.

Lemma noget_byDateOrId (rt : Runtime) (a b : value) :
  noget (ApiService.byDateOrId rt a b).
Proof. unfold ApiService.byDateOrId. noget_tac. Qed.

Lemma noget_sort_insert (rt : Runtime) (x : value) (sorted : list value) :
  noget (sort_insert (ApiService.byDateOrId rt) x sorted).
Proof.
  induction sorted as [|y rest IH]; [done|]. cbn [sort_insert].
  apply noget_bind.
  - unfold SortCompare. destruct x, y; noget_tac; apply noget_byDateOrId.
  - intros c. destruct c; noget_tac.
Qed.

Lemma noget_Array_sort (rt : Runtime) (arr : value) :
  noget (Array_sort (ApiService.byDateOrId rt) arr).
Proof.
  destruct arr as [| | | | |items|]; try done. simpl.
  generalize (@nil value). induction items as [|x items IH]; intros sorted; [done|].
  cbn [sort_from]. apply noget_bind; [apply noget_sort_insert|].
  intros sorted'. apply IH.
Qed.

(** A request asks for its own URL only. *)
Lemma attempts_request (E : Env) (url : string) (r : nat) :
  Forall (fun a => a = url) (attempts (HttpClient.request E url r).1).
Proof.
  destruct (request_run E url r) as (k & Htl & _).
  destruct (backoff_attempts _ _ _ _ _ Htl) as [-> _].
  by apply Forall_replicate.
Qed.

Lemma attempts_fetch (E : Env) (url : string) (limit : Z) :
  Forall (fun a => a = url)
    (attempts (data ← HttpClient.request E url 0;
               sorted ← Array_sort (ApiService.byDateOrId (runtime E)) data;
               mret (slice sorted limit)).1).
Proof.
  rewrite bind_unfold. pose proof (attempts_request E url 0) as Hreq.
  destruct (HttpClient.request E url 0) as [t [data|e]]; cbn [fst snd] in *; [|done].
  rewrite attempts_app. apply Forall_app. split; [done|].
  assert (Hsort : noget (sorted ← Array_sort (ApiService.byDateOrId (runtime E)) data;
                         mret (slice sorted limit))).
  { apply noget_bind; [apply noget_Array_sort|]. by intros ?. }
  unfold noget in Hsort. by rewrite Hsort.
Qed.

Lemma attempts_getPostsByUserId (E : Env) (id : value) :
  Forall (fun a => a = ApiService.postsUrl E id)
    (attempts (ApiService.getPostsByUserId E id).1).
Proof.
  destruct (converts id) eqn:Hid; [|by rewrite getPostsByUserId_throws].
  rewrite getPostsByUserId_converts by done.
  unfold Logger.info. rewrite bind_emit. cbn [fst]. rewrite attempts_log.
  apply attempts_fetch.
Qed.

Lemma attempts_getCommentsByPostId (E : Env) (id : value) :
  Forall (fun a => a = ApiService.commentsUrl E id)
    (attempts (ApiService.getCommentsByPostId E id).1).
Proof.
  destruct (converts id) eqn:Hid; [|by rewrite getCommentsByPostId_throws].
  rewrite getCommentsByPostId_converts by done.
  unfold Logger.info. rewrite bind_emit. cbn [fst]. rewrite attempts_log.
  apply attempts_fetch.
Qed.

(** The task of a post asks for the comments of that post, and only if the
    post is valid. *)
Lemma attempts_fetchComments (E : Env) (post : value) :
  Forall (fun a => validPost post = true
                   /\ a = ApiService.commentsUrl E (prop post "id"))
    (attempts (DataProcessor.fetchComments E post).1).
Proof.
  destruct (resolves post) eqn:Hc.
  - rewrite fetchComments_resolves by done. cbn [fst].
    rewrite attempts_app, (noget_validatePost post). cbn [app].
    destruct (validPost post); [|done].
    rewrite attempts_app. apply Forall_app. split.
    + eapply Forall_impl; [apply attempts_getCommentsByPostId|]. by intros a ->.
    + by destruct (ApiService.getCommentsByPostId _ _).2.
  - by rewrite fetchComments_rejects.
Qed.

Lemma nogetP_ret {A : Type} (a : A) : nogetP (mret a : P A).
Proof. done. Qed.

Lemma nogetP_io {A : Type} (m : IO A) : noget m -> nogetP (io m).
Proof. by intros Hm s. Qed.

Lemma nogetP_push (r : FlatRecord) : nogetP (push r).
Proof. done. Qed.

Lemma nogetP_bind {A B : Type} (m : P A) (f : A -> P B) :
  nogetP m -> (forall a, nogetP (f a)) -> nogetP (m ≫= f).
Proof.
  intros Hm Hf s. unfold mbind, P_bind. specialize (Hm s).
  destruct (m s) as [[t s'] [a|e]]; simpl in *; [|done].
  specialize (Hf a s'). destruct (f a s') as [[t' s''] r]. simpl in *.
  by rewrite attempts_app, Hm, Hf.
Qed.

Lemma nogetP_forEach {A : Type} (body : A -> P unit) (l : list A) :
  (forall x, nogetP (body x)) -> nogetP (forEach body l).
Proof.
  intros Hbody. induction l as [|x l IH]; [done|]. cbn [forEach].
  apply nogetP_bind; [done|]. by intros _.
Qed.

Lemma nogetP_pushRecords (user : value) (pc : value * list value) :
  nogetP (DataProcessor.pushRecords user pc).
Proof.
  destruct pc as [post comments]. unfold DataProcessor.pushRecords.
  apply nogetP_forEach. intros c.
  apply nogetP_bind; [apply nogetP_io, noget_validateComment|].
  intros valid. destruct valid; [|apply nogetP_ret].
  repeat (apply nogetP_bind; [apply nogetP_io, noget_get|intros ?]).
  apply nogetP_push.
Qed.

Lemma attempts_processPosts (E : Env) (user : value) (posts : list value)
    (s : list FlatRecord) :
  Forall (fun a => exists post, post ∈ posts /\ validPost post = true
                                /\ a = ApiService.commentsUrl E (prop post "id"))
    (attempts (processPosts E user posts s).1.1).
Proof.
  unfold processPosts. rewrite bindP_io.
  assert (Htasks : Forall (fun a => exists post, post ∈ posts /\ validPost post = true
                       /\ a = ApiService.commentsUrl E (prop post "id"))
            (attempts (Promise_all (List.map (DataProcessor.fetchComments E) posts)).1)).
  { unfold Promise_all. cbn [fst]. rewrite attempts_tasks, !List.map_map.
    induction posts as [|p posts IH]; [done|].
    cbn [List.map concat]. apply Forall_app. split.
    - eapply Forall_impl; [apply attempts_fetchComments|].
      intros a [Hv ->]. exists p. split_and!; [by left|done|done].
    - eapply Forall_impl; [apply IH|].
      intros a (q & Hq & Hv & ->). exists q. split_and!; [by right|done|done]. }
  destruct (Promise_all _).2 as [pcs|e]; cbn [fst]; [|done].
  rewrite attempts_app. apply Forall_app. split; [done|].
  pose proof (nogetP_forEach _ pcs (nogetP_pushRecords user) s) as Hloop.
  by rewrite Hloop.
Qed.

(** The loop body of a user asks for nothing if the user is invalid, and
    else for the posts of the user and the comments of its valid posts. *)
Lemma attempts_processUser (E : Env) (user : value) (s : list FlatRecord) :
  Forall (requested_for E user) (attempts (DataProcessor.processUser E user s).1.1).
Proof.
  destruct (coercible user) eqn:Hc; [|by rewrite processUser_nullish].
  destruct (validUser user) eqn:Hv.
  - destruct (converts (prop user "id")) eqn:Hid;
      [|by rewrite processUser_unconvertible].
    destruct (ApiService.getPostsByUserId E (prop user "id")) as [t [posts|e]] eqn:Hp.
    + rewrite (processUser_fetched E user s t posts) by done. cbn [fst].
      rewrite !attempts_app.
      pose proof (attempts_getPostsByUserId E (prop user "id")) as Ht.
      rewrite Hp in Ht. cbn [fst] in Ht.
      apply Forall_app. split; [|apply Forall_app; split].
      * eapply Forall_impl; [exact Ht|]. intros a ->. split; [done|by left].
      * eapply Forall_impl; [apply attempts_processPosts|].
        intros a (p & Hin & Hvp & ->). split; [done|]. right. exists p.
        unfold postsFor. by rewrite Hp.
      * by destruct (processPosts E user posts s).2.
    + rewrite (processUser_fetch_fails E user s t e) by done. cbn [fst].
      rewrite !attempts_app, attempts_error_lines, app_nil_r.
      pose proof (attempts_getPostsByUserId E (prop user "id")) as Ht.
      rewrite Hp in Ht. cbn [fst] in Ht.
      eapply Forall_impl; [exact Ht|]. intros a ->. split; [done|by left].
  - rewrite processUser_invalid by done. cbn [fst].
    by rewrite (noget_validateUser user).
Qed.

Lemma attempts_loop (E : Env) (users : list value) :
  Forall (fun u => testable u = true) users ->
  Forall (fun a => exists user, user ∈ users /\ requested_for E user a)
    (attempts (forEach (DataProcessor.processUser E) users []).1.1).
Proof.
  intros Hco. rewrite forEach_processUser_trace by done. clear Hco.
  induction users as [|u users IH]; [done|].
  cbn [flat_map]. rewrite attempts_app. apply Forall_app. split.
  - eapply Forall_impl; [apply attempts_processUser|].
    intros a Ha. exists u. split; [by left|done].
  - eapply Forall_impl; [apply IH|].
    intros a (v & Hv & Ha). exists v. split; [by right|done].
Qed.

Lemma attempts_collect (E : Env) :
  Forall (fun a => a = ApiService.usersUrl E
                   \/ exists user, user ∈ evenUsers_of E /\ requested_for E user a)
    (attempts (collect E).1).
Proof.
  pose proof (attempts_request E (ApiService.usersUrl E) 0) as Hreq.
  pose proof (evenUsers_of_eq E) as Heven.
  unfold collect, Logger.info. rewrite bind_emit, getUsers_eq. cbn [fst].
  destruct (HttpClient.request E (ApiService.usersUrl E) 0) as [t [users|e]];
    cbn [fst snd] in *.
  - assert (Ht : Forall (fun a => a = ApiService.usersUrl E
        \/ exists user, user ∈ evenUsers_of E /\ requested_for E user a) (attempts t)).
    { eapply Forall_impl; [exact Hreq|]. intros a ->. by left. }
    rewrite bind_unfold. cbn [fst snd].
    destruct (countable users) eqn:Hcount; cbn [fst snd];
      [|attempts_simpl; exact Ht].
    destruct users as [| | | | |users|];
      try (cbn [Array_filter];
           rewrite ?bind_throw; cbn [throw fst]; attempts_simpl; exact Ht).
    cbn [Array_filter]. rewrite filterM_hasEvenId.
    destruct (forallb testable users) eqn:Hco.
    + rewrite bind_ret, bind_emit. cbn [fst].
      apply forallb_testable in Hco.
      pose proof (attempts_loop E _ (Forall_testable_filter
                    (evenId (runtime E)) _ Hco)) as Hloop.
      unfold with_allRecords. destruct (forEach _ _ _) as [[tl sl] rl].
      cbn [fst snd] in *. attempts_simpl.
      apply Forall_app. split; [done|]. rewrite Heven.
      eapply Forall_impl; [exact Hloop|]. intros a Ha. by right.
    + rewrite bind_throw. cbn [throw fst]. attempts_simpl. exact Ht.
  - attempts_simpl. eapply Forall_impl; [exact Hreq|]. intros a ->. by left.
Qed.

Lemma attempts_main (E : Env) : attempts (main E).1 = attempts (collect E).1.
Proof.
  rewrite main_eq. destruct (collect E) as [tc [rs|e]]; cbn [fst snd].
  - rewrite writeOut_eq. destruct rs as [|r rs]; cbn [fst snd].
    + by attempts_simpl.
    + destruct (csv_writeRecords E (r :: rs)); cbn [fst snd]; by attempts_simpl.
  - by attempts_simpl.
Qed.

(** X12. Every HTTP attempt of a run is for the user listing, for the
    posts of a user that has an even id and is valid, or for the comments of
    a valid post returned for such a user: nothing is requested for a user
    with an odd id, for an invalid user or for an invalid post. *)
Theorem requests_only_for_valid_even_users (E : Env) :
  Forall (fun url =>
            url = ApiService.usersUrl E
            \/ exists user,
                 user ∈ evenUsers_of E /\ validUser user = true
                 /\ (url = ApiService.postsUrl E (prop user "id")
                     \/ exists post,
                          post ∈ postsFor E user /\ validPost post = true
                          /\ url = ApiService.commentsUrl E (prop post "id")))
         (attempts (main E).1).
Proof.
  rewrite attempts_main. eapply Forall_impl; [apply attempts_collect|].
  intros a [->|(user & Hin & Hv & Hurl)]; [by left|]. right. by exists user.
Qed.

(** ** Arrays of plain items always sort *)

(** An item that can be read and whose id and date convert. *)
Lemma SortCompare_plain (rt : Runtime) (x y : value) :
  plain x = true -> plain y = true ->
  exists c, SortCompare (ApiService.byDateOrId rt) x y = mret c.
Proof.
  unfold plain.
  intros [[Hx Hxi]%andb_true_iff Hxd]%andb_true_iff
         [[Hy Hyi]%andb_true_iff Hyd]%andb_true_iff.
  rewrite SortCompare_readable, byDateOrId_coercible by done.
  destruct (truthy (prop x "date") && truthy (prop y "date")).
  - rewrite !DateValue_converts, !bind_ret by done. by eexists.
  - rewrite !ToNumber_converts, !bind_ret by done. by eexists.
Qed.

Lemma sort_insert_plain (rt : Runtime) (x : value) (sorted : list value) :
  plain x = true -> Forall (fun y => plain y = true) sorted ->
  exists sorted', sort_insert (ApiService.byDateOrId rt) x sorted = mret sorted'.
Proof.
  intros Hx. induction 1 as [|y rest Hy _ IH]; [by eexists|].
  cbn [sort_insert]. destruct (SortCompare_plain rt x y Hx Hy) as [c ->].
  rewrite bind_ret. destruct IH as [rest' ->].
  destruct c; rewrite ?bind_ret; by eexists.
Qed.

Lemma sort_from_plain (rt : Runtime) (sorted l : list value) :
  Forall (fun y => plain y = true) sorted ->
  Forall (fun y => plain y = true) l ->
  exists sorted', sort_from (ApiService.byDateOrId rt) sorted l = mret sorted'.
Proof.
  intros Hs Hl. revert sorted Hs.
  induction Hl as [|x l Hx _ IH]; intros sorted Hs; [by eexists|].
  cbn [sort_from]. destruct (sort_insert_plain rt x sorted Hx Hs) as [s1 Hins].
  rewrite Hins, bind_ret. apply IH.
  assert (Hperm : s1 ≡ₚ x :: sorted) by (by eapply sort_insert_Permutation).
  rewrite Hperm. by constructor.
Qed.

(** X15. On an array of items that can be read and whose ids and dates
    convert, the sort of a fetch never throws, whatever fields the items
    have or lack: when the request returns such an array,
    [getPostsByUserId] returns the first [postsPerUser] items of a
    rearrangement of it, and [getCommentsByPostId] the first
    [commentsPerPost]. *)
Theorem fetch_succeeds_on_plain_items
    (E : Env) (id : value) (t : list event) (fetched : list value) :
  converts id = true ->
  Forall (fun x => coercible x = true
                   /\ converts (prop x "id") = true
                   /\ converts (prop x "date") = true) fetched ->
  (HttpClient.request E (ApiService.postsUrl E id) 0 = (t, Return (VArr fetched)) ->
   exists sorted,
     sorted ≡ₚ fetched
     /\ ApiService.getPostsByUserId E id =
        (ELog Info (FetchingPosts (to_string (runtime E) id)) :: t,
         Return (slice sorted (postsPerUser (CONFIG E)))))
  /\ (HttpClient.request E (ApiService.commentsUrl E id) 0 = (t, Return (VArr fetched)) ->
      exists sorted,
        sorted ≡ₚ fetched
        /\ ApiService.getCommentsByPostId E id =
           (ELog Info (FetchingComments (to_string (runtime E) id)) :: t,
            Return (slice sorted (commentsPerPost (CONFIG E))))).
Proof.
  intros Hid Hco.
  assert (Hplain : Forall (fun x => plain x = true) fetched).
  { eapply Forall_impl; [exact Hco|]. intros x (Hx & Hxi & Hxd).
    unfold plain. by rewrite Hx, Hxi, Hxd. }
  destruct (sort_from_plain (runtime E) [] fetched) as [sorted Hsort];
    [constructor|done|].
  assert (Hperm : sorted ≡ₚ fetched).
  { apply sort_from_Permutation in Hsort. by rewrite Hsort. }
  split; intros Hreq; exists sorted; (split; [done|]).
  - rewrite getPostsByUserId_converts by done. unfold Logger.info.
    rewrite bind_emit, (bind_Return _ _ _ _ Hreq). cbn [Array_sort].
    rewrite Hsort, bind_ret. simpl. by rewrite app_nil_r.
  - rewrite getCommentsByPostId_converts by done. unfold Logger.info.
    rewrite bind_emit, (bind_Return _ _ _ _ Hreq). cbn [Array_sort].
    rewrite Hsort, bind_ret. simpl. by rewrite app_nil_r.
Qed.

Lemma fetch_succeeds_on_plain_items_witness :
  exists sorted,
    sorted ≡ₚ mixed_posts
    /\ ApiService.getPostsByUserId E_mixed (VNum 2) =
       (ELog Info (FetchingPosts "2")
          :: (HttpClient.request E_mixed (ApiService.postsUrl E_mixed (VNum 2)) 0).1,
        Return (slice sorted (postsPerUser (CONFIG E_mixed)))).
Proof.
  apply (proj1 (fetch_succeeds_on_plain_items E_mixed (VNum 2)
                  (HttpClient.request E_mixed (ApiService.postsUrl E_mixed (VNum 2)) 0).1
                  mixed_posts eq_refl ltac:(repeat constructor))).
  vm_compute. reflexivity.
Defined.

(** ** How a run ends *)

(** X14. What [main] itself logs last tells the exit status: the info line
    of completion when the status is 0, and else the two lines of the
    failure of the processing followed by the two lines of the failure of
    the application, both with the message of the same error: the error the
    fetch of the user listing ended with, or the [TypeError] of a user
    listing that cannot be processed, or the error of the CSV library. *)
Theorem last_log_lines_tell_the_outcome (E : Env) :
  (exit_status E = 0
   /\ exists before, (main E).1 = before ++ [ELog Info ApplicationCompleted])
  \/ (exit_status E = 1
      /\ exists e before,
           (main E).1 = before ++ error_lines ProcessingFailed e
                               ++ error_lines ApplicationFailed e
           /\ ((HttpClient.request E (ApiService.usersUrl E) 0).2 = Throw e
               \/ (e = TypeError
                   /\ exists users,
                        (HttpClient.request E (ApiService.usersUrl E) 0).2 = Return users
                        /\ malformed_users users)
               \/ csv_writeRecords E (output E) = Some e)).
Proof.
  unfold exit_status, output. rewrite main_eq.
  pose proof (collect_outcome E) as Hc.
  destruct (collect E) as [tc [rs|e]]; cbn [fst snd] in *.
  - rewrite writeOut_eq. destruct rs as [|r rs]; cbn [fst snd].
    + left. split; [done|]. eexists. by rewrite app_comm_cons, app_assoc.
    + destruct (csv_writeRecords E (r :: rs)) as [e|] eqn:Hcsv; cbn [fst snd].
      * right. split; [done|]. exists e. eexists. split; [|by right; right].
        by rewrite app_comm_cons, app_assoc.
      * left. split; [done|]. eexists. by rewrite app_comm_cons, app_assoc.
  - right. split; [done|]. exists e. eexists. split.
    + by rewrite app_comm_cons.
    + destruct (HttpClient.request E (ApiService.usersUrl E) 0).2 as [users|e'].
      * right. left.
        destruct users as [| | | | |users|]; try (injection Hc as <-; split; [done|];
          eexists; split; [reflexivity|done]).
        destruct (forallb testable users) eqn:Hco; [done|]. injection Hc as <-.
        split; [done|]. eexists. split; [reflexivity|done].
      * left. by injection Hc as <-.
Qed.

(** ** Ids that do not convert *)

(** X16. When the test of the filter throws on a user of the fetched list
    (the user is [null], or its id does not convert to a number, as an
    object with a key [toString] does not), the run fails before the loop:
    the only requests are those of the user listing, nothing is handed to
    the CSV library, the log ends with the lines of the two failures, both
    with the message of a [TypeError], and the exit status is 1. *)
Theorem untestable_user_aborts_run
    (E : Env) (t : list event) (users : list value) :
  HttpClient.request E (ApiService.usersUrl E) 0 = (t, Return (VArr users)) ->
  Exists (fun u => coercible u = false \/ converts (prop u "id") = false) users ->
  exit_status E = 1
  /\ output E = []
  /\ written (main E).1 = []
  /\ attempts (main E).1 = attempts t
  /\ exists before,
       (main E).1 = before ++ error_lines ProcessingFailed TypeError
                           ++ error_lines ApplicationFailed TypeError.
Proof.
  intros Hreq Hbad.
  assert (Hco : forallb testable users = false).
  { apply not_true_is_false. intros Hall%forallb_testable.
    apply Exists_exists in Hbad as (u & Hu & Hbad).
    rewrite Forall_forall in Hall. specialize (Hall u Hu).
    apply andb_true_iff in Hall as [Hc Hid]. destruct Hbad; congruence. }
  assert (Hcollect : collect E =
            (ELog Info StartingProcessing :: ELog Info FetchingUsers :: t ++
               [ELog Info (FetchedUsers (to_string (runtime E)
                                           (prop (VArr users) "length")))],
             Throw TypeError)).
  { unfold collect, Logger.info. rewrite bind_emit, getUsers_eq, Hreq.
    cbn [fst snd]. rewrite countable_array, bind_unfold. cbn [fst snd Array_filter].
    rewrite filterM_hasEvenId, Hco, bind_throw. cbn [throw fst snd].
    by rewrite app_nil_r. }
  assert (Hout : output E = []) by (unfold output; by rewrite Hcollect).
  split_and!.
  - by rewrite exit_status_eq, Hcollect.
  - done.
  - by rewrite main_written, Hout.
  - rewrite attempts_main, Hcollect. cbn [fst]. by attempts_simpl.
  - rewrite main_eq, Hcollect. cbn [fst snd]. eexists. by rewrite app_comm_cons.
Qed.

Lemma untestable_user_aborts_run_witness :
  exit_status E_bad_user = 1
  /\ output E_bad_user = []
  /\ written (main E_bad_user).1 = []
  /\ attempts (main E_bad_user).1 = ["https://jsonplaceholder.typicode.com/users"%string].
Proof.
  destruct (untestable_user_aborts_run E_bad_user
    (HttpClient.request E_bad_user (ApiService.usersUrl E_bad_user) 0).1
    [ann; unnamed_id; eve]) as (Hexit & Hout & Hw & Ha & _).
  - vm_compute. reflexivity.
  - apply Exists_cons_tl, Exists_cons_hd. right. reflexivity.
  - split_and!; [exact Hexit|exact Hout|exact Hw|]. rewrite Ha. reflexivity.
Defined.

(** X17. The task of a valid post whose id does not convert to a string
    rejects without an event: the fetch throws when it builds its log line,
    before any request, and the handler of the task throws when it builds
    its own.  [Promise.all] then rejects, and the user contributes no
    record, whatever the other posts and their comments are; the loop body
    logs a [TypeError] for the user and returns. *)
Theorem unconvertible_post_id_voids_user
    (E : Env) (user post : value) (t : list event) (l1 l2 : list value) :
  validUser user = true ->
  ApiService.getPostsByUserId E (prop user "id") = (t, Return (l1 ++ post :: l2)) ->
  validPost post = true -> converts (prop post "id") = false ->
  DataProcessor.fetchComments E post = throw TypeError
  /\ contribution E user = []
  /\ DataProcessor.processUser E user [] =
     (t ++ [ETasks false (List.map (fun p => (DataProcessor.fetchComments E p).1)
                                   (l1 ++ post :: l2))]
        ++ error_lines (FailedUser (to_string (runtime E) (prop user "id"))) TypeError,
      [], Return tt).
Proof.
  intros Hv Hposts Hvp Hid.
  assert (Hrej : resolves post = false).
  { unfold resolves. by rewrite validPost_coercible, Hvp, Hid. }
  assert (Hall : forallb resolves (l1 ++ post :: l2) = false).
  { rewrite forallb_app. cbn [forallb]. rewrite Hrej. by rewrite andb_false_r. }
  assert (Hloop : processPosts E user (l1 ++ post :: l2) [] =
            ([ETasks false (List.map (fun p => (DataProcessor.fetchComments E p).1)
                                     (l1 ++ post :: l2))], [], Throw TypeError)).
  { unfold processPosts. rewrite bindP_io.
    pose proof (Promise_all_fetchComments E (l1 ++ post :: l2)) as Hsettle.
    rewrite Hall in Hsettle. unfold Promise_all in *. cbn [fst snd] in *.
    by rewrite Hsettle, List.map_map. }
  pose proof (processUser_fetched E user [] _ _ Hv Hposts) as Hbody.
  rewrite Hloop in Hbody. cbn [fst snd] in Hbody.
  split_and!.
  - by apply fetchComments_unconvertible.
  - unfold contribution. by rewrite Hbody.
  - done.
Qed.

Lemma unconvertible_post_id_voids_user_witness :
  DataProcessor.fetchComments E_bad_post bad_post = throw TypeError
  /\ fetched_comments E_bad_post (dated_post 7 "fine" 9)
     = [comment 70 "lost" "a@x.org"]
  /\ contribution E_bad_post ann = [].
Proof.
  destruct (unconvertible_post_id_voids_user E_bad_post ann bad_post
    (ApiService.getPostsByUserId E_bad_post (prop ann "id")).1
    [dated_post 7 "fine" 9] []) as (Htask & Hnone & _).
  - reflexivity.
  - vm_compute. reflexivity.
  - reflexivity.
  - reflexivity.
  - split_and!; [exact Htask|vm_compute; reflexivity|exact Hnone].
Defined.
